(** * Briefrr: rate limiter, streaming relay and session controller

    A shallow embedding of the request-orchestration code of the Briefrr
    browser extension:

    - [utils/storage.js]       the persisted key-value state ([Storage]);
    - [utils/rate-limiter.js]  the client-side gate and backoff ([RateLimiter]);
    - [utils/gemini-api.js]    the upstream call and its incremental decoder
                               ([streamGeminiResponse], [validateApiKey]);
    - [background.js]          the port handler that forwards the stream;
    - [content.js]             the controller ([switchMode], [runBriefrr]).

    JavaScript numbers are modelled as [Z]: every number the code handles is
    an integer count of milliseconds or seconds, far inside the range where
    doubles are exact.  JavaScript strings are lists of UTF-16 code units. *)

From Stdlib Require Import ZArith NArith List Bool Lia String Ascii Permutation.
Import ListNotations.
Local Open Scope Z_scope.
Set Warnings "-register-all,-abstract-large-number".

(** ** JavaScript strings *)

Module JS.

Definition char16 := N.
Definition jsstring := list char16.

(** An ASCII literal as a JavaScript string. *)
Fixpoint lit (s : string) : jsstring :=
  match s with
  | EmptyString => []
  | String c r => N_of_ascii c :: lit r
  end.

Fixpoint eqb (a b : jsstring) : bool :=
  match a, b with
  | [], [] => true
  | x :: a', y :: b' => N.eqb x y && eqb a' b'
  | _, _ => false
  end.

(** [s.startsWith(p)] *)
Fixpoint startsWith (s p : jsstring) : bool :=
  match p, s with
  | [], _ => true
  | y :: p', x :: s' => N.eqb x y && startsWith s' p'
  | _ :: _, [] => false
  end.

(** [s.slice(n)] for a non-negative [n]. *)
Definition slice_from (n : nat) (s : jsstring) : jsstring := skipn n s.

(** WhiteSpace and LineTerminator code units, the set removed by
    [String.prototype.trim] and skipped by [parseInt]. *)
Definition isWhiteSpace (c : char16) : bool :=
  ((9 <=? c) && (c <=? 13) || (c =? 32) || (c =? 160) || (c =? 5760)
   || (8192 <=? c) && (c <=? 8202) || (c =? 8232) || (c =? 8233)
   || (c =? 8239) || (c =? 8287) || (c =? 12288) || (c =? 65279))%N.

Fixpoint trimStart (s : jsstring) : jsstring :=
  match s with
  | c :: r => if isWhiteSpace c then trimStart r else s
  | [] => []
  end.

Definition trimEnd (s : jsstring) : jsstring := rev (trimStart (rev s)).

Definition trim (s : jsstring) : jsstring := trimEnd (trimStart s).

(** [s.split(sep)] for a one-unit separator: always at least one piece. *)
Fixpoint split (sep : char16) (s : jsstring) : list jsstring :=
  match s with
  | [] => [[]]
  | c :: r =>
      if N.eqb c sep then [] :: split sep r
      else match split sep r with
           | p :: ps => (c :: p) :: ps
           | [] => [[c]]
           end
  end.

(** [parts.join(sep)] *)
Fixpoint join (sep : char16) (parts : list jsstring) : jsstring :=
  match parts with
  | [] => []
  | [p] => p
  | p :: ps => p ++ sep :: join sep ps
  end.

(** [s.includes(p)] *)
Fixpoint includes (s p : jsstring) : bool :=
  startsWith s p ||
  match s with
  | [] => false
  | _ :: r => includes r p
  end.

(** Decimal digits of a natural number, most significant first: what
    [String(n)] and a template literal produce for a non-negative integer. *)
Fixpoint digits_acc (fuel : nat) (n : N) (acc : jsstring) : jsstring :=
  match fuel with
  | O => acc
  | S f =>
      let acc' := (48 + n mod 10)%N :: acc in
      if (n <? 10)%N then acc' else digits_acc f (n / 10)%N acc'
  end.

Definition digits (n : N) : jsstring := digits_acc (S (N.to_nat (N.log2 n))) n [].

(** [String(n)] for an integer [n]. *)
Definition Number_toString (n : Z) : jsstring :=
  if n <? 0 then 45%N :: digits (Z.to_N (- n)) else digits (Z.to_N n).

Definition isDigit (c : char16) : bool := ((48 <=? c) && (c <=? 57))%N.

(** The longest prefix of decimal digits, read as a number. [None] when the
    prefix is empty. *)
Fixpoint parseDigits (s : jsstring) (acc : option Z) : option Z :=
  match s with
  | c :: r =>
      if isDigit c
      then parseDigits r (Some (10 * match acc with Some a => a | None => 0 end
                                + Z.of_N (c - 48)))
      else acc
  | [] => acc
  end.

(** [parseInt(s, 10)]; [None] stands for [NaN]. *)
Definition parseInt10 (s : jsstring) : option Z :=
  match trimStart s with
  | c :: r =>
      if N.eqb c 45 then option_map Z.opp (parseDigits r None)
      else if N.eqb c 43 then parseDigits r None
      else parseDigits (c :: r) None
  | [] => None
  end.

(** [Math.ceil(a / b)] for integers [a], [b] with [b > 0]. *)
Definition ceil_div (a b : Z) : Z := - ((- a) / b).

End JS.

Import JS.

(** ** utils/storage.js *)

(** [chrome.storage.local] holds four named values. *)
Record LocalStorage := mkStorage {
  geminiApiKey : option jsstring;
  onboardingComplete : option bool;
  lastRequestTime : option Z;
  retryBackoff : option Z
}.

Definition emptyStorage : LocalStorage := mkStorage None None None None.

Module Storage.

(** [result.geminiApiKey || null] *)
Definition getApiKey (st : LocalStorage) : option jsstring :=
  match geminiApiKey st with
  | Some (c :: k) => Some (c :: k)
  | _ => None
  end.

(** [result.lastRequestTime || null] *)
Definition getLastRequestTime (st : LocalStorage) : option Z :=
  match lastRequestTime st with
  | Some t => if t =? 0 then None else Some t
  | None => None
  end.

Definition setLastRequestTime (timestamp : Z) (st : LocalStorage) : LocalStorage :=
  mkStorage (geminiApiKey st) (onboardingComplete st) (Some timestamp) (retryBackoff st).

(** [result.retryBackoff || 0] *)
Definition getRetryBackoff (st : LocalStorage) : Z :=
  match retryBackoff st with
  | Some d => d
  | None => 0
  end.

Definition setRetryBackoff (delay : Z) (st : LocalStorage) : LocalStorage :=
  mkStorage (geminiApiKey st) (onboardingComplete st) (lastRequestTime st) (Some delay).

Definition clearRetryBackoff (st : LocalStorage) : LocalStorage :=
  mkStorage (geminiApiKey st) (onboardingComplete st) (lastRequestTime st) None.

Definition setApiKey (key : jsstring) (st : LocalStorage) : LocalStorage :=
  mkStorage (Some key) (onboardingComplete st) (lastRequestTime st) (retryBackoff st).

Definition removeApiKey (st : LocalStorage) : LocalStorage :=
  mkStorage None (onboardingComplete st) (lastRequestTime st) (retryBackoff st).

(** [result.onboardingComplete === true] *)
Definition isOnboarded (st : LocalStorage) : bool :=
  match onboardingComplete st with
  | Some true => true
  | _ => false
  end.

Definition setOnboarded (st : LocalStorage) : LocalStorage :=
  mkStorage (geminiApiKey st) (Some true) (lastRequestTime st) (retryBackoff st).

End Storage.

(** ** Asynchronous steps against the clock

    [canMakeRequest] races its storage calls against a timer, so its model
    keeps track of how long each awaited storage call takes.  A call either
    fulfils after some milliseconds, rejects after some milliseconds, or never
    settles.  A computation carries the storage and the time spent so far. *)

Inductive Settlement :=
| Fulfils (after : N)
| Rejects (after : N)
| NeverSettles.

Inductive Outcome (A : Type) :=
| Fulfilled (elapsed : Z) (st : LocalStorage) (a : A)
| Rejected (elapsed : Z) (st : LocalStorage)
| Pending.
Arguments Fulfilled {A}.
Arguments Rejected {A}.
Arguments Pending {A}.

Definition Async (A : Type) := Z -> LocalStorage -> Outcome A.

Definition ret {A} (a : A) : Async A := fun e st => Fulfilled e st a.

Definition bind {A B} (m : Async A) (k : A -> Async B) : Async B :=
  fun e st =>
    match m e st with
    | Fulfilled e' st' a => k a e' st'
    | Rejected e' st' => Rejected e' st'
    | Pending => Pending
    end.

Notation "x <- m ;; k" := (bind m (fun x => k))
  (at level 61, m at next level, right associativity).

(** [await] of a storage call that reads. *)
Definition awaitRead {A} (how : Settlement) (read : LocalStorage -> A) : Async A :=
  fun e st =>
    match how with
    | Fulfils d => Fulfilled (e + Z.of_N d) st (read st)
    | Rejects d => Rejected (e + Z.of_N d) st
    | NeverSettles => Pending
    end.

(** [await] of a storage call that writes: the write lands when the call
    fulfils. *)
Definition awaitWrite (how : Settlement) (write : LocalStorage -> LocalStorage)
  : Async unit :=
  fun e st =>
    match how with
    | Fulfils d => Fulfilled (e + Z.of_N d) (write st) tt
    | Rejects d => Rejected (e + Z.of_N d) st
    | NeverSettles => Pending
    end.

(** [Date.now()] of a computation started at [t0]. *)
Definition Date_now (t0 : Z) : Async Z := fun e st => Fulfilled e st (t0 + e).

(** ** utils/rate-limiter.js *)

Inductive Reason := backoff | rate_limit.

(** The object [canMakeRequest] resolves with: [{ allowed: true }], the same
    with [timedOut] or [error] set, or
    [{ allowed: false, remainingMs, reason }]. *)
Inductive GateResult :=
| Allowed
| AllowedTimedOut
| AllowedOnError
| Denied (remainingMs : Z) (reason : Reason).

Definition allowed (r : GateResult) : bool :=
  match r with
  | Denied _ _ => false
  | _ => true
  end.

(** How each storage call of one gate check settles. *)
Record StorageTiming := mkTiming {
  t_getLastRequestTime : Settlement;
  t_getRetryBackoff : Settlement;
  t_clearRetryBackoff : Settlement
}.

Module RateLimiter.

Definition MIN_REQUEST_DELAY : Z := 4000.
Definition INITIAL_BACKOFF : Z := 60000.
Definition MAX_BACKOFF : Z := 300000.

(** The timer raced against the storage calls. *)
Definition CHECK_TIMEOUT : Z := 2000.

(** A [null] timestamp in arithmetic is 0. *)
Definition toNumber (t : option Z) : Z :=
  match t with
  | Some n => n
  | None => 0
  end.

Definition spacingCheck (lastRequestTime : option Z) (now : Z) : GateResult :=
  match lastRequestTime with
  | Some t =>
      let timeSinceLastRequest := now - t in
      if timeSinceLastRequest <? MIN_REQUEST_DELAY
      then Denied (MIN_REQUEST_DELAY - timeSinceLastRequest) rate_limit
      else Allowed
  | None => Allowed
  end.

(** The inner [checkPromise] of [canMakeRequest]. *)
Definition checkPromise (tm : StorageTiming) (t0 : Z) : Async GateResult :=
  lastRequestTime <- awaitRead (t_getLastRequestTime tm) Storage.getLastRequestTime ;;
  backoffDelay <- awaitRead (t_getRetryBackoff tm) Storage.getRetryBackoff ;;
  now <- Date_now t0 ;;
  if negb (backoffDelay =? 0) && (0 <? backoffDelay)
  then
    let backoffUntil := toNumber lastRequestTime + backoffDelay in
    if now <? backoffUntil
    then ret (Denied (backoffUntil - now) backoff)
    else
      _ <- awaitWrite (t_clearRetryBackoff tm) Storage.clearRetryBackoff ;;
      ret (spacingCheck lastRequestTime now)
  else ret (spacingCheck lastRequestTime now).

(** What a call to [canMakeRequest] gives back: the result, the time the
    caller waited for it, and the storage at that moment. *)
Record GateAnswer := mkAnswer {
  answer : GateResult;
  waited : Z;
  storageAfter : LocalStorage
}.

(** [canMakeRequest]: [Promise.race] of the check and a 2000 ms timer, inside
    a [try]/[catch].  The check wins when it settles before the timer fires.
    When the timer wins the check is abandoned, not cancelled: a write it has
    not finished is not in the storage the caller sees, though it may land
    later.  [storageAfter] is the storage at the moment the caller goes on;
    what is proved of two runs in a row takes a first check that settles
    before the timer. *)
Definition canMakeRequest (tm : StorageTiming) (t0 : Z) (st : LocalStorage)
  : GateAnswer :=
  match checkPromise tm t0 0 st with
  | Fulfilled e st' r =>
      if e <? CHECK_TIMEOUT then mkAnswer r e st'
      else mkAnswer AllowedTimedOut CHECK_TIMEOUT st
  | Rejected e st' =>
      if e <? CHECK_TIMEOUT then mkAnswer AllowedOnError e st'
      else mkAnswer AllowedTimedOut CHECK_TIMEOUT st
  | Pending => mkAnswer AllowedTimedOut CHECK_TIMEOUT st
  end.

(** [recordRequest], called at time [now]. *)
Definition recordRequest (now : Z) (st : LocalStorage) : LocalStorage :=
  Storage.setLastRequestTime now st.

Definition recordSuccess (st : LocalStorage) : LocalStorage :=
  Storage.clearRetryBackoff st.

(** [recordRateLimitError]: the new backoff and the storage holding it. *)
Definition recordRateLimitError (st : LocalStorage) : Z * LocalStorage :=
  let currentBackoff := Storage.getRetryBackoff st in
  let newBackoff :=
    if currentBackoff =? 0
    then INITIAL_BACKOFF
    else Z.min (currentBackoff * 2) MAX_BACKOFF in
  (newBackoff, Storage.setRetryBackoff newBackoff st).

(** When the two reads of the check have both settled, if ever. *)
Definition readsSettleAt (tm : StorageTiming) : option Z :=
  match t_getLastRequestTime tm with
  | Fulfils d1 =>
      match t_getRetryBackoff tm with
      | Fulfils d2 | Rejects d2 => Some (Z.of_N d1 + Z.of_N d2)
      | NeverSettles => None
      end
  | Rejects d1 => Some (Z.of_N d1)
  | NeverSettles => None
  end.

(** The invariant of the persisted state: a stored backoff is one of the
    four delays of the doubling schedule, a stored timestamp is a time after
    the epoch. *)
Definition RateLimitState_inv (st : LocalStorage) : Prop :=
  (forall b, retryBackoff st = Some b ->
     b = 60000 \/ b = 120000 \/ b = 240000 \/ b = 300000)
  /\ (forall t, lastRequestTime st = Some t -> 0 < t).

(** Calls that leave a stored backoff in place. *)
Inductive Call :=
| CallRecordRateLimitError
| CallRecordRequest (now : Z).

(** A sequence of such calls: the values returned by the
    [recordRateLimitError] calls, in order, and the storage left. *)
Fixpoint runCalls (calls : list Call) (st : LocalStorage) : list Z * LocalStorage :=
  match calls with
  | [] => ([], st)
  | CallRecordRateLimitError :: rest =>
      let '(b, st1) := recordRateLimitError st in
      let '(bs, st2) := runCalls rest st1 in
      (b :: bs, st2)
  | CallRecordRequest now :: rest => runCalls rest (recordRequest now st)
  end.

Fixpoint errorCalls (calls : list Call) : nat :=
  match calls with
  | [] => O
  | CallRecordRateLimitError :: rest => S (errorCalls rest)
  | CallRecordRequest _ :: rest => errorCalls rest
  end.

(** The backoff after [n] throttled calls in a row. *)
Definition schedule (n : nat) : Z :=
  Z.min (60000 * 2 ^ Z.of_nat (n - 1)) 300000.

(** The stored backoff after [k] throttled calls since it was last absent. *)
Definition backoffAfter (k : nat) (st : LocalStorage) : Prop :=
  match k with
  | O => retryBackoff st = None
  | S _ => retryBackoff st = Some (schedule k)
  end.

(** [formatTimeRemaining] *)
Definition formatTimeRemaining (ms : Z) : jsstring :=
  let seconds := ceil_div ms 1000 in
  if seconds <? 60
  then Number_toString seconds ++ lit " second"
       ++ (if seconds =? 1 then [] else lit "s")
  else
    let minutes := ceil_div seconds 60 in
    Number_toString minutes ++ lit " minute"
    ++ (if minutes =? 1 then [] else lit "s").

(** [getRemainingCooldown]: [check.allowed ? 0 : (check.remainingMs || 0)]. *)
Definition getRemainingCooldown (tm : StorageTiming) (t0 : Z) (st : LocalStorage) : Z :=
  match answer (canMakeRequest tm t0 st) with
  | Denied remainingMs _ => remainingMs
  | _ => 0
  end.

(** The calls the rest of the extension makes on the rate limiter. *)
Inductive Operation :=
| DoCanMakeRequest (tm : StorageTiming) (t0 : Z)
| DoRecordRequest (now : Z)
| DoRecordSuccess
| DoRecordRateLimitError.

Definition perform (st : LocalStorage) (op : Operation) : LocalStorage :=
  match op with
  | DoCanMakeRequest tm t0 => storageAfter (canMakeRequest tm t0 st)
  | DoRecordRequest now => recordRequest now st
  | DoRecordSuccess => recordSuccess st
  | DoRecordRateLimitError => snd (recordRateLimitError st)
  end.

Definition performAll (ops : list Operation) (st : LocalStorage) : LocalStorage :=
  fold_left perform ops st.

End RateLimiter.

(** ** Values produced by [JSON.parse] *)

(** A number is kept as the decimal it was written as,
    [mantissa * 10 ^ exponent]. *)
Inductive json :=
| JNull
| JBool (b : bool)
| JNumber (mantissa exponent : Z)
| JString (s : jsstring)
| JArray (items : list json)
| JObject (fields : list (jsstring * json)).

Module Json.

(** A decimal so small that the nearest double is zero: at most 2^-1075. *)
Definition roundsToZero (mantissa exponent : Z) : bool :=
  (mantissa =? 0)
  || ((exponent <? 0) && (Z.abs mantissa * 2 ^ 1075 <=? 10 ^ (- exponent))).

(** Truthiness, as tested by [if (v)] and [v || w]. *)
Definition truthy (v : json) : bool :=
  match v with
  | JNull => false
  | JBool b => b
  | JNumber m e => negb (roundsToZero m e)
  | JString s => match s with [] => false | _ => true end
  | JArray _ => true
  | JObject _ => true
  end.

(** Own property of an object; the keys of one object are distinct. *)
Fixpoint lookup (key : jsstring) (fields : list (jsstring * json)) : option json :=
  match fields with
  | [] => None
  | (k, v) :: r => if JS.eqb k key then Some v else lookup key r
  end.

(** [v.name] for a name that no prototype defines; [None] is [undefined].
    The caller has checked that [v] is neither [null] nor [undefined]. *)
Definition prop (name : string) (v : json) : option json :=
  match v with
  | JObject fields => lookup (lit name) fields
  | _ => None
  end.

(** [v[0]] *)
Definition first (v : json) : option json :=
  match v with
  | JArray items => hd_error items
  | JObject fields => lookup (lit "0") fields
  | JString (c :: _) => Some (JString [c])
  | _ => None
  end.

(** [a?.f]: [undefined] when [a] is [null] or [undefined]. *)
Definition optChain (a : option json) (f : json -> option json) : option json :=
  match a with
  | None => None
  | Some JNull => None
  | Some v => f v
  end.

(** Conversion to a string, as done by [+=] on a string and by [new Error].
    The conversions of values that are not strings are left to [other]. *)
Definition ToString (other : json -> jsstring) (v : json) : jsstring :=
  match v with
  | JString s => s
  | _ => other v
  end.

End Json.

(** ** [TextDecoder]: the streaming UTF-8 decoder of the platform

    The decoder of the Encoding Standard, one byte at a time.  Its state
    survives between calls of [decode(value, { stream: true })]. *)

Module TextDecoder.

Record State := mkState {
  codePoint : N;
  bytesSeen : N;
  bytesNeeded : N;
  lowerBoundary : N;
  upperBoundary : N;
  bomSeen : bool
}.

Definition fresh (bom : bool) : State := mkState 0 0 0 128 191 bom.

Definition initial : State := fresh false.

Definition REPLACEMENT : N := 65533.

(** A byte met while no sequence is open. *)
Definition lead (bom : bool) (b : N) : State * list N :=
  (if b <=? 127 then (fresh bom, [b])
   else if (194 <=? b) && (b <=? 223)
   then (mkState (N.land b 31) 0 1 128 191 bom, [])
   else if (224 <=? b) && (b <=? 239)
   then (mkState (N.land b 15) 0 2
           (if b =? 224 then 160 else 128) (if b =? 237 then 159 else 191) bom, [])
   else if (240 <=? b) && (b <=? 244)
   then (mkState (N.land b 7) 0 3
           (if b =? 240 then 144 else 128) (if b =? 244 then 143 else 191) bom, [])
   else (fresh bom, [REPLACEMENT]))%N.

(** One byte through the decoder: the new state and the code points
    emitted.  A byte that breaks an open sequence emits U+FFFD and is then
    read again as a first byte. *)
Definition handle (st : State) (b : N) : State * list N :=
  (if bytesNeeded st =? 0 then lead (bomSeen st) b
   else if (b <? lowerBoundary st) || (upperBoundary st <? b)
   then let '(st', out) := lead (bomSeen st) b in (st', REPLACEMENT :: out)
   else
     let cp := N.lor (N.shiftl (codePoint st) 6) (N.land b 63) in
     if bytesSeen st + 1 =? bytesNeeded st
     then (fresh (bomSeen st), [cp])
     else (mkState cp (bytesSeen st + 1) (bytesNeeded st) 128 191 (bomSeen st), []))%N.

(** The first code point of the stream is dropped when it is a byte order
    mark. *)
Fixpoint stripBom (st : State) (out : list N) : State * list N :=
  match out with
  | [] => (st, [])
  | c :: r =>
      if bomSeen st then (st, out)
      else
        let st' := mkState (codePoint st) (bytesSeen st) (bytesNeeded st)
                     (lowerBoundary st) (upperBoundary st) true in
        if (c =? 65279)%N then stripBom st' r else (st', out)
  end.

(** A code point as UTF-16 code units. *)
Definition utf16 (cp : N) : jsstring :=
  (if cp <? 65536 then [cp]
   else [55296 + N.shiftr (cp - 65536) 10; 56320 + N.land (cp - 65536) 1023])%N.

Definition step (st : State) (b : Byte.byte) : State * jsstring :=
  let '(st1, out) := handle st (Byte.to_N b) in
  let '(st2, out') := stripBom st1 out in
  (st2, flat_map utf16 out').

(** [decoder.decode(value, { stream: true })] *)
Fixpoint decode (st : State) (value : list Byte.byte) : State * jsstring :=
  match value with
  | [] => (st, [])
  | b :: r =>
      let '(st1, s1) := step st b in
      let '(st2, s2) := decode st1 r in
      (st2, s1 ++ s2)
  end.

(** The states the decoder can be in: none of a sequence is open, or the
    bytes seen so far leave room only for a code point of 128 or more. *)
Definition consistent (st : State) : Prop :=
  (bytesNeeded st = 0
   \/ (128 <= lowerBoundary st /\ upperBoundary st <= 191
       /\ ((bytesSeen st + 1 = bytesNeeded st /\ 2 <= codePoint st)
           \/ (bytesSeen st + 2 = bytesNeeded st
               /\ (1 <= codePoint st \/ 160 <= lowerBoundary st))
           \/ (bytesSeen st + 3 = bytesNeeded st
               /\ (1 <= codePoint st \/ 144 <= lowerBoundary st)))))%N.

End TextDecoder.

(** ** utils/gemini-api.js *)

(** What the upstream server does with one request. *)
Inductive StreamEnd :=
| EndOfStream
| ReadFails (message : jsstring).

Record Response := mkResponse {
  status : Z;
  bodyText : jsstring;              (* [response.text()], read when not ok *)
  reads : list (list Byte.byte);    (* what [reader.read()] delivers, in order *)
  ending : StreamEnd
}.

Inductive FetchOutcome :=
| FetchRejects (message : jsstring)
| FetchResolves (response : Response).

(** How a run of the generator ends. *)
Inductive Termination :=
| Returned
| Threw (message : jsstring).

Record Generated := mkGenerated {
  yields : list json;
  termination : Termination
}.

Record GeneratorRun := mkRun {
  generated : Generated;
  fetched : bool;                   (* whether [fetch] was called *)
  storageLeft : LocalStorage
}.

(** How the calls settle that the generator awaits after its gate: the
    storage write of [recordRequest], the [fetch], the read of the text of a
    response that is not ok, the storage read and write of
    [recordRateLimitError], the storage write of [recordSuccess] and the
    calls of [reader.read()].  What the fetch settles with is the
    [FetchOutcome]; [fetchSettles] tells whether it settles at all.  What the
    reads settle with are the [reads] and the [ending] of the response;
    [readsSettled] is [Some n] when only the first [n] calls of
    [reader.read()] settle and the next one stays pending, [None] when they
    all settle.  [rejection] is the message of the error that a rejected
    call throws. *)
Record Awaits := mkAwaits {
  a_setLastRequestTime : Settlement;
  fetchSettles : bool;
  a_text : Settlement;
  a_getRetryBackoff : Settlement;
  a_setRetryBackoff : Settlement;
  a_clearRetryBackoff : Settlement;
  readsSettled : option nat;
  rejection : jsstring
}.

Definition everyRead (settled : option nat) : bool :=
  match settled with
  | None => true
  | Some _ => false
  end.

Definition settles (how : Settlement) : bool :=
  match how with
  | NeverSettles => false
  | _ => true
  end.

Definition fulfils (how : Settlement) : bool :=
  match how with
  | Fulfils _ => true
  | _ => false
  end.

(** Every call of the generator settles. *)
Definition allSettle (aw : Awaits) : bool :=
  settles (a_setLastRequestTime aw) && fetchSettles aw && settles (a_text aw)
  && settles (a_getRetryBackoff aw) && settles (a_setRetryBackoff aw)
  && settles (a_clearRetryBackoff aw) && everyRead (readsSettled aw).

(** Every call of the generator fulfils. *)
Definition allFulfil (aw : Awaits) : bool :=
  fulfils (a_setLastRequestTime aw) && fetchSettles aw && fulfils (a_text aw)
  && fulfils (a_getRetryBackoff aw) && fulfils (a_setRetryBackoff aw)
  && fulfils (a_clearRetryBackoff aw) && everyRead (readsSettled aw).

(** A run of the generator: it ends, or it stays for ever at an await that
    never settles, after the texts it has [yielded] until then. *)
Inductive Run :=
| Ends (run : GeneratorRun)
| Hangs (yielded : list json) (fetched : bool) (storage : LocalStorage).

Inductive Validation :=
| Valid
| Invalid (error : jsstring).

Inductive LineResult :=
| Skipped
| Yielded (text : json)
| EndMarker.

(** A line of the body of a successful response, as the upstream writes it:
    a frame that carries a text in its envelope, or a line that is not a data
    line (the empty line after a frame, a comment, a field of another
    name). *)
Inductive BodyLine :=
| TextFrame (payload : jsstring) (envelope text : json)
| OtherLine (line : jsstring).

Definition lineSource (l : BodyLine) : jsstring :=
  match l with
  | TextFrame payload _ _ => lit "data: " ++ payload
  | OtherLine line => line
  end.

Definition lineText (l : BodyLine) : list json :=
  match l with
  | TextFrame _ _ text => [text]
  | OtherLine _ => []
  end.

Module GeminiApi.

Section WithPlatform.

(** [JSON.parse]; [None] when it throws a SyntaxError. *)
Variable JSON_parse : jsstring -> option json.

(** String conversion of values that are not strings. *)
Variable otherToString : json -> jsstring.

Definition ok (response : Response) : bool :=
  (200 <=? status response) && (status response <=? 299).

(** [json.candidates?.[0]?.content?.parts?.[0]?.text] for a [json] that is
    not [null]. *)
Definition candidateText (j : json) : option json :=
  let candidates := Json.prop "candidates" j in
  let candidate := Json.optChain candidates Json.first in
  let content := Json.optChain candidate (Json.prop "content") in
  let parts := Json.optChain content (Json.prop "parts") in
  let part := Json.optChain parts Json.first in
  Json.optChain part (Json.prop "text").

(** The body of [for (const line of lines)]. *)
Definition processLine (line : jsstring) : LineResult :=
  if startsWith line (lit "data: ")
  then
    let data := trim (slice_from 6 line) in
    if JS.eqb data (lit "[DONE]") then EndMarker
    else
      match JSON_parse data with
      | None => Skipped                       (* SyntaxError, caught *)
      | Some JNull => Skipped                 (* TypeError, caught *)
      | Some j =>
          match candidateText j with
          | Some text => if Json.truthy text then Yielded text else Skipped
          | None => Skipped
          end
      end
  else Skipped.

(** The [for] loop over the complete lines of one read: the texts yielded
    and whether the end marker stopped the generator. *)
Fixpoint forLines (lines : list jsstring) : list json * bool :=
  match lines with
  | [] => ([], false)
  | line :: rest =>
      match processLine line with
      | EndMarker => ([], true)
      | Yielded text => let '(ys, stop) := forLines rest in (text :: ys, stop)
      | Skipped => forLines rest
      end
  end.

(** The [while (true)] loop over the reads of the body. *)
Fixpoint readLoop (decoder : TextDecoder.State) (buffer : jsstring)
    (values : list (list Byte.byte)) (ending : StreamEnd) : Generated :=
  match values with
  | [] =>
      match ending with
      | EndOfStream => mkGenerated [] Returned
      | ReadFails message => mkGenerated [] (Threw message)
      end
  | value :: rest =>
      let '(decoder', text) := TextDecoder.decode decoder value in
      let lines := split 10%N (buffer ++ text) in
      let buffer' := last lines [] in
      let '(ys, stop) := forLines (removelast lines) in
      if stop then mkGenerated ys Returned
      else
        let g := readLoop decoder' buffer' rest ending in
        mkGenerated (ys ++ yields g) (termination g)
  end.

(** What makes a [BodyLine] one: the line holds no line feed; the payload
    of a frame is the JSON text of its envelope, the envelope carries the
    text and the text is not empty. *)
Definition wellFormed (l : BodyLine) : Prop :=
  Forall (fun c => c <> 10%N) (lineSource l)
  /\ match l with
     | TextFrame payload envelope text =>
         JS.eqb (trim payload) (lit "[DONE]") = false
         /\ JSON_parse (trim payload) = Some envelope
         /\ envelope <> JNull
         /\ candidateText envelope = Some text
         /\ Json.truthy text = true
     | OtherLine line => startsWith line (lit "data: ") = false
     end.

(** The loop when only the first [settled] calls of [reader.read()] settle:
    the texts yielded, and how the loop ends, [None] when it stays at the
    read that never settles. *)
Fixpoint readLoopStalling (settled : nat) (decoder : TextDecoder.State)
    (buffer : jsstring) (values : list (list Byte.byte)) (ending : StreamEnd)
  : list json * option Termination :=
  match settled with
  | O => ([], None)
  | S settled' =>
      match values with
      | [] =>
          match ending with
          | EndOfStream => ([], Some Returned)
          | ReadFails message => ([], Some (Threw message))
          end
      | value :: rest =>
          let '(decoder', text) := TextDecoder.decode decoder value in
          let lines := split 10%N (buffer ++ text) in
          let buffer' := last lines [] in
          let '(ys, stop) := forLines (removelast lines) in
          if stop then (ys, Some Returned)
          else
            let '(ys', t) := readLoopStalling settled' decoder' buffer' rest ending in
            (ys ++ ys', t)
      end
  end.

(** [parsed.error?.message || errorMsg], as the message of the error thrown. *)
Definition errorMessage (response : Response) : jsstring :=
  let errorMsg :=
    lit "API error (" ++ Number_toString (status response) ++ lit ")" in
  match JSON_parse (bodyText response) with
  | None => errorMsg
  | Some JNull => errorMsg
  | Some parsed =>
      match Json.optChain (Json.prop "error" parsed) (Json.prop "message") with
      | Some message =>
          if Json.truthy message then Json.ToString otherToString message
          else errorMsg
      | None => errorMsg
      end
  end.

Definition deniedMessage (remainingMs : Z) (reason : Reason) : jsstring :=
  let timeRemaining := RateLimiter.formatTimeRemaining remainingMs in
  let why :=
    match reason with
    | backoff => lit "Rate limit cooldown active. Please wait " ++ timeRemaining ++ lit "."
    | rate_limit =>
        lit "Too many requests. Please wait " ++ timeRemaining
        ++ lit " before trying again."
    end in
  lit "RATE_LIMITED:" ++ Number_toString remainingMs ++ lit ":" ++ why.

Definition throttledMessage (backoffMs : Z) : jsstring :=
  let timeRemaining := RateLimiter.formatTimeRemaining backoffMs in
  lit "RATE_LIMITED:" ++ Number_toString backoffMs
  ++ lit ":You've hit the API rate limit. Please wait " ++ timeRemaining
  ++ lit " and try again.".

(** The [if (!response.ok)] block: the error thrown and the storage left. *)
Definition rejectResponse (response : Response) (st : LocalStorage)
  : jsstring * LocalStorage :=
  if status response =? 400 then (lit "INVALID_KEY", st)
  else if status response =? 429
  then
    let '(backoffMs, st') := RateLimiter.recordRateLimitError st in
    (throttledMessage backoffMs, st')
  else (errorMessage response, st).

(** [streamGeminiResponse], started at time [t0], when the calls it awaits
    after its gate all fulfil ([streamGeminiResponseAwaiting] below has them
    settle in every way). *)
Definition streamGeminiResponse (tm : StorageTiming) (t0 : Z)
    (upstream : FetchOutcome) (st : LocalStorage) : GeneratorRun :=
  let rateLimitCheck := RateLimiter.canMakeRequest tm t0 st in
  match RateLimiter.answer rateLimitCheck with
  | Denied remainingMs reason =>
      mkRun (mkGenerated [] (Threw (deniedMessage remainingMs reason))) false
        (RateLimiter.storageAfter rateLimitCheck)
  | _ =>
      let st1 :=
        RateLimiter.recordRequest (t0 + RateLimiter.waited rateLimitCheck)
          (RateLimiter.storageAfter rateLimitCheck) in
      match upstream with
      | FetchRejects message => mkRun (mkGenerated [] (Threw message)) true st1
      | FetchResolves response =>
          if negb (ok response)
          then
            let '(message, st2) := rejectResponse response st1 in
            mkRun (mkGenerated [] (Threw message)) true st2
          else
            mkRun (readLoop TextDecoder.initial [] (reads response) (ending response))
              true (RateLimiter.recordSuccess st1)
      end
  end.

(** One [await] of the generator after its gate: it goes on when the call
    fulfils, throws the error of the call when it rejects, and stays there
    when the call never settles. *)
Definition awaiting (how : Settlement) (aw : Awaits) (fetched : bool)
    (st : LocalStorage) (next : Run) : Run :=
  match how with
  | Fulfils _ => next
  | Rejects _ => Ends (mkRun (mkGenerated [] (Threw (rejection aw))) fetched st)
  | NeverSettles => Hangs [] fetched st
  end.

(** [streamGeminiResponse], started at time [t0], with the calls it awaits
    after its gate settling as [aw] says.  A storage write lands when its
    call fulfils. *)
Definition streamGeminiResponseAwaiting (aw : Awaits) (tm : StorageTiming)
    (t0 : Z) (upstream : FetchOutcome) (st : LocalStorage) : Run :=
  let rateLimitCheck := RateLimiter.canMakeRequest tm t0 st in
  match RateLimiter.answer rateLimitCheck with
  | Denied remainingMs reason =>
      Ends (mkRun (mkGenerated [] (Threw (deniedMessage remainingMs reason))) false
              (RateLimiter.storageAfter rateLimitCheck))
  | _ =>
      let st0 := RateLimiter.storageAfter rateLimitCheck in
      awaiting (a_setLastRequestTime aw) aw false st0
        (let st1 :=
           RateLimiter.recordRequest (t0 + RateLimiter.waited rateLimitCheck) st0 in
         if negb (fetchSettles aw) then Hangs [] true st1
         else
           match upstream with
           | FetchRejects message =>
               Ends (mkRun (mkGenerated [] (Threw message)) true st1)
           | FetchResolves response =>
               if negb (ok response)
               then
                 awaiting (a_text aw) aw true st1
                   (if status response =? 400
                    then Ends (mkRun (mkGenerated [] (Threw (lit "INVALID_KEY")))
                                 true st1)
                    else if status response =? 429
                    then
                      awaiting (a_getRetryBackoff aw) aw true st1
                        (awaiting (a_setRetryBackoff aw) aw true st1
                           (let '(backoffMs, st2) :=
                              RateLimiter.recordRateLimitError st1 in
                            Ends (mkRun (mkGenerated []
                                           (Threw (throttledMessage backoffMs)))
                                    true st2)))
                    else Ends (mkRun (mkGenerated [] (Threw (errorMessage response)))
                                 true st1))
               else
                 awaiting (a_clearRetryBackoff aw) aw true st1
                   (let st2 := RateLimiter.recordSuccess st1 in
                    match readsSettled aw with
                    | None =>
                        Ends (mkRun (readLoop TextDecoder.initial []
                                       (reads response) (ending response))
                                true st2)
                    | Some settled =>
                        match readLoopStalling settled TextDecoder.initial []
                                (reads response) (ending response) with
                        | (ys, Some t) => Ends (mkRun (mkGenerated ys t) true st2)
                        | (ys, None) => Hangs ys true st2
                        end
                    end)
           end)
  end.

(** [validateApiKey]: the GET on the model's metadata. *)
Definition validateApiKey (res : FetchOutcome) : Validation :=
  match res with
  | FetchRejects _ => Invalid (lit "NETWORK_ERROR")
  | FetchResolves response =>
      if ok response then Valid
      else
        let detail :=
          match JSON_parse (bodyText response) with
          | None => []
          | Some JNull => []
          | Some body =>
              match Json.optChain (Json.prop "error" body) (Json.prop "message") with
              | Some message =>
                  if Json.truthy message then Json.ToString otherToString message
                  else []
              | None => []
              end
          end in
        if status response =? 429 then Invalid (lit "RATE_LIMITED")
        else if (status response =? 400) || (status response =? 403)
        then Invalid (lit "INVALID_KEY")
        else
          Invalid (match detail with
                   | [] => lit "API returned status "
                           ++ Number_toString (status response)
                   | _ => detail
                   end)
  end.

End WithPlatform.

End GeminiApi.

(** ** background.js: the streaming port *)

Inductive StreamMessage :=
| Chunk (text : json)
| Done
| Error (error : jsstring).

(** The far end of the port either stays, or goes away after a number of
    messages; [postMessage] throws from then on. *)
Inductive Port :=
| StaysConnected
| ClosesAfter (n : nat).

Definition isTerminal (msg : StreamMessage) : bool :=
  match msg with
  | Chunk _ => false
  | Done => true
  | Error _ => true
  end.

Module Background.

(** One [port.postMessage]: the port afterwards, or [None] when it throws. *)
Definition postMessage (port : Port) : option Port :=
  match port with
  | StaysConnected => Some StaysConnected
  | ClosesAfter O => None
  | ClosesAfter (S n) => Some (ClosesAfter n)
  end.

(** The [for await] loop: the messages delivered, and the port if no
    [postMessage] threw. *)
Fixpoint forAwait (port : Port) (chunks : list json)
  : list StreamMessage * option Port :=
  match chunks with
  | [] => ([], Some port)
  | chunk :: rest =>
      match postMessage port with
      | None => ([], None)
      | Some port' =>
          let '(sent, final) := forAwait port' rest in
          (Chunk chunk :: sent, final)
      end
  end.

(** The listener of [port.onMessage]: the messages that reach the other end
    for one run of the generator. *)
Definition onMessage (port : Port) (g : Generated) : list StreamMessage :=
  let '(sent, after) := forAwait port (yields g) in
  match after with
  | None => sent
  | Some port' =>
      let terminal :=
        match termination g with
        | Returned => Done
        | Threw message => Error message
        end in
      match postMessage port' with
      | Some _ => sent ++ [terminal]
      | None => sent
      end
  end.

(** The listener for a run of the generator that may stay at an await:
    what it has yielded until then is posted, and nothing after. *)
Definition listen (port : Port) (r : Run) : list StreamMessage :=
  match r with
  | Ends run => onMessage port (generated run)
  | Hangs yielded _ _ => fst (forAwait port yielded)
  end.

End Background.

(** ** content.js: the controller *)

Inductive Mode := highlights | explain | search.

Inductive SystemPrompt :=
| HIGHLIGHTS_SYSTEM_PROMPT
| EXPLAIN_SYSTEM_PROMPT
| SEARCH_SYSTEM_PROMPT.

(** What the content area of the drawer shows. *)
Inductive View :=
| Loading (text : jsstring)
| Info
| ErrorView (message : jsstring) (retryButton : bool) (countdownMs : option Z)
| Markdown (accumulated : jsstring) (cursor : bool).

(** The article handed over by [extractContent]; [content] is [None] when
    the field is missing. *)
Record Article := mkArticle {
  title : jsstring;
  content : option jsstring;
  siteName : jsstring
}.

Inductive Extraction :=
| ExtractionThrows
| Extracts (article : Article).

Record GenerationRequest := mkRequest {
  apiKey : jsstring;
  prompt : jsstring;
  systemPrompt : SystemPrompt
}.

(** What one run does to the outside, in order. *)
Inductive Step :=
| Gate (result : GateResult)
| GateFails                          (* the rate limit check threw *)
| ReadApiKey
| Extract
| Connect (request : GenerationRequest).

(** What happens on the port of a run, seen from the controller. *)
Inductive PortEvent :=
| Message (msg : StreamMessage)
| Disconnect                         (* the port closed on its own *)
| Abort.                             (* [abortController.abort()] *)

Inductive Settled :=
| Resolved
| RejectedWith (message : jsstring).

Record StreamState := mkStream {
  accumulated : jsstring;
  aborted : bool;
  settled : option Settled;
  view : View
}.

Record RunResult := mkResult {
  steps : list Step;
  finalView : View;
  finalStorage : LocalStorage
}.

(** Callbacks waiting in the timer table of the page. *)
Inductive Callback :=
| RunMode (mode : Mode)              (* the debounced [runBriefrr(newMode)] *)
| FocusSearchInput
| CountdownRun.                      (* the countdown's [runBriefrr(currentMode)] *)

Record Timer := mkTimer {
  timerId : nat;
  due : Z;
  callback : Callback
}.

(** The variables of the content script and the timers of its page.
    [started] and [abortedControllers] record, for the proofs, the runs begun
    and the controllers on which [abort()] was called. *)
Record Controller := mkController {
  currentMode : Mode;
  isStreaming : bool;
  abortController : option nat;
  debounceTimer : option nat;
  countdownInterval : option nat;
  shown : View;
  nextId : nat;
  timers : list Timer;
  started : list (Z * Mode);
  abortedControllers : list nat
}.

Module Content.

Definition nl : jsstring := [10%N].

(** [buildUserPrompt] of utils/gemini-api.js. *)
Definition buildUserPrompt (article : Article) (mode : Mode) (searchQuery : jsstring)
  : jsstring :=
  let text := match content article with Some c => c | None => lit "undefined" end in
  let head :=
    lit "**Page Title**: " ++ title article ++ nl
    ++ lit "**Site**: " ++ siteName article ++ nl ++ nl
    ++ lit "**Page Content**:" ++ nl ++ text in
  match mode with
  | search =>
      head ++ nl ++ nl ++ lit "---" ++ nl ++ nl
      ++ lit "**User Question**: " ++ searchQuery ++ nl ++ nl
      ++ lit "Please answer the user's question using ONLY the information from the page content above. If the information is not on the page, explicitly state that."
  | _ => head
  end.

(** The view left by [showError(message, showRetry, autoRetryMs)];
    [autoRetryMs] is [None] for [NaN]. *)
Definition showError (message : jsstring) (showRetry : bool) (autoRetryMs : option Z)
  : View :=
  match autoRetryMs with
  | Some ms =>
      if 0 <? ms then ErrorView message false (Some ms)
      else ErrorView message (showRetry && (ms =? 0)) None
  | None => ErrorView message false None
  end.

Section WithPlatform.

Variable otherToString : json -> jsstring.

(** *** The stream of one run *)

(** The listeners of the port and of the abort signal.  Once the promise is
    settled the port is gone and nothing more arrives. *)
Definition onPortEvent (s : StreamState) (ev : PortEvent) : StreamState :=
  match settled s with
  | Some _ => s
  | None =>
      match ev with
      | Abort => mkStream (accumulated s) true (Some Resolved) (view s)
      | Message msg =>
          if aborted s then s
          else
            match msg with
            | Chunk text =>
                let acc := accumulated s ++ Json.ToString otherToString text in
                mkStream acc (aborted s) None (Markdown acc true)
            | Done =>
                let v := match view s with
                         | Markdown acc _ => Markdown acc false
                         | other => other
                         end in
                mkStream (accumulated s) (aborted s) (Some Resolved) v
            | Error e =>
                mkStream (accumulated s) (aborted s) (Some (RejectedWith e)) (view s)
            end
      | Disconnect =>
          match aborted s, accumulated s with
          | false, [] =>
              mkStream [] false
                (Some (RejectedWith (lit "Connection to extension lost. Please try again.")))
                (view s)
          | _, _ => mkStream (accumulated s) (aborted s) (Some Resolved) (view s)
          end
      end
  end.

Definition consume (s : StreamState) (events : list PortEvent) : StreamState :=
  fold_left onPortEvent events s.

(** The parse of [RATE_LIMITED:<ms>:<message>] in the [catch] block: the
    arguments of [showError]. *)
Definition rateLimitedError (message : jsstring) : jsstring * bool * option Z :=
  let parts := split 58%N message in
  if (3 <=? List.length parts)%nat
  then
    let cooldownMs := parseInt10 (nth 1 parts []) in
    let message := join 58%N (skipn 2 parts) in
    (message, false, cooldownMs)
  else (lit "You've hit the rate limit. Please wait a moment and try again.", true, Some 0).

(** The [catch] block of [runBriefrr] for an error with this message. *)
Definition catchError (message : jsstring) : View :=
  if JS.eqb message (lit "INVALID_KEY")
  then showError (lit "Your API key seems invalid. Please check it in Settings.") true (Some 0)
  else if startsWith message (lit "RATE_LIMITED:")
  then let '(m, retry, ms) := rateLimitedError message in showError m retry ms
  else if JS.eqb message (lit "RATE_LIMITED")
  then showError (lit "You've hit the rate limit. Please wait a moment and try again.") true (Some 0)
  else if includes message (lit "Failed to fetch") || includes message (lit "NetworkError")
  then showError (lit "Couldn't connect to Gemini. Please check your internet connection.") true (Some 0)
  else showError (lit "The response was interrupted. " ++ message) true (Some 0).

(** The view once the promise of the stream has settled. *)
Definition afterStream (s : StreamState) : View :=
  match settled s with
  | Some (RejectedWith message) =>
      if aborted s then view s else catchError message
  | _ => view s
  end.

(** *** One run *)

Definition loadingText (mode : Mode) : jsstring :=
  match mode with
  | search => lit "Searching page content..."
  | highlights => lit "Generating brief..."
  | explain => lit "Generating explanation..."
  end.

Definition tooShort (article : Article) : bool :=
  match content article with
  | None => true
  | Some [] => true
  | Some c => (List.length (trim c) <? 50)%nat
  end.

(** [runBriefrr(mode)] after its rate limit check, which is the step
    [first]: from the read of the API key on. *)
Definition proceed (first : Step) (st' : LocalStorage) (mode : Mode)
    (extraction : Extraction) (searchInput : jsstring) (events : list PortEvent)
  : RunResult :=
  match Storage.getApiKey st' with
  | None =>
      mkResult [first; ReadApiKey]
        (showError (lit "Please set up your Gemini API key first. Click the Briefrr extension icon "
                    ++ [8594%N] ++ lit " Settings.") false (Some 0))
        st'
  | Some key =>
      match extraction with
      | ExtractionThrows =>
          mkResult [first; ReadApiKey; Extract]
            (showError (lit "Couldn't extract content from this page. The page might be too dynamic or empty.") false (Some 0))
            st'
      | Extracts article =>
          if tooShort article
          then
            mkResult [first; ReadApiKey; Extract]
              (showError (lit "Couldn't extract meaningful content from this page. The page might be too dynamic or empty.") false (Some 0))
              st'
          else
            let stream request :=
              let s := consume (mkStream [] false None (Loading (loadingText mode)))
                         events in
              mkResult [first; ReadApiKey; Extract; Connect request]
                (afterStream s) st' in
            match mode with
            | search =>
                match trim searchInput with
                | [] =>
                    mkResult [first; ReadApiKey; Extract]
                      (showError (lit "Please enter a search query.") false (Some 0))
                      st'
                | _ =>
                    stream (mkRequest key
                              (buildUserPrompt article search searchInput)
                              SEARCH_SYSTEM_PROMPT)
                end
            | highlights =>
                stream (mkRequest key (buildUserPrompt article highlights [])
                          HIGHLIGHTS_SYSTEM_PROMPT)
            | explain =>
                stream (mkRequest key (buildUserPrompt article explain [])
                          EXPLAIN_SYSTEM_PROMPT)
            end
      end
  end.

(** [runBriefrr(mode)] from the rate limit check on, started at time [t0]:
    the page is in [extraction], the search box holds [searchInput] and
    [events] is what then happens on the port.  [rateLimiterLoaded] tells
    whether utils/rate-limiter.js is among the scripts of the page: the
    manifest injects it, the fallback injection of the popup does not, and
    then [RateLimiter.canMakeRequest()] throws a ReferenceError, which the
    [catch] answers with [Proceeding anyway...]. *)
Definition runBriefrr (rateLimiterLoaded : bool) (tm : StorageTiming) (t0 : Z)
    (st : LocalStorage) (mode : Mode) (extraction : Extraction)
    (searchInput : jsstring) (events : list PortEvent) : RunResult :=
  if rateLimiterLoaded
  then
    let rateLimitCheck := RateLimiter.canMakeRequest tm t0 st in
    let st' := RateLimiter.storageAfter rateLimitCheck in
    match RateLimiter.answer rateLimitCheck with
    | Denied remainingMs reason =>
        let message :=
          match reason with
          | backoff => lit "Rate limit cooldown active. Too many requests were made."
          | rate_limit => lit "Please wait before making another request."
          end in
        mkResult [Gate (Denied remainingMs reason)]
          (showError message false (Some remainingMs)) st'
    | gate => proceed (Gate gate) st' mode extraction searchInput events
    end
  else proceed GateFails st mode extraction searchInput events.

End WithPlatform.

(** *** Modes, timers and cancellation *)

(** [clearTimeout(id)] and [clearInterval(id)]. *)
Definition clearTimer (id : nat) (ts : list Timer) : list Timer :=
  filter (fun t => negb (Nat.eqb (timerId t) id)) ts.

Definition clearIfSet (id : option nat) (ts : list Timer) : list Timer :=
  match id with
  | Some i => clearTimer i ts
  | None => ts
  end.

(** [switchMode(newMode)], called at time [now]. *)
Definition switchMode (now : Z) (newMode : Mode) (c : Controller) : Controller :=
  let ts := clearIfSet (debounceTimer c) (timers c) in
  match newMode with
  | search =>
      mkController newMode (isStreaming c) (abortController c) (debounceTimer c)
        (countdownInterval c) Info (S (nextId c))
        (ts ++ [mkTimer (nextId c) (now + 100) FocusSearchInput])
        (started c) (abortedControllers c)
  | _ =>
      mkController newMode (isStreaming c) (abortController c) (Some (nextId c))
        (countdownInterval c) (Loading (lit "Switching mode...")) (S (nextId c))
        (ts ++ [mkTimer (nextId c) (now + 500) (RunMode newMode)])
        (started c) (abortedControllers c)
  end.

(** The synchronous head of [runBriefrr(mode)], up to the rate limit check. *)
Definition runBriefrrStart (now : Z) (mode : Mode) (c : Controller) : Controller :=
  let ts := clearIfSet (countdownInterval c) (timers c) in
  let abortedNow :=
    match isStreaming c, abortController c with
    | true, Some a => abortedControllers c ++ [a]
    | _, _ => abortedControllers c
    end in
  mkController mode true (Some (nextId c)) (debounceTimer c) (countdownInterval c)
    (Loading (lit "Checking rate limits...")) (S (nextId c)) ts
    (started c ++ [(now, mode)]) abortedNow.

(** [closeDrawer()] *)
Definition closeDrawer (c : Controller) : Controller :=
  let abortedNow :=
    match abortController c with
    | Some a => abortedControllers c ++ [a]
    | None => abortedControllers c
    end in
  mkController (currentMode c) (isStreaming c) (abortController c) (debounceTimer c)
    (countdownInterval c) (shown c) (nextId c)
    (clearIfSet (countdownInterval c) (clearIfSet (debounceTimer c) (timers c)))
    (started c) abortedNow.

(** The content area takes a new view at time [now].  An error view with a
    countdown starts the interval of [showError]: it ticks every 100 ms and
    runs the current mode again at the first tick at or after the end. *)
Definition display (now : Z) (v : View) (c : Controller) : Controller :=
  match v with
  | ErrorView _ _ (Some ms) =>
      mkController (currentMode c) (isStreaming c) (abortController c)
        (debounceTimer c) (Some (nextId c)) v (S (nextId c))
        (timers c ++ [mkTimer (nextId c) (now + 100 * ceil_div ms 100) CountdownRun])
        (started c) (abortedControllers c)
  | _ =>
      mkController (currentMode c) (isStreaming c) (abortController c)
        (debounceTimer c) (countdownInterval c) v (nextId c) (timers c)
        (started c) (abortedControllers c)
  end.

(** A timer fires: it leaves the table and its callback runs. *)
Definition fire (t : Timer) (c : Controller) : Controller :=
  let c' :=
    mkController (currentMode c) (isStreaming c) (abortController c)
      (debounceTimer c) (countdownInterval c) (shown c) (nextId c)
      (clearTimer (timerId t) (timers c)) (started c) (abortedControllers c) in
  match callback t with
  | RunMode mode => runBriefrrStart (due t) mode c'
  | FocusSearchInput => c'
  | CountdownRun => runBriefrrStart (due t) (currentMode c') c'
  end.

(** Timers fire in the order of their due times. *)
Fixpoint insertByDue (t : Timer) (ts : list Timer) : list Timer :=
  match ts with
  | [] => [t]
  | u :: r => if due t <? due u then t :: u :: r else u :: insertByDue t r
  end.

Definition byDue (ts : list Timer) : list Timer :=
  fold_right insertByDue [] ts.

(** A timer that is still in the table when its turn comes fires. *)
Definition fireIfPending (c : Controller) (t : Timer) : Controller :=
  if existsb (fun u => Nat.eqb (timerId u) (timerId t)) (timers c)
  then fire t c else c.

(** Let the clock reach [now]: every timer due by then fires. *)
Definition advanceTo (now : Z) (c : Controller) : Controller :=
  fold_left fireIfPending (byDue (filter (fun t => due t <=? now) (timers c))) c.

(** What reaches the page from outside its timers: the user, and the runs
    in flight, whose continuations render into the content area when their
    awaits settle. *)
Inductive PageEvent :=
| Press (mode : Mode)       (* a mode button: [switchMode(mode)] *)
| Shows (v : View)          (* a run in flight renders a chunk or calls [showError] *)
| Finishes                  (* a run in flight reaches [isStreaming = false] *)
| Runs (mode : Mode)        (* [runBriefrr(mode)] from the retry button, the search
                               box or the message of the popup *)
| Closes.                   (* the close button: [closeDrawer()] *)

Definition react (now : Z) (ev : PageEvent) (c : Controller) : Controller :=
  match ev with
  | Press mode => switchMode now mode c
  | Shows v => display now v c
  | Finishes =>
      mkController (currentMode c) false (abortController c) (debounceTimer c)
        (countdownInterval c) (shown c) (nextId c) (timers c) (started c)
        (abortedControllers c)
  | Runs mode => runBriefrrStart now mode c
  | Closes => closeDrawer c
  end.

(** The page over time: the events at their times, the timers that come due
    in between, then the clock reaching [horizon]. *)
Fixpoint page (events : list (Z * PageEvent)) (horizon : Z) (c : Controller)
  : Controller :=
  match events with
  | [] => advanceTo horizon c
  | (t, ev) :: rest => page rest horizon (react t ev (advanceTo t c))
  end.

(** [str.replace(/c/g, rep)] for a pattern of one character and a
    replacement without [$]. *)
Definition replaceAll (c : char16) (rep : jsstring) (str : jsstring) : jsstring :=
  flat_map (fun x => if N.eqb x c then rep else [x]) str.

(** [escapeHtml] *)
Definition escapeHtml (str : jsstring) : jsstring :=
  replaceAll 62%N (lit "&gt;")
    (replaceAll 60%N (lit "&lt;") (replaceAll 38%N (lit "&amp;") str)).

(** The run a debounce timer starts when it fires. *)
Definition runEntry (t : Timer) : list (Z * Mode) :=
  match callback t with
  | RunMode m => [(due t, m)]
  | _ => []
  end.

(** Timer ids are handed out once. *)
Definition uniqueIds (c : Controller) : Prop :=
  NoDup (map timerId (timers c))
  /\ forall t, In t (timers c) -> (timerId t < nextId c)%nat.

(** No countdown is ticking: the id in [countdownInterval], if any, is of
    an interval that is gone. *)
Definition noCountdown (c : Controller) : Prop :=
  forall id, countdownInterval c = Some id ->
  (id < nextId c)%nat /\ forall t, In t (timers c) -> timerId t <> id.

(** At time [now] nothing waits to start a run, except perhaps the debounce
    timer of an earlier mode switch, not yet due. *)
Definition quiet (now : Z) (c : Controller) : Prop :=
  uniqueIds c /\ noCountdown c
  /\ forall t, In t (timers c) ->
       callback t = FocusSearchInput
       \/ (debounceTimer c = Some (timerId t) /\ now < due t).

(** The page after a mode button was last pressed at [tl] for mode [ml]. *)
Definition debouncing (tl : Z) (ml : Mode) (c : Controller) : Prop :=
  uniqueIds c /\ noCountdown c
  /\ (forall t, In t (timers c) ->
         callback t = FocusSearchInput
         \/ (ml <> search /\ debounceTimer c = Some (timerId t)
             /\ t = mkTimer (timerId t) (tl + 500) (RunMode ml)))
  /\ (ml <> search ->
      exists id, In (mkTimer id (tl + 500) (RunMode ml)) (timers c)).

(** Every timer that can start a run is one the page holds the id of: the
    debounce timer in [debounceTimer], the countdown in [countdownInterval]. *)
Definition tracked (c : Controller) : Prop :=
  forall t, In t (timers c) ->
    match callback t with
    | RunMode _ => debounceTimer c = Some (timerId t)
    | CountdownRun => countdownInterval c = Some (timerId t)
    | FocusSearchInput => True
    end.

(** Only timers that focus the search box wait, with ids handed out before. *)
Definition noRunPending (c : Controller) : Prop :=
  forall t, In t (timers c) ->
    callback t = FocusSearchInput /\ (timerId t < nextId c)%nat.

(** A view that starts no countdown. *)
Definition calm (v : View) : Prop :=
  match v with
  | ErrorView _ _ (Some _) => False
  | _ => True
  end.

(** From [now] to [horizon] nothing reaches the page but what runs in flight
    render, and none of them shows a countdown. *)
Fixpoint rendering (now : Z) (events : list (Z * PageEvent)) (horizon : Z) : Prop :=
  match events with
  | [] => now <= horizon
  | (t, Shows v) :: rest => now <= t /\ calm v /\ rendering t rest horizon
  | (t, Finishes) :: rest => now <= t /\ rendering t rest horizon
  | _ :: _ => False
  end.

(** A burst of presses after a press at [tl], seen from [now] to [horizon]:
    every press comes less than 500 ms after the press before; in between
    and afterwards runs in flight may render, without showing a countdown. *)
Fixpoint burst (tl now : Z) (events : list (Z * PageEvent)) (horizon : Z) : Prop :=
  match events with
  | [] => now <= horizon
  | (t, Press _) :: rest => now <= t < tl + 500 /\ burst t t rest horizon
  | (t, Shows v) :: rest => now <= t /\ calm v /\ burst tl t rest horizon
  | (t, Finishes) :: rest => now <= t /\ burst tl t rest horizon
  | _ :: _ => False
  end.

(** The last press of a burst that began with [press]. *)
Fixpoint lastPress (press : Z * Mode) (events : list (Z * PageEvent)) : Z * Mode :=
  match events with
  | [] => press
  | (t, Press m) :: rest => lastPress (t, m) rest
  | _ :: rest => lastPress press rest
  end.

(** A retry countdown is ticking, its run due at the tick of [tn], and
    nothing else waits to start a run. *)
Definition onlyCountdown (tn : Timer) (c : Controller) : Prop :=
  callback tn = CountdownRun
  /\ In tn (timers c)
  /\ (timerId tn < nextId c)%nat
  /\ debounceTimer c <> Some (timerId tn)
  /\ forall u, In u (timers c) ->
       u = tn
       \/ (callback u = FocusSearchInput /\ timerId u <> timerId tn
           /\ (timerId u < nextId c)%nat).

(** The one run a burst of presses leads to: that of its last press, 500 ms
    later, unless the last press chose the search mode. *)
Definition debouncedRun (press : Z * Mode) (horizon : Z) : list (Z * Mode) :=
  match snd press with
  | search => []
  | m => if fst press + 500 <=? horizon then [(fst press + 500, m)] else []
  end.

End Content.

(** ** utils/content-extractor.js *)

(** What [new Readability(documentClone).parse()] does: it throws, gives
    [null], or gives an article.  A field that is missing is the empty
    string. *)
Record ReadabilityArticle := mkReadable {
  readableTitle : jsstring;
  textContent : jsstring;
  readableExcerpt : jsstring;
  readableSiteName : jsstring
}.

Inductive Readability :=
| ReadabilityThrows
| ReadabilityNull
| ReadabilityArticleOf (article : ReadabilityArticle).

(** The parts of the page the extractor reads. *)
Record Page := mkPage {
  documentTitle : jsstring;
  bodyInnerText : jsstring;
  hostname : jsstring
}.

Record Extracted := mkExtracted {
  extractedTitle : jsstring;
  extractedContent : jsstring;
  extractedExcerpt : jsstring;
  extractedSiteName : jsstring;
  extractedLength : nat
}.

Module ContentExtractor.

Definition MAX_CONTENT_LENGTH : nat := 50000.

(** [a || b] on strings. *)
Definition orElse (a b : jsstring) : jsstring :=
  match a with
  | [] => b
  | _ => a
  end.

Definition fallback (page : Page) : Extracted :=
  let bodyText := bodyInnerText page in
  mkExtracted (documentTitle page) (firstn MAX_CONTENT_LENGTH bodyText) []
    (hostname page) (List.length bodyText).

(** [extractContent] *)
Definition extractContent (parsed : Readability) (page : Page) : Extracted :=
  match parsed with
  | ReadabilityArticleOf article =>
      match textContent article with
      | [] => fallback page
      | text =>
          if (100 <? List.length (trim text))%nat
          then mkExtracted (orElse (readableTitle article) (documentTitle page))
                 (firstn MAX_CONTENT_LENGTH text) (readableExcerpt article)
                 (orElse (readableSiteName article) (hostname page))
                 (List.length text)
          else fallback page
      end
  | _ => fallback page
  end.

(** The article as [runBriefrr] reads it. *)
Definition toArticle (e : Extracted) : Article :=
  mkArticle (extractedTitle e) (Some (extractedContent e)) (extractedSiteName e).

End ContentExtractor.

(** ** options.js, popup.js and onboarding.js *)

Inductive SaveStatus :=
| PleaseEnter
| KeySaved
| RateLimitHit
| NetworkProblem
| InvalidKey.

(** What the click of a save button did: the status shown, the keys sent to
    the server for validation, and the storage left. *)
Record SaveResult := mkSave {
  statusShown : SaveStatus;
  validated : list jsstring;
  storageSaved : LocalStorage
}.

Module Options.

Section WithPlatform.

Variable JSON_parse : jsstring -> option json.
Variable otherToString : json -> jsstring.

(** What the server answers to the validation of a key. *)
Variable server : jsstring -> FetchOutcome.

Definition statusOf (result : Validation) : SaveStatus :=
  match result with
  | Valid => KeySaved
  | Invalid error =>
      if JS.eqb error (lit "RATE_LIMITED") then RateLimitHit
      else if JS.eqb error (lit "NETWORK_ERROR") then NetworkProblem
      else InvalidKey
  end.

(** The click on [btn-save-key] of the options page. *)
Definition saveKey (input : jsstring) (st : LocalStorage) : SaveResult :=
  match trim input with
  | [] => mkSave PleaseEnter [] st
  | key =>
      let result := GeminiApi.validateApiKey JSON_parse otherToString (server key) in
      match result with
      | Valid => mkSave KeySaved [key] (Storage.setApiKey key st)
      | _ => mkSave (statusOf result) [key] st
      end
  end.

(** The click on [btn-verify] of the onboarding page. *)
Definition verifyKey (input : jsstring) (st : LocalStorage) : SaveResult :=
  match trim input with
  | [] => mkSave PleaseEnter [] st
  | key =>
      let result := GeminiApi.validateApiKey JSON_parse otherToString (server key) in
      match result with
      | Valid =>
          mkSave KeySaved [key] (Storage.setOnboarded (Storage.setApiKey key st))
      | _ => mkSave (statusOf result) [key] st
      end
  end.

End WithPlatform.

(** [key.slice(-4)] *)
Definition lastFour (key : jsstring) : jsstring :=
  skipn (List.length key - 4) key.

(** The text [refreshKeyDisplay] puts in [key-value]. *)
Definition keyDisplay (st : LocalStorage) : jsstring :=
  match Storage.getApiKey st with
  | Some key => repeat 8226%N 8 ++ lastFour key
  | None => lit "Not set"
  end.

(** The page title shown by the popup, for the title of the tab
    ([None] when there is no tab or it has no title). *)
Definition pageTitle (tabTitle : option jsstring) : jsstring :=
  let title :=
    match tabTitle with
    | Some (c :: r) => c :: r
    | _ => lit "Untitled Page"
    end in
  if (55 <? List.length title)%nat then firstn 52 title ++ lit "..." else title.

End Options.

(** ** Inputs for the examples *)

Module Sample.

Definition quote : jsstring := [34%N].

(** The envelope the upstream sends around one piece of text. *)
Definition envelope (text : jsstring) : json :=
  JObject [(lit "candidates",
    JArray [JObject [(lit "content",
      JObject [(lit "parts",
        JArray [JObject [(lit "text", JString text)]])])]])].

Definition envelopeHead : jsstring :=
  lit "{" ++ quote ++ lit "candidates" ++ quote ++ lit ":[{" ++ quote
  ++ lit "content" ++ quote ++ lit ":{" ++ quote ++ lit "parts" ++ quote
  ++ lit ":[{" ++ quote ++ lit "text" ++ quote ++ lit ":" ++ quote.

Definition envelopeTail : jsstring := quote ++ lit "}]}}]}".

(** The JSON text of the envelope, for a text without quotes, backslashes
    or control characters. *)
Definition envelopeSource (text : jsstring) : jsstring :=
  envelopeHead ++ text ++ envelopeTail.

Fixpoint plainPrefix (s : jsstring) : jsstring * jsstring :=
  match s with
  | [] => ([], [])
  | c :: r =>
      if ((c =? 34) || (c =? 92) || (c <? 32))%N then ([], s)
      else let '(p, rest) := plainPrefix r in (c :: p, rest)
  end.

(** [JSON.parse] cut down to the envelopes written as above: it gives what
    [JSON.parse] gives on them, and throws on everything else. *)
Definition parseEnvelope (s : jsstring) : option json :=
  if startsWith s envelopeHead
  then
    let '(text, rest) := plainPrefix (skipn (List.length envelopeHead) s) in
    if JS.eqb rest envelopeTail then Some (envelope text) else None
  else None.

Definition noOther (v : json) : jsstring := [].

(** Storage calls that settle at once. *)
Definition promptStorage : StorageTiming := mkTiming (Fulfils 0) (Fulfils 0) (Fulfils 0).

(** Calls of the generator that fulfil at once. *)
Definition promptAwaits : Awaits :=
  mkAwaits (Fulfils 0) true (Fulfils 0) (Fulfils 0) (Fulfils 0) (Fulfils 0) None
    (lit "storage error").

(** The write of [recordRequest] never settles. *)
Definition stuckAwaits : Awaits :=
  mkAwaits NeverSettles true (Fulfils 0) (Fulfils 0) (Fulfils 0) (Fulfils 0) None
    (lit "storage error").

(** The second call of [reader.read()] never settles. *)
Definition stalledAwaits : Awaits :=
  mkAwaits (Fulfils 0) true (Fulfils 0) (Fulfils 0) (Fulfils 0) (Fulfils 0) (Some 1%nat)
    (lit "storage error").

(** A frame of the event stream as the bytes of its line. *)
Definition frame (payload : string) : list Byte.byte :=
  list_byte_of_string ("data: " ++ payload) ++ [Byte.x0a].

Definition helloFrame : list Byte.byte :=
  list_byte_of_string "data: {" ++ [Byte.x22] ++ list_byte_of_string "candidates"
  ++ [Byte.x22] ++ list_byte_of_string ":[{" ++ [Byte.x22]
  ++ list_byte_of_string "content" ++ [Byte.x22] ++ list_byte_of_string ":{"
  ++ [Byte.x22] ++ list_byte_of_string "parts" ++ [Byte.x22]
  ++ list_byte_of_string ":[{" ++ [Byte.x22] ++ list_byte_of_string "text"
  ++ [Byte.x22] ++ list_byte_of_string ":" ++ [Byte.x22]
  ++ list_byte_of_string "caf" ++ [Byte.xc3; Byte.xa9] ++ [Byte.x22]
  ++ list_byte_of_string "}]}}]}" ++ [Byte.x0a].

(** The bytes of an ASCII text. *)
Definition asciiBytes (s : jsstring) : list Byte.byte :=
  map (fun c => match Byte.of_N c with Some b => b | None => Byte.x3f end) s.

(** The frame that carries one piece of ASCII text. *)
Definition textFrame (text : string) : list Byte.byte :=
  asciiBytes (lit "data: " ++ envelopeSource (lit text)) ++ [Byte.x0a].

(** One event of the stream as the upstream writes it: the data line of
    the frame and an empty line, both ended by carriage return and line
    feed. *)
Definition eventFrame (text : string) : list Byte.byte :=
  asciiBytes (lit "data: " ++ envelopeSource (lit text))
  ++ [Byte.x0d; Byte.x0a; Byte.x0d; Byte.x0a].

End Sample.

(** ** Pages and runs for the examples *)

Module Scene.

(** A brief is streaming: the run has its abort controller, text is on
    display, and no timer is waiting. *)
Definition streaming : Controller :=
  mkController highlights true (Some 0%nat) None None
    (Markdown (lit "Hello") true) 1 [] [(0, highlights)] [].

(** A retry countdown is ticking, to end at 300. *)
Definition countingDown : Controller :=
  mkController highlights false (Some 0%nat) None (Some 1%nat)
    (ErrorView (lit "Please wait before making another request.") false (Some 300))
    2 [mkTimer 1 300 CountdownRun] [] [].

(** A page at rest. *)
Definition idle : Controller :=
  mkController highlights false None None None Info 0 [] [] [].

(** A key is stored and the last request was made at 1700000000000. *)
Definition recentRequest : LocalStorage :=
  mkStorage (Some (lit "AIza-key")) (Some true) (Some 1700000000000) None.

(** A key is stored and no request was made yet. *)
Definition keyOnly : LocalStorage :=
  mkStorage (Some (lit "AIza-key")) (Some true) None None.

(** An article of 60 characters. *)
Definition article : Article :=
  mkArticle (lit "Title")
    (Some (lit "Sixty characters of text, which is enough for a run to use."))
    (lit "example.org").

(** An article of 40 characters. *)
Definition shortArticle : Article :=
  mkArticle (lit "Title") (Some (lit "Forty characters of text and no more ok.")) (lit "example.org").

End Scene.

(** * Properties *)

(** ** The rate limiter *)

Section RateLimiterFacts.

Import RateLimiter.

Lemma schedule_positive n : 60000 <= schedule n.
Proof.
  unfold schedule.
  assert (1 <= 2 ^ Z.of_nat (n - 1)) by (apply Z.pow_le_mono_r with (b := 0); lia).
  lia.
Qed.

Lemma schedule_first : schedule 1 = 60000.
Proof. reflexivity. Qed.

Lemma schedule_next n : (1 <= n)%nat -> Z.min (schedule n * 2) 300000 = schedule (S n).
Proof.
  intros Hn. unfold schedule.
  replace (Z.of_nat (S n - 1)) with (Z.succ (Z.of_nat (n - 1))) by lia.
  rewrite Z.pow_succ_r by lia.
  assert (1 <= 2 ^ Z.of_nat (n - 1)) by (apply Z.pow_le_mono_r with (b := 0); lia).
  lia.
Qed.

Lemma recordRateLimitError_step k st :
  backoffAfter k st ->
  fst (recordRateLimitError st) = schedule (S k)
  /\ backoffAfter (S k) (snd (recordRateLimitError st)).
Proof.
  intros H. unfold recordRateLimitError, Storage.getRetryBackoff. cbn [fst snd].
  destruct k as [|k]; cbn [backoffAfter] in *; rewrite H.
  - split; reflexivity.
  - pose proof (schedule_positive (S k)) as Hp.
    destruct (Z.eqb_spec (schedule (S k)) 0) as [E|_]; [lia|].
    unfold MAX_BACKOFF. rewrite schedule_next by lia. split; reflexivity.
Qed.

Lemma recordRequest_keeps_backoff k now st :
  backoffAfter k st -> backoffAfter k (recordRequest now st).
Proof. destruct k; exact (fun H => H). Qed.

Lemma runCalls_schedule calls : forall k st,
  backoffAfter k st ->
  fst (runCalls calls st)
    = map (fun i => schedule (k + i)) (seq 1 (errorCalls calls))
  /\ backoffAfter (k + errorCalls calls) (snd (runCalls calls st)).
Proof.
  induction calls as [|c calls IH]; intros k st Hk; cbn [runCalls errorCalls].
  - cbn. rewrite Nat.add_0_r. auto.
  - destruct c as [|now].
    + destruct (recordRateLimitError_step k st Hk) as [Hret Hst].
      destruct (recordRateLimitError st) as [b st1] eqn:E. cbn [fst snd] in *.
      destruct (IH (S k) st1 Hst) as [IH1 IH2].
      destruct (runCalls calls st1) as [bs st2]. cbn [fst snd] in *.
      split.
      * cbn [seq map]. rewrite Nat.add_1_r. f_equal; [exact Hret|].
        rewrite IH1, <- (seq_shift _ 1), map_map.
        apply map_ext. intros i. f_equal. lia.
      * replace (k + S (errorCalls calls))%nat with (S k + errorCalls calls)%nat by lia.
        exact IH2.
    + apply IH. apply recordRequest_keeps_backoff. exact Hk.
Qed.

(** C1. Starting with no stored backoff, after any sequence of calls that
    holds N >= 1 calls of recordRateLimitError and otherwise only calls that
    leave the backoff alone, the stored backoff and the value returned by the
    N-th recordRateLimitError call are both min(60000 * 2^(N-1), 300000). *)
Theorem backoff_after_N_errors (calls : list Call) (st : LocalStorage) (N : nat) :
  retryBackoff st = None ->
  errorCalls calls = N ->
  (1 <= N)%nat ->
  retryBackoff (snd (runCalls calls st))
    = Some (Z.min (60000 * 2 ^ Z.of_nat (N - 1)) 300000)
  /\ nth_error (fst (runCalls calls st)) (N - 1)
    = Some (Z.min (60000 * 2 ^ Z.of_nat (N - 1)) 300000).
Proof.
  intros Hnone HN Hpos.
  destruct (runCalls_schedule calls 0 st Hnone) as [Hret Hst].
  rewrite HN in *. cbn [Nat.add] in *. split.
  - destruct N as [|n]; [lia|]. exact Hst.
  - rewrite Hret.
    rewrite nth_error_map, nth_error_seq.
    destruct (Nat.ltb_spec (N - 1) N) as [_|Hge]; [|lia].
    cbn [option_map]. unfold schedule. repeat f_equal; lia.
Qed.

Lemma backoff_after_N_errors_witness :
  retryBackoff emptyStorage = None
  /\ errorCalls [CallRecordRateLimitError; CallRecordRequest 1700000000000;
                 CallRecordRateLimitError; CallRecordRateLimitError;
                 CallRecordRateLimitError] = 4%nat
  /\ (1 <= 4)%nat
  /\ retryBackoff (snd (runCalls
        [CallRecordRateLimitError; CallRecordRequest 1700000000000;
         CallRecordRateLimitError; CallRecordRateLimitError;
         CallRecordRateLimitError] emptyStorage)) = Some 300000
  /\ nth_error (fst (runCalls
        [CallRecordRateLimitError; CallRecordRequest 1700000000000;
         CallRecordRateLimitError; CallRecordRateLimitError;
         CallRecordRateLimitError] emptyStorage)) 3 = Some 300000.
Proof.
  split; [reflexivity|]. split; [reflexivity|]. split; [lia|].
  apply (backoff_after_N_errors _ emptyStorage 4); [reflexivity|reflexivity|lia].
Defined.

(** *** The gate *)

Lemma getLastRequestTime_inv st :
  RateLimitState_inv st -> Storage.getLastRequestTime st = lastRequestTime st.
Proof.
  intros [_ Ht]. unfold Storage.getLastRequestTime.
  destruct (lastRequestTime st) as [t|]; [|reflexivity].
  specialize (Ht t eq_refl). destruct (Z.eqb_spec t 0); [lia|reflexivity].
Qed.

Lemma checkPromise_fulfils d1 d2 d3 t0 st :
  checkPromise (mkTiming (Fulfils d1) (Fulfils d2) (Fulfils d3)) t0 0 st =
  let e := 0 + Z.of_N d1 + Z.of_N d2 in
  let now := t0 + e in
  let last := Storage.getLastRequestTime st in
  let b := Storage.getRetryBackoff st in
  if negb (b =? 0) && (0 <? b)
  then if now <? toNumber last + b
       then Fulfilled e st (Denied (toNumber last + b - now) backoff)
       else Fulfilled (e + Z.of_N d3) (Storage.clearRetryBackoff st)
              (spacingCheck last now)
  else Fulfilled e st (spacingCheck last now).
Proof.
  unfold checkPromise, bind, awaitRead, awaitWrite, Date_now, ret.
  cbn [t_getLastRequestTime t_getRetryBackoff t_clearRetryBackoff].
  cbv zeta.
  destruct (negb (Storage.getRetryBackoff st =? 0) && (0 <? Storage.getRetryBackoff st));
    [|reflexivity].
  destruct (_ <? _); reflexivity.
Qed.

Lemma clearRetryBackoff_absent st :
  retryBackoff st = None -> Storage.clearRetryBackoff st = st.
Proof. destruct st; cbn; intros ->; reflexivity. Qed.

(** C2. With a persisted state that satisfies its invariant and storage
    calls that settle before the timer, canMakeRequest at time now answers:
    Denied(backoff, last + delay - now) while a stored backoff window is
    open; otherwise Denied(spacing, 4000 - (now - last)) while less than
    4000 ms have passed since a stored last request; otherwise Allowed, with
    the stored backoff removed.  In particular a call at or after the end of
    the backoff window is Allowed and leaves no backoff stored.  An absent
    timestamp counts as 0 in the sum. *)
Theorem canMakeRequest_decides (st : LocalStorage) (t0 : Z) (d1 d2 d3 : N) :
  RateLimitState_inv st ->
  Z.of_N d1 + Z.of_N d2 + Z.of_N d3 < CHECK_TIMEOUT ->
  let now := t0 + Z.of_N d1 + Z.of_N d2 in
  let last := toNumber (lastRequestTime st) in
  let r := canMakeRequest (mkTiming (Fulfils d1) (Fulfils d2) (Fulfils d3)) t0 st in
  (forall b, retryBackoff st = Some b -> now < last + b ->
     answer r = Denied (last + b - now) backoff /\ storageAfter r = st)
  /\ (forall t, lastRequestTime st = Some t ->
       (forall b, retryBackoff st = Some b -> last + b <= now) ->
       now - t < 4000 ->
       answer r = Denied (4000 - (now - t)) rate_limit)
  /\ ((forall b, retryBackoff st = Some b -> last + b <= now) ->
      (forall t, lastRequestTime st = Some t -> 4000 <= now - t) ->
      answer r = Allowed /\ storageAfter r = Storage.clearRetryBackoff st)
  /\ (forall b, retryBackoff st = Some b -> last + b <= now ->
       answer r = Allowed /\ retryBackoff (storageAfter r) = None).
Proof.
  intros Hinv Hfast now last r.
  assert (Hr : r = canMakeRequest (mkTiming (Fulfils d1) (Fulfils d2) (Fulfils d3)) t0 st)
    by reflexivity.
  clearbody r. unfold canMakeRequest in Hr. rewrite checkPromise_fulfils in Hr. cbv zeta in Hr.
  rewrite (getLastRequestTime_inv st Hinv) in Hr.
  replace (t0 + (0 + Z.of_N d1 + Z.of_N d2)) with now in Hr by (unfold now; lia).
  fold last in Hr.
  pose proof (N2Z.is_nonneg d1). pose proof (N2Z.is_nonneg d2).
  pose proof (N2Z.is_nonneg d3).
  unfold CHECK_TIMEOUT in *.
  destruct Hinv as [Hb Ht].
  unfold Storage.getRetryBackoff in Hr.
  destruct (retryBackoff st) as [b|] eqn:Eb.
  - (* a backoff is stored *)
    assert (Hpos : 60000 <= b) by (destruct (Hb b eq_refl) as [?|[?|[?|?]]]; lia).
    destruct (Z.eqb_spec b 0) as [?|_]; [lia|].
    destruct (Z.ltb_spec 0 b) as [_|?]; [|lia].
    cbn [negb andb] in Hr.
    destruct (Z.ltb_spec now (last + b)) as [Hopen|Hover].
    + (* the window is open *)
      destruct (Z.ltb_spec (0 + Z.of_N d1 + Z.of_N d2) 2000) as [_|?]; [|lia].
      subst r. cbn [answer storageAfter].
      split; [|split; [|split]].
      * intros b' [= <-] _. split; reflexivity.
      * intros t _ Hexp. specialize (Hexp b eq_refl). lia.
      * intros Hexp. specialize (Hexp b eq_refl). lia.
      * intros b' [= <-] ?. lia.
    + (* the window is over *)
      destruct (Z.ltb_spec (0 + Z.of_N d1 + Z.of_N d2 + Z.of_N d3) 2000) as [_|?]; [|lia].
      assert (Hsp : spacingCheck (lastRequestTime st) now = Allowed).
      { unfold spacingCheck, MIN_REQUEST_DELAY.
        destruct (lastRequestTime st) as [t|] eqn:El; [|reflexivity].
        unfold last, toNumber in Hover.
        destruct (Z.ltb_spec (now - t) 4000); [lia|reflexivity]. }
      rewrite Hsp in Hr. subst r. cbn [answer storageAfter].
      split; [|split; [|split]].
      * intros b' [= <-] ?. lia.
      * intros t El _ Hlt. unfold last in Hover. rewrite El in Hover.
        cbn [toNumber] in Hover. lia.
      * intros _ _. split; reflexivity.
      * intros _ _ _. split; reflexivity.
  - (* no backoff is stored *)
    cbn [Z.eqb negb andb] in Hr.
    destruct (Z.ltb_spec (0 + Z.of_N d1 + Z.of_N d2) 2000) as [_|?]; [|lia].
    subst r. cbn [answer storageAfter]. unfold spacingCheck, MIN_REQUEST_DELAY.
    split; [|split; [|split]]; try discriminate.
    + intros t El _ Hlt. rewrite El.
      destruct (Z.ltb_spec (now - t) 4000); [reflexivity|lia].
    + intros _ Hfar. split.
      * destruct (lastRequestTime st) as [t|]; [|reflexivity].
        specialize (Hfar t eq_refl).
        destruct (Z.ltb_spec (now - t) 4000); [lia|reflexivity].
      * symmetry. apply clearRetryBackoff_absent. exact Eb.
Qed.

Lemma canMakeRequest_decides_witness :
  let st := mkStorage None None (Some 1700000000000) (Some 60000) in
  RateLimitState_inv st
  /\ Z.of_N 5 + Z.of_N 5 + Z.of_N 5 < CHECK_TIMEOUT
  /\ answer (canMakeRequest (mkTiming (Fulfils 5) (Fulfils 5) (Fulfils 5))
               1700000010000 st) = Denied 49990 backoff
  /\ answer (canMakeRequest (mkTiming (Fulfils 5) (Fulfils 5) (Fulfils 5))
               1700000059990 st) = Allowed.
Proof.
  intros st.
  assert (Hinv : RateLimitState_inv st).
  { split.
    - intros b [= <-]. left. reflexivity.
    - intros t [= <-]. reflexivity. }
  assert (Hfast : Z.of_N 5 + Z.of_N 5 + Z.of_N 5 < CHECK_TIMEOUT) by reflexivity.
  split; [exact Hinv|]. split; [exact Hfast|]. split.
  - destruct (canMakeRequest_decides st 1700000010000 5 5 5 Hinv Hfast) as [H _].
    apply (H 60000); reflexivity.
  - destruct (canMakeRequest_decides st 1700000059990 5 5 5 Hinv Hfast)
      as (_ & _ & _ & H).
    apply (H 60000); [reflexivity|]. cbn. lia.
Defined.

(** The invariant holds of the empty storage and every operation of the
    rate limiter keeps it. *)
Lemma RateLimitState_inv_empty : RateLimitState_inv emptyStorage.
Proof. split; discriminate. Qed.

Lemma recordRequest_inv now st :
  0 < now -> RateLimitState_inv st -> RateLimitState_inv (recordRequest now st).
Proof.
  intros Hn [Hb Ht]. split; cbn.
  - exact Hb.
  - intros t [= <-]. exact Hn.
Qed.

Lemma recordSuccess_inv st :
  RateLimitState_inv st -> RateLimitState_inv (recordSuccess st).
Proof. intros [Hb Ht]. split; cbn; [discriminate | exact Ht]. Qed.

Lemma recordRateLimitError_inv st :
  RateLimitState_inv st -> RateLimitState_inv (snd (recordRateLimitError st)).
Proof.
  intros [Hb Ht]. unfold recordRateLimitError, Storage.getRetryBackoff.
  split; cbn; [|exact Ht].
  intros b [= <-].
  destruct (retryBackoff st) as [b0|]; [|cbn; auto].
  destruct (Hb b0 eq_refl) as [ -> | [ -> | [ -> | -> ] ] ]; cbn; auto.
Qed.

Lemma canMakeRequest_storage tm t0 st :
  storageAfter (canMakeRequest tm t0 st) = st
  \/ storageAfter (canMakeRequest tm t0 st) = Storage.clearRetryBackoff st.
Proof.
  unfold canMakeRequest, checkPromise, bind, awaitRead, awaitWrite, Date_now, ret.
  destruct tm as [[d1|d1|] [d2|d2|] [d3|d3|]]; cbn;
    repeat match goal with
           | |- context [if ?c then _ else _] => destruct c; cbn
           end; auto.
Qed.

Lemma canMakeRequest_inv tm t0 st :
  RateLimitState_inv st -> RateLimitState_inv (storageAfter (canMakeRequest tm t0 st)).
Proof.
  intros H. destruct (canMakeRequest_storage tm t0 st) as [-> | ->];
    [exact H | apply (recordSuccess_inv st H)].
Qed.

(** C7. canMakeRequest never keeps its caller waiting for more than 2000 ms,
    and when the two reads of the persisted state have not both settled
    within 2000 ms (or never settle) it answers Allowed, flagged as timed
    out, at exactly 2000 ms. *)
Theorem canMakeRequest_fails_open (tm : StorageTiming) (t0 : Z) (st : LocalStorage) :
  (forall e, readsSettleAt tm = Some e -> 2000 <= e) ->
  answer (canMakeRequest tm t0 st) = AllowedTimedOut
  /\ allowed (answer (canMakeRequest tm t0 st)) = true
  /\ waited (canMakeRequest tm t0 st) = 2000
  /\ forall tm' t0' st', waited (canMakeRequest tm' t0' st') <= 2000.
Proof.
  intros Hslow.
  assert (Hbound : forall tm' t0' st', waited (canMakeRequest tm' t0' st') <= 2000).
  { intros tm' t0' st'.
    unfold canMakeRequest, checkPromise, bind, awaitRead, awaitWrite, Date_now, ret,
      CHECK_TIMEOUT.
    destruct tm' as [[d1|d1|] [d2|d2|] [d3|d3|]]; cbn;
      repeat match goal with
             | |- context [if ?a <? ?b then _ else _] =>
                 destruct (Z.ltb_spec a b); cbn
             | |- context [if ?c then _ else _] => destruct c; cbn
             end; lia. }
  assert (Hans : answer (canMakeRequest tm t0 st) = AllowedTimedOut
                 /\ waited (canMakeRequest tm t0 st) = 2000).
  { unfold canMakeRequest, checkPromise, bind, awaitRead, awaitWrite, Date_now, ret,
      CHECK_TIMEOUT.
    unfold readsSettleAt in Hslow.
    destruct tm as [[d1|d1|] [d2|d2|] [d3|d3|]];
      cbn [t_getLastRequestTime t_getRetryBackoff t_clearRetryBackoff] in *;
      try (split; reflexivity);
      try specialize (Hslow _ eq_refl);
      pose proof (N2Z.is_nonneg d1);
      try pose proof (N2Z.is_nonneg d2);
      try pose proof (N2Z.is_nonneg d3);
      repeat match goal with
             | |- context [if ?a <? ?b then _ else _] =>
                 destruct (Z.ltb_spec a b); cbn [answer waited]
             | |- context [if ?c then _ else _] => destruct c; cbn [answer waited]
             end;
      first [split; reflexivity | lia]. }
  destruct Hans as [Ha Hw]. rewrite Ha, Hw. repeat split. exact Hbound.
Qed.

Lemma canMakeRequest_fails_open_witness :
  (forall e, readsSettleAt (mkTiming (Fulfils 1500) NeverSettles (Fulfils 1)) = Some e ->
     2000 <= e)
  /\ answer (canMakeRequest (mkTiming (Fulfils 1500) NeverSettles (Fulfils 1))
               1700000010000
               (mkStorage None None (Some 1700000000000) (Some 60000)))
     = AllowedTimedOut.
Proof.
  assert (H : forall e,
             readsSettleAt (mkTiming (Fulfils 1500) NeverSettles (Fulfils 1)) = Some e ->
             2000 <= e) by (intros e; discriminate).
  split; [exact H|].
  exact (proj1 (canMakeRequest_fails_open _ 1700000010000
                  (mkStorage None None (Some 1700000000000) (Some 60000)) H)).
Defined.

End RateLimiterFacts.

(** ** Strings: pieces and lines *)

Section StringFacts.

Lemma split_nonempty sep s : split sep s <> [].
Proof.
  destruct s as [|c r]; cbn; [discriminate|].
  destruct (N.eqb c sep); [discriminate|].
  destruct (split sep r); discriminate.
Qed.

(** Splitting a text cut in two: the complete pieces of the first part,
    then the pieces of its unfinished piece followed by the second part. *)
Lemma split_app sep a b :
  split sep (a ++ b)
  = removelast (split sep a) ++ split sep (last (split sep a) [] ++ b).
Proof.
  induction a as [|c a IH]; [reflexivity|].
  cbn [app split].
  pose proof (split_nonempty sep a) as Hne.
  destruct (N.eqb c sep) eqn:Ec.
  - rewrite IH. destruct (split sep a) as [|q qs]; [contradiction|]. reflexivity.
  - rewrite IH. destruct (split sep a) as [|q qs] eqn:Ea; [contradiction|].
    destruct qs as [|q' qs].
    + cbn [removelast last app split]. rewrite Ec. reflexivity.
    + cbn [removelast last app]. reflexivity.
Qed.

Lemma complete_lines_app sep a b :
  removelast (split sep (a ++ b))
  = removelast (split sep a)
    ++ removelast (split sep (last (split sep a) [] ++ b)).
Proof.
  rewrite split_app. apply removelast_app. apply split_nonempty.
Qed.

Lemma last_app_nonempty {A} (l l' : list A) d : l' <> [] -> last (l ++ l') d = last l' d.
Proof.
  intros Hne. induction l as [|x l IH]; [reflexivity|].
  cbn [app last]. destruct (l ++ l') eqn:E.
  - destruct l; [contradiction | discriminate].
  - exact IH.
Qed.

Lemma pending_line_app sep a b :
  last (split sep (a ++ b)) []
  = last (split sep (last (split sep a) [] ++ b)) [].
Proof.
  rewrite split_app. apply last_app_nonempty. apply split_nonempty.
Qed.

(** The unfinished piece holds no separator. *)
Lemma split_last_single sep s :
  split sep (last (split sep s) []) = [last (split sep s) []].
Proof.
  induction s as [|c r IH]; [reflexivity|].
  cbn [split]. pose proof (split_nonempty sep r) as Hne.
  destruct (N.eqb c sep) eqn:Ec.
  - destruct (split sep r) as [|q qs]; [contradiction|]. exact IH.
  - destruct (split sep r) as [|q qs] eqn:Er; [contradiction|].
    destruct qs as [|q' qs].
    + cbn [last] in *. cbn [split]. rewrite Ec, IH. reflexivity.
    + exact IH.
Qed.

Lemma join_cons sep p ps : ps <> [] -> join sep (p :: ps) = p ++ sep :: join sep ps.
Proof. destruct ps; [contradiction | reflexivity]. Qed.

Lemma join_cons_first sep c q qs : join sep ((c :: q) :: qs) = c :: join sep (q :: qs).
Proof. destruct qs; reflexivity. Qed.

Lemma join_split sep s : join sep (split sep s) = s.
Proof.
  induction s as [|c r IH]; [reflexivity|].
  cbn [split]. pose proof (split_nonempty sep r) as Hne.
  destruct (N.eqb_spec c sep) as [->|Hc].
  - rewrite join_cons by exact Hne. cbn [app]. f_equal. exact IH.
  - destruct (split sep r) as [|q qs]; [contradiction|]. cbv beta iota.
    rewrite join_cons_first. f_equal. exact IH.
Qed.

(** A piece without the separator in front of a separator is the first
    piece. *)
Lemma split_first_piece sep a b :
  Forall (fun c => c <> sep) a ->
  split sep (a ++ sep :: b) = a :: split sep b.
Proof.
  induction 1 as [|c a Hc _ IH]; cbn [app split].
  - rewrite N.eqb_refl. reflexivity.
  - destruct (N.eqb_spec c sep); [contradiction|]. rewrite IH. reflexivity.
Qed.

Lemma startsWith_app p s : startsWith (p ++ s) p = true.
Proof.
  induction p as [|c p IH]; [destruct s; reflexivity|].
  cbn [app startsWith]. rewrite N.eqb_refl. exact IH.
Qed.

Lemma split_no_sep sep s : Forall (fun c => c <> sep) s -> split sep s = [s].
Proof.
  induction 1 as [|c s Hc _ IH]; [reflexivity|].
  cbn [split]. destruct (N.eqb_spec c sep); [contradiction|]. rewrite IH. reflexivity.
Qed.

Lemma split_ends_sep sep s :
  exists p ps, split sep (s ++ [sep]) = p :: ps ++ [[]].
Proof.
  induction s as [|c s (p & ps & IH)]; cbn [app split].
  - rewrite N.eqb_refl. exists [], []. reflexivity.
  - rewrite IH. destruct (N.eqb c sep).
    + exists [], (p :: ps). reflexivity.
    + exists (c :: p), ps. reflexivity.
Qed.

Lemma pending_after_sep sep s : last (split sep (s ++ [sep])) [] = [].
Proof.
  destruct (split_ends_sep sep s) as (p & ps & ->).
  rewrite app_comm_cons. apply last_last.
Qed.

End StringFacts.

(** ** The incremental decoder of the relay *)

Section DecoderFacts.

Variable JSON_parse : jsstring -> option json.

Local Abbreviation readLoop := (GeminiApi.readLoop JSON_parse).
Local Abbreviation forLines := (GeminiApi.forLines JSON_parse).
Local Abbreviation processLine := (GeminiApi.processLine JSON_parse).

(** The decoder carries its state from one call to the next: decoding two
    pieces one after the other gives the text of the whole. *)
Lemma decode_app st a b :
  TextDecoder.decode st (a ++ b)
  = let '(st1, s1) := TextDecoder.decode st a in
    let '(st2, s2) := TextDecoder.decode st1 b in
    (st2, s1 ++ s2).
Proof.
  revert st. induction a as [|x a IH]; intros st; cbn [app TextDecoder.decode].
  - destruct (TextDecoder.decode st b). reflexivity.
  - destruct (TextDecoder.step st x) as [st1 s1]. rewrite IH.
    destruct (TextDecoder.decode st1 a) as [st2 s2].
    destruct (TextDecoder.decode st2 b) as [st3 s3].
    rewrite app_assoc. reflexivity.
Qed.

Lemma forLines_app l1 l2 :
  forLines (l1 ++ l2)
  = let '(y1, stop1) := forLines l1 in
    if stop1 then (y1, true)
    else let '(y2, stop2) := forLines l2 in (y1 ++ y2, stop2).
Proof.
  induction l1 as [|line l1 IH]; cbn [app GeminiApi.forLines].
  - destruct (forLines l2). reflexivity.
  - destruct (processLine line); [exact IH | | reflexivity].
    rewrite IH. destruct (forLines l1) as [y1 [|]]; [reflexivity|].
    destruct (forLines l2). reflexivity.
Qed.

Lemma generated_eta g : mkGenerated (yields g) (termination g) = g.
Proof. destruct g; reflexivity. Qed.

(** Reading the body in pieces is reading it whole, from any state the loop
    can be in: a decoder state and a buffer that holds no line break. *)
Lemma readLoop_whole ending values : forall decoder buffer,
  split 10%N buffer = [buffer] ->
  readLoop decoder buffer values ending
  = readLoop decoder buffer [List.concat values] ending.
Proof.
  induction values as [|value rest IH]; intros decoder buffer Hbuf.
  - cbn [List.concat GeminiApi.readLoop TextDecoder.decode].
    rewrite app_nil_r, Hbuf. cbn [removelast GeminiApi.forLines last].
    destruct ending; reflexivity.
  - cbn [List.concat]. cbn [GeminiApi.readLoop].
    rewrite decode_app.
    destruct (TextDecoder.decode decoder value) as [decoder1 text1].
    rewrite (IH decoder1 (last (split 10%N (buffer ++ text1)) []))
      by apply split_last_single.
    cbn [GeminiApi.readLoop].
    destruct (TextDecoder.decode decoder1 (List.concat rest)) as [decoder2 text2].
    rewrite (app_assoc buffer text1 text2).
    rewrite (complete_lines_app 10%N (buffer ++ text1) text2), forLines_app.
    destruct (forLines (removelast (split 10%N (buffer ++ text1)))) as [y1 [|]];
      [reflexivity|].
    destruct (forLines (removelast (split 10%N
               (last (split 10%N (buffer ++ text1)) [] ++ text2)))) as [y2 [|]].
    + reflexivity.
    + cbn [yields termination]. 
      destruct ending; cbn [yields termination]; rewrite !app_nil_r; reflexivity.
Qed.

(** The same sequence of texts and the same end, however the body is cut
    into reads. *)
Lemma readLoop_partition ending values1 values2 :
  List.concat values1 = List.concat values2 ->
  readLoop TextDecoder.initial [] values1 ending
  = readLoop TextDecoder.initial [] values2 ending.
Proof.
  intros H. rewrite (readLoop_whole ending values1), (readLoop_whole ending values2), H;
    reflexivity.
Qed.

(** A frame that is not the end marker and does not parse is passed over. *)
Lemma processLine_malformed line :
  startsWith line (lit "data: ") = true ->
  JS.eqb (trim (slice_from 6 line)) (lit "[DONE]") = false ->
  JSON_parse (trim (slice_from 6 line)) = None ->
  processLine line = Skipped.
Proof.
  intros Hd Hm Hp. unfold GeminiApi.processLine. rewrite Hd, Hm, Hp. reflexivity.
Qed.

Lemma readLoop_single decoder value ending :
  readLoop decoder [] [value] ending
  = let '(ys, stop) :=
      forLines (removelast (split 10%N (snd (TextDecoder.decode decoder value)))) in
    mkGenerated ys (if stop then Returned
                    else match ending with
                         | EndOfStream => Returned
                         | ReadFails message => Threw message
                         end).
Proof.
  cbn [GeminiApi.readLoop app].
  destruct (TextDecoder.decode decoder value) as [d text]. cbn [snd].
  destruct (forLines _) as [ys [|]]; [reflexivity|].
  destruct ending; cbn [yields termination]; rewrite app_nil_r; reflexivity.
Qed.

End DecoderFacts.

Section RelayFacts.

Variable JSON_parse : jsstring -> option json.
Variable otherToString : json -> jsstring.

Local Abbreviation readLoop := (GeminiApi.readLoop JSON_parse).
Local Abbreviation forLines := (GeminiApi.forLines JSON_parse).
Local Abbreviation streamGeminiResponse :=
  (GeminiApi.streamGeminiResponse JSON_parse otherToString).


(** *** The port handler *)

Lemma forAwait_connected chunks :
  Background.forAwait StaysConnected chunks = (map Chunk chunks, Some StaysConnected).
Proof.
  induction chunks as [|c chunks IH]; [reflexivity|].
  cbn [Background.forAwait Background.postMessage map]. rewrite IH. reflexivity.
Qed.

Lemma onMessage_connected g :
  Background.onMessage StaysConnected g
  = map Chunk (yields g)
    ++ [match termination g with Returned => Done | Threw m => Error m end].
Proof.
  unfold Background.onMessage. rewrite forAwait_connected. reflexivity.
Qed.

Lemma filter_terminal_chunks chunks : filter isTerminal (map Chunk chunks) = [].
Proof. induction chunks; [reflexivity | exact IHchunks]. Qed.

(** What the controller has accumulated after a run of chunks. *)
Lemma consume_chunks texts : forall s,
  settled s = None -> aborted s = false ->
  Content.consume otherToString s (map (fun t => Message (Chunk t)) texts)
  = mkStream
      (accumulated s ++ List.concat (map (Json.ToString otherToString) texts))
      false None
      (match texts with
       | [] => view s
       | _ => Markdown (accumulated s
                        ++ List.concat (map (Json.ToString otherToString) texts)) true
       end).
Proof.
  unfold Content.consume.
  induction texts as [|t texts IH]; intros s Hs Ha; cbn [map fold_left List.concat].
  - rewrite app_nil_r. destruct s; cbn in *; subst; reflexivity.
  - unfold Content.onPortEvent at 2. rewrite Hs, Ha.
    rewrite IH by reflexivity. cbn [accumulated view].
    rewrite <- app_assoc. destruct texts; [|reflexivity].
    cbn [map List.concat]. rewrite !app_nil_r. reflexivity.
Qed.

(** When every call it awaits fulfils, the generator runs as
    [streamGeminiResponse] says. *)
Lemma streamGeminiResponseAwaiting_fulfilled aw tm t0 upstream st :
  allFulfil aw = true ->
  GeminiApi.streamGeminiResponseAwaiting JSON_parse otherToString aw tm t0 upstream st
  = Ends (streamGeminiResponse tm t0 upstream st).
Proof.
  unfold allFulfil. intros H.
  repeat (apply andb_prop in H; destruct H as [H ?]).
  unfold GeminiApi.streamGeminiResponseAwaiting, GeminiApi.streamGeminiResponse,
    GeminiApi.rejectResponse, GeminiApi.awaiting.
  destruct (a_setLastRequestTime aw); try discriminate.
  destruct (fetchSettles aw); try discriminate.
  destruct (a_text aw); try discriminate.
  destruct (a_getRetryBackoff aw); try discriminate.
  destruct (a_setRetryBackoff aw); try discriminate.
  destruct (a_clearRetryBackoff aw); try discriminate.
  destruct (readsSettled aw); try discriminate.
  cbn [negb].
  destruct (RateLimiter.answer (RateLimiter.canMakeRequest tm t0 st));
    try reflexivity;
    (destruct upstream as [m|response]; [reflexivity|]);
    (destruct (negb (GeminiApi.ok response)); [|reflexivity]);
    (destruct (status response =? 400); [reflexivity|]);
    (destruct (status response =? 429); [|reflexivity]);
    destruct (RateLimiter.recordRateLimitError _); reflexivity.
Qed.

(** When every call it awaits settles, the generator ends. *)
Lemma streamGeminiResponseAwaiting_ends aw tm t0 upstream st :
  allSettle aw = true ->
  exists run,
    GeminiApi.streamGeminiResponseAwaiting JSON_parse otherToString aw tm t0 upstream st
    = Ends run.
Proof.
  unfold allSettle. intros H.
  repeat (apply andb_prop in H; destruct H as [H ?]).
  unfold GeminiApi.streamGeminiResponseAwaiting, GeminiApi.awaiting.
  destruct (readsSettled aw); try discriminate.
  destruct (RateLimiter.answer (RateLimiter.canMakeRequest tm t0 st));
    try (eexists; reflexivity);
    (destruct (a_setLastRequestTime aw); try discriminate; [|eexists; reflexivity]);
    (destruct (fetchSettles aw); try discriminate; cbn [negb]);
    (destruct upstream as [m|response]; [eexists; reflexivity|]);
    (destruct (negb (GeminiApi.ok response));
     [destruct (a_text aw); try discriminate; [|eexists; reflexivity];
      (destruct (status response =? 400); [eexists; reflexivity|]);
      (destruct (status response =? 429); [|eexists; reflexivity]);
      (destruct (a_getRetryBackoff aw); try discriminate; [|eexists; reflexivity]);
      (destruct (a_setRetryBackoff aw); try discriminate; [|eexists; reflexivity]);
      destruct (RateLimiter.recordRateLimitError _); eexists; reflexivity
     |destruct (a_clearRetryBackoff aw); try discriminate; eexists; reflexivity]).
Qed.

(** The texts yielded before a read that never settles are the first of
    those the loop yields when every read settles; when the loop ends before
    that read it ends as if every read settled. *)
Lemma readLoopStalling_prefix settled : forall decoder buffer values ending ys t,
  GeminiApi.readLoopStalling JSON_parse settled decoder buffer values ending = (ys, t) ->
  exists more,
    yields (readLoop decoder buffer values ending) = ys ++ more
    /\ forall t', t = Some t' ->
         more = [] /\ termination (readLoop decoder buffer values ending) = t'.
Proof.
  induction settled as [|n IH]; intros decoder buffer values ending ys t H;
    cbn [GeminiApi.readLoopStalling] in H.
  - injection H as <- <-. eexists. split; [reflexivity|]. discriminate.
  - destruct values as [|value rest]; cbn [GeminiApi.readLoop].
    + exists []. destruct ending; injection H as <- <-; cbn;
        (split; [reflexivity|]); intros t' [= <-]; split; reflexivity.
    + destruct (TextDecoder.decode decoder value) as [decoder' text].
      destruct (forLines _) as [ys0 stop]. destruct stop.
      * injection H as <- <-. exists []. cbn. rewrite app_nil_r.
        split; [reflexivity|]. intros t' [= <-]. split; reflexivity.
      * destruct (GeminiApi.readLoopStalling _ n _ _ rest ending) as [ys' t0] eqn:E.
        injection H as <- <-.
        destruct (IH _ _ _ _ _ _ E) as (more & Hy & Ht).
        exists more. cbn [yields termination]. rewrite Hy, app_assoc.
        split; [reflexivity | exact Ht].
Qed.

(** The lines of a text that begins with lines ended by a line feed. *)
Lemma split_lines (lines : list BodyLine) rest :
  Forall (GeminiApi.wellFormed JSON_parse) lines ->
  split 10%N (flat_map (fun l => lineSource l ++ [10%N]) lines ++ rest)
  = map lineSource lines ++ split 10%N rest.
Proof.
  induction 1 as [|l lines [Hl _] _ IH]; [reflexivity|].
  cbn [flat_map map app]. rewrite <- !app_assoc. cbn [app].
  rewrite (split_first_piece 10%N _ _ Hl), IH. reflexivity.
Qed.

(** A line that is not a data line is passed over. *)
Lemma processLine_other line :
  startsWith line (lit "data: ") = false ->
  GeminiApi.processLine JSON_parse line = Skipped.
Proof. intros H. unfold GeminiApi.processLine. rewrite H. reflexivity. Qed.

(** The data line of the end marker. *)
Lemma processLine_marker marker :
  JS.eqb (trim marker) (lit "[DONE]") = true ->
  GeminiApi.processLine JSON_parse (lit "data: " ++ marker) = EndMarker.
Proof.
  intros H. unfold GeminiApi.processLine. rewrite startsWith_app.
  change (slice_from 6 (lit "data: " ++ marker)) with marker.
  rewrite H. reflexivity.
Qed.

(** A data line whose payload is an envelope that carries a text yields that
    text. *)
Lemma processLine_frame payload envelope text :
  JS.eqb (trim payload) (lit "[DONE]") = false ->
  JSON_parse (trim payload) = Some envelope ->
  envelope <> JNull ->
  GeminiApi.candidateText envelope = Some text ->
  Json.truthy text = true ->
  GeminiApi.processLine JSON_parse (lit "data: " ++ payload) = Yielded text.
Proof.
  intros Hm Hp Hn Hc Ht. unfold GeminiApi.processLine.
  rewrite startsWith_app.
  change (slice_from 6 (lit "data: " ++ payload)) with payload.
  rewrite Hm, Hp. destruct envelope; try contradiction; rewrite Hc, Ht; reflexivity.
Qed.

(** The loop over well-formed lines yields their texts and goes on. *)
Lemma forLines_wellFormed (lines : list BodyLine) more :
  Forall (GeminiApi.wellFormed JSON_parse) lines ->
  forLines (map lineSource lines ++ more)
  = (flat_map lineText lines ++ fst (forLines more), snd (forLines more)).
Proof.
  induction 1 as [|l lines [_ Hl] _ IH]; cbn [map flat_map app].
  - destruct (forLines more); reflexivity.
  - cbn [GeminiApi.forLines].
    destruct l as [payload envelope text|line]; cbn [lineSource lineText].
    + destruct Hl as (Hm & Hp & Hn & Hc & Ht).
      rewrite (processLine_frame payload envelope text Hm Hp Hn Hc Ht), IH.
      reflexivity.
    + rewrite (processLine_other line Hl), IH. reflexivity.
Qed.


(** *** Rejected responses *)

Lemma rejectResponse_400 body rs e st :
  GeminiApi.rejectResponse JSON_parse otherToString (mkResponse 400 body rs e) st
  = (lit "INVALID_KEY", st).
Proof. reflexivity. Qed.

Lemma rejectResponse_429 body rs e st :
  GeminiApi.rejectResponse JSON_parse otherToString (mkResponse 429 body rs e) st
  = (GeminiApi.throttledMessage (fst (RateLimiter.recordRateLimitError st)),
     snd (RateLimiter.recordRateLimitError st)).
Proof. reflexivity. Qed.

Lemma rejectResponse_other response st :
  status response <> 400 -> status response <> 429 ->
  GeminiApi.rejectResponse JSON_parse otherToString response st
  = (GeminiApi.errorMessage JSON_parse otherToString response, st).
Proof.
  intros H1 H2. unfold GeminiApi.rejectResponse.
  destruct (Z.eqb_spec (status response) 400); [contradiction|].
  destruct (Z.eqb_spec (status response) 429); [contradiction|]. reflexivity.
Qed.

(** C6 (the code at status 403). A streaming POST answered with 403 does not
    end in INVALID_KEY: the relay throws the message of the server, or
    [API error (403)] when the body carries none, the same as for any status
    other than 400 and 429, while validateApiKey answers INVALID_KEY to the
    same response. *)
Theorem stream_403_is_generic_error (body : jsstring) (rs : list (list Byte.byte))
    (e : StreamEnd) (t0 : Z) :
  let response := mkResponse 403 body rs e in
  generated (streamGeminiResponse Sample.promptStorage t0 (FetchResolves response)
               emptyStorage)
  = mkGenerated [] (Threw (GeminiApi.errorMessage JSON_parse otherToString response))
  /\ Background.onMessage StaysConnected
       (generated (GeminiApi.streamGeminiResponse Sample.parseEnvelope Sample.noOther
                     Sample.promptStorage t0
                     (FetchResolves (mkResponse 403 (lit "Forbidden") rs e))
                     emptyStorage))
     = [Error (lit "API error (403)")]
  /\ GeminiApi.validateApiKey JSON_parse otherToString (FetchResolves response)
     = Invalid (lit "INVALID_KEY").
Proof.
  intros response. split; [|split]; reflexivity.
Qed.

End RelayFacts.


(** The end marker of the protocol ends the stream: what the upstream sends
    after it is not read. *)
Example end_marker_frame_ends_stream :
  Sample.parseEnvelope (lit "[DONE]") = None
  /\ GeminiApi.readLoop Sample.parseEnvelope TextDecoder.initial []
       [Sample.frame "[DONE]" ++ Sample.helloFrame] EndOfStream
     = mkGenerated [] Returned
  /\ GeminiApi.readLoop Sample.parseEnvelope TextDecoder.initial []
       [Sample.helloFrame] EndOfStream
     = mkGenerated [JString (lit "caf" ++ [233%N])] Returned.
Proof. repeat split; vm_compute; reflexivity. Qed.

(** ** The controller: the stream of a run *)

Section StreamFacts.

Variable otherToString : json -> jsstring.

Local Abbreviation consume := (Content.consume otherToString).
Local Abbreviation onPortEvent := (Content.onPortEvent otherToString).

(** C8. While a run is streaming and has not been cancelled, the port
    closing on its own settles the run: with no text accumulated, as the
    error [Connection to extension lost], shown with a retry button; with
    some text accumulated, as a completion that keeps the text on display
    and shows no error. *)
Theorem unexpected_disconnect (texts : list json) (v0 : View) :
  let s := consume (mkStream [] false None v0)
             (map (fun t => Message (Chunk t)) texts) in
  let s' := onPortEvent s Disconnect in
  (accumulated s = [] ->
     settled s'
     = Some (RejectedWith (lit "Connection to extension lost. Please try again."))
     /\ Content.afterStream s'
        = ErrorView
            (lit "The response was interrupted. Connection to extension lost. Please try again.")
            true None)
  /\ (accumulated s <> [] ->
      settled s' = Some Resolved
      /\ accumulated s' = accumulated s
      /\ Content.afterStream s' = Markdown (accumulated s) true).
Proof.
  intros s s'. unfold s', s. clear s s'.
  rewrite consume_chunks by reflexivity. cbn [accumulated app].
  set (acc := List.concat (map (Json.ToString otherToString) texts)).
  unfold Content.onPortEvent. cbn [settled aborted accumulated view].
  split.
  - intros Hacc. rewrite Hacc. cbn [settled]. split; [reflexivity|].
    unfold Content.afterStream. cbn [settled aborted]. vm_compute. reflexivity.
  - intros Hacc. destruct acc as [|c acc'] eqn:E; [contradiction|].
    cbn [settled accumulated]. split; [reflexivity|]. split; [reflexivity|].
    unfold Content.afterStream. cbn [settled view].
    destruct texts; [discriminate E | reflexivity].
Qed.

End StreamFacts.

Lemma unexpected_disconnect_witness :
  accumulated (Content.consume Sample.noOther
                 (mkStream [] false None (Loading (lit "Generating brief...")))
                 (map (fun t => Message (Chunk t)) [JString (lit "Hello")])) <> []
  /\ Content.afterStream
       (Content.onPortEvent Sample.noOther
          (Content.consume Sample.noOther
             (mkStream [] false None (Loading (lit "Generating brief...")))
             (map (fun t => Message (Chunk t)) [JString (lit "Hello")]))
          Disconnect)
     = Markdown (lit "Hello") true.
Proof.
  assert (H : accumulated (Content.consume Sample.noOther
                 (mkStream [] false None (Loading (lit "Generating brief...")))
                 (map (fun t => Message (Chunk t)) [JString (lit "Hello")])) <> [])
    by discriminate.
  split; [exact H|].
  destruct (unexpected_disconnect Sample.noOther [JString (lit "Hello")]
              (Loading (lit "Generating brief..."))) as [_ Hsome].
  exact (proj2 (proj2 (Hsome H))).
Defined.


(** ** Numbers as text, and back *)

Section NumberFacts.

Local Open Scope N_scope.

Lemma digits_acc_S f n acc :
  digits_acc (S f) n acc
  = if n <? 10 then (48 + n mod 10) :: acc
    else digits_acc f (n / 10) ((48 + n mod 10) :: acc).
Proof. reflexivity. Qed.

Lemma digits_acc_spec fuel : forall n acc,
  n < 2 ^ N.of_nat (S fuel) ->
  exists ds,
    digits_acc (S fuel) n acc = ds ++ acc
    /\ ds <> []
    /\ Forall (fun c => isDigit c = true) ds
    /\ fold_left (fun a c => (10 * a + Z.of_N (c - 48))%Z) ds 0%Z = Z.of_N n.
Proof.
  induction fuel as [|fuel IH]; intros n acc Hn.
  - assert (Hlt : n < 10) by (change (2 ^ N.of_nat 1) with 2 in Hn; lia).
    exists [48 + n mod 10]. rewrite digits_acc_S.
    destruct (N.ltb_spec n 10); [|lia].
    rewrite N.mod_small by lia.
    split; [reflexivity|]. split; [discriminate|]. split.
    + constructor; [|constructor]. unfold isDigit.
      destruct (N.leb_spec 48 (48 + n)); [|lia].
      destruct (N.leb_spec (48 + n) 57); [reflexivity|lia].
    + cbn [fold_left]. lia.
  - rewrite digits_acc_S. destruct (N.ltb_spec n 10) as [Hlt|Hge].
    + exists [48 + n mod 10]. rewrite N.mod_small by lia.
      split; [reflexivity|]. split; [discriminate|]. split.
      * constructor; [|constructor]. unfold isDigit.
        destruct (N.leb_spec 48 (48 + n)); [|lia].
        destruct (N.leb_spec (48 + n) 57); [reflexivity|lia].
      * cbn [fold_left]. lia.
    + assert (Hdiv : n / 10 < 2 ^ N.of_nat (S fuel)).
      { replace (N.of_nat (S (S fuel))) with (N.succ (N.of_nat (S fuel))) in Hn by lia.
        rewrite N.pow_succ_r' in Hn.
        apply N.Div0.div_lt_upper_bound. lia. }
      destruct (IH (n / 10) ((48 + n mod 10) :: acc) Hdiv) as (ds & Heq & Hne & Hall & Hval).
      exists (ds ++ [48 + n mod 10]).
      split; [rewrite Heq, <- app_assoc; reflexivity|].
      split; [destruct ds; discriminate|]. split.
      * apply Forall_app. split; [exact Hall|]. constructor; [|constructor].
        assert (Hd : n mod 10 < 10) by (apply N.mod_upper_bound; discriminate).
        unfold isDigit. generalize dependent (n mod 10). intros d _ Hd.
        destruct (N.leb_spec 48 (48 + d)); [|lia].
        destruct (N.leb_spec (48 + d) 57); [reflexivity|lia].
      * rewrite fold_left_app. cbn [fold_left].
        match goal with
        | |- (10 * ?v + _)%Z = _ =>
            replace v with (Z.of_N (n / 10)) by (symmetry; exact Hval)
        end.
        pose proof (N.Div0.div_mod n 10) as Hdm.
        rewrite (N.add_comm 48), N.add_sub.
        rewrite Hdm at 3. rewrite N2Z.inj_add, N2Z.inj_mul. reflexivity.
Qed.

Lemma digits_spec n :
  digits n <> []
  /\ Forall (fun c => isDigit c = true) (digits n)
  /\ fold_left (fun a c => (10 * a + Z.of_N (c - 48))%Z) (digits n) 0%Z = Z.of_N n.
Proof.
  unfold digits.
  assert (Hn : n < 2 ^ N.of_nat (S (N.to_nat (N.log2 n)))).
  { replace (N.of_nat (S (N.to_nat (N.log2 n)))) with (N.succ (N.log2 n)) by lia.
    destruct n as [|p]; [reflexivity|].
    apply N.log2_spec. lia. }
  destruct (digits_acc_spec _ n [] Hn) as (ds & Heq & Hne & Hall & Hval).
  rewrite Heq, app_nil_r. auto.
Qed.

Lemma parseDigits_all ds : forall acc,
  Forall (fun c => isDigit c = true) ds -> ds <> [] ->
  parseDigits ds acc
  = Some (fold_left (fun a c => (10 * a + Z.of_N (c - 48))%Z) ds
            (match acc with Some a => a | None => 0%Z end)).
Proof.
  induction ds as [|c ds IH]; intros acc Hall Hne; [contradiction|].
  inversion Hall as [|? ? Hc Hds]; subst. cbn [parseDigits fold_left]. rewrite Hc.
  destruct ds as [|c' ds']; [reflexivity|].
  rewrite IH by (auto; discriminate). reflexivity.
Qed.

Lemma digit_not_space c : isDigit c = true -> isWhiteSpace c = false.
Proof.
  unfold isDigit, isWhiteSpace. intros H.
  apply andb_prop in H. destruct H as [H1 H2].
  apply N.leb_le in H1. apply N.leb_le in H2.
  repeat match goal with
         | |- context [?a <=? ?b] => destruct (N.leb_spec a b); try lia
         | |- context [?a =? ?b] => destruct (N.eqb_spec a b); try lia
         end; reflexivity.
Qed.

(** [parseInt] reads back what [String] wrote. *)
Lemma parseInt10_toString (n : Z) : (0 <= n)%Z -> parseInt10 (Number_toString n) = Some n.
Proof.
  intros Hn. unfold Number_toString.
  destruct (Z.ltb_spec n 0); [lia|].
  destruct (digits_spec (Z.to_N n)) as (Hne & Hall & Hval).
  unfold parseInt10.
  destruct (digits (Z.to_N n)) as [|c ds] eqn:E; [contradiction|].
  pose proof Hall as Hall'. inversion Hall' as [|? ? Hc Hds]; subst.
  cbn [trimStart]. rewrite (digit_not_space c Hc).
  assert (Hr : 48 <= c <= 57).
  { unfold isDigit in Hc. apply andb_prop in Hc. destruct Hc as [H1 H2].
    apply N.leb_le in H1. apply N.leb_le in H2. lia. }
  destruct (N.eqb_spec c 45); [lia|]. destruct (N.eqb_spec c 43); [lia|].
  rewrite parseDigits_all by (auto; discriminate).
  rewrite Hval. f_equal. lia.
Qed.

Lemma digits_no_colon n : Forall (fun c => c <> 58) (digits n).
Proof.
  destruct (digits_spec n) as (_ & Hall & _).
  eapply Forall_impl; [|exact Hall].
  intros c Hc. unfold isDigit in Hc. apply andb_prop in Hc. destruct Hc as [_ H2].
  apply N.leb_le in H2. lia.
Qed.

End NumberFacts.

(** ** The throttle error across the port *)

Section ThrottleFacts.

(** C10. For every delay ms >= 0 and every message, also one that holds
    colons, the controller reads RATE_LIMITED:<ms>:<message> back as the
    cooldown ms and the message unchanged, and shows the message with a
    countdown of ms; the two errors the relay writes have this form. *)
Theorem rate_limited_roundtrip (ms : Z) (message : jsstring) :
  0 <= ms ->
  let encoded := lit "RATE_LIMITED:" ++ Number_toString ms ++ lit ":" ++ message in
  startsWith encoded (lit "RATE_LIMITED:") = true
  /\ Content.rateLimitedError encoded = (message, false, Some ms)
  /\ Content.catchError encoded = Content.showError message false (Some ms)
  /\ (forall reason, exists why,
        GeminiApi.deniedMessage ms reason
        = lit "RATE_LIMITED:" ++ Number_toString ms ++ lit ":" ++ why)
  /\ (exists why,
        GeminiApi.throttledMessage ms
        = lit "RATE_LIMITED:" ++ Number_toString ms ++ lit ":" ++ why).
Proof.
  intros Hms encoded.
  assert (Hstart : startsWith encoded (lit "RATE_LIMITED:") = true)
    by apply startsWith_app.
  assert (Hparts : split 58%N encoded
                   = lit "RATE_LIMITED" :: Number_toString ms :: split 58%N message).
  { unfold encoded.
    change (lit "RATE_LIMITED:" ++ Number_toString ms ++ lit ":" ++ message)
      with (lit "RATE_LIMITED" ++ 58%N :: (Number_toString ms ++ 58%N :: message)).
    rewrite split_first_piece
      by (repeat constructor; discriminate).
    rewrite split_first_piece; [reflexivity|].
    unfold Number_toString. destruct (Z.ltb_spec ms 0); [lia|].
    apply digits_no_colon. }
  assert (Hparse : Content.rateLimitedError encoded = (message, false, Some ms)).
  { unfold Content.rateLimitedError. rewrite Hparts.
    pose proof (split_nonempty 58%N message) as Hne.
    destruct (split 58%N message) as [|p ps] eqn:Es; [contradiction|].
    cbn [List.length Nat.leb nth skipn].
    rewrite parseInt10_toString by exact Hms.
    rewrite <- Es, join_split. reflexivity. }
  split; [exact Hstart|]. split; [exact Hparse|]. split; [|split].
  - unfold Content.catchError.
    replace (JS.eqb encoded (lit "INVALID_KEY")) with false by reflexivity.
    rewrite Hstart, Hparse. reflexivity.
  - intros reason. unfold GeminiApi.deniedMessage. eexists. reflexivity.
  - unfold GeminiApi.throttledMessage.
    exists (lit "You've hit the API rate limit. Please wait "
            ++ RateLimiter.formatTimeRemaining ms ++ lit " and try again.").
    reflexivity.
Qed.

Lemma rate_limited_roundtrip_witness :
  0 <= 60000
  /\ Content.rateLimitedError
       (lit "RATE_LIMITED:" ++ Number_toString 60000 ++ lit ":"
        ++ lit "Retry at 12:30: quota reached")
     = (lit "Retry at 12:30: quota reached", false, Some 60000).
Proof.
  assert (H : 0 <= 60000) by lia.
  split; [exact H|].
  exact (proj1 (proj2 (rate_limited_roundtrip 60000
                         (lit "Retry at 12:30: quota reached") H))).
Defined.

End ThrottleFacts.

(** ** The controller: one run *)

Section RunFacts.

Variable otherToString : json -> jsstring.

Local Abbreviation runBriefrr := (Content.runBriefrr otherToString).

(** A list of steps that holds no [Connect]. *)
Ltac no_connect H :=
  solve [cbn [steps In] in H;
         repeat (destruct H as [H|H]; try discriminate); contradiction].

Lemma spacingCheck_denied last now ms reason :
  RateLimiter.spacingCheck last now = Denied ms reason -> 0 < ms.
Proof.
  unfold RateLimiter.spacingCheck, RateLimiter.MIN_REQUEST_DELAY.
  destruct last as [t|]; [|discriminate]. cbv zeta.
  destruct (Z.ltb_spec (now - t) 4000); [|discriminate].
  intros Heq. assert (ms = 4000 - (now - t)) by congruence. lia.
Qed.

(** A denial always carries a positive wait. *)
Lemma canMakeRequest_denied_positive tm t0 st ms reason :
  RateLimiter.answer (RateLimiter.canMakeRequest tm t0 st) = Denied ms reason -> 0 < ms.
Proof.
  unfold RateLimiter.canMakeRequest, RateLimiter.checkPromise, bind, awaitRead,
    awaitWrite, Date_now, ret.
  destruct tm as [[d1|d1|] [d2|d2|] [d3|d3|]];
    cbn [t_getLastRequestTime t_getRetryBackoff t_clearRetryBackoff];
    try discriminate;
    repeat match goal with
           | |- context [if ?a <? ?b then _ else _] =>
               destruct (Z.ltb_spec a b); cbn [RateLimiter.answer]
           | |- context [if ?c then _ else _] => destruct c; cbn [RateLimiter.answer]
           end;
    try discriminate;
    try apply spacingCheck_denied;
    intros Heq;
    match type of Heq with
    | Denied ?x _ = _ => assert (ms = x) by congruence
    end; lia.
Qed.

Lemma getApiKey_after_gate tm t0 st :
  Storage.getApiKey (RateLimiter.storageAfter (RateLimiter.canMakeRequest tm t0 st))
  = Storage.getApiKey st.
Proof.
  destruct (canMakeRequest_storage tm t0 st) as [ -> | -> ]; reflexivity.
Qed.


End RunFacts.

(** ** The controller: modes and timers *)

Section TimerFacts.

Import Content.

Lemma In_clearTimer id ts u :
  In u (clearTimer id ts) <-> In u ts /\ timerId u <> id.
Proof.
  unfold clearTimer. rewrite filter_In.
  destruct (Nat.eqb_spec (timerId u) id); cbn; intuition congruence.
Qed.

Lemma clearTimer_absent id ts :
  (forall t, In t ts -> timerId t <> id) -> clearTimer id ts = ts.
Proof.
  induction ts as [|t ts IH]; intros H; [reflexivity|].
  cbn. destruct (Nat.eqb_spec (timerId t) id) as [E|_].
  - exfalso. exact (H t (or_introl eq_refl) E).
  - cbn. f_equal. apply IH. intros u Hu. apply H. right. exact Hu.
Qed.

Lemma NoDup_ids_filter (f : Timer -> bool) ts :
  NoDup (map timerId ts) -> NoDup (map timerId (filter f ts)).
Proof.
  induction ts as [|t ts IH]; intros H; [constructor|].
  cbn in *. inversion H as [|? ? Hnot Hrest]; subst.
  destruct (f t); [|auto]. cbn. constructor; [|auto].
  intros Hin. apply Hnot. apply in_map_iff in Hin.
  destruct Hin as (u & Hid & Hu). apply filter_In in Hu.
  apply in_map_iff. exists u. tauto.
Qed.

(** Two timers of one table with the same id are the same timer. *)
Lemma same_id_same_timer ts t u :
  NoDup (map timerId ts) -> In t ts -> In u ts -> timerId t = timerId u -> t = u.
Proof.
  induction ts as [|x ts IH]; intros Hnd Ht Hu Hid; [contradiction|].
  cbn in Hnd. inversion Hnd as [|? ? Hnot Hrest]; subst.
  destruct Ht as [<-|Ht], Hu as [<-|Hu]; auto.
  - exfalso. apply Hnot. rewrite Hid. apply in_map. exact Hu.
  - exfalso. apply Hnot. rewrite <- Hid. apply in_map. exact Ht.
Qed.

Lemma existsb_pending ts t :
  In t ts -> existsb (fun u => Nat.eqb (timerId u) (timerId t)) ts = true.
Proof.
  intros H. apply existsb_exists. exists t. split; [exact H | apply Nat.eqb_refl].
Qed.

Lemma insertByDue_perm t ts : Permutation (insertByDue t ts) (t :: ts).
Proof.
  induction ts as [|u ts IH]; cbn; [reflexivity|].
  destruct (due t <? due u); [reflexivity|].
  rewrite IH. apply perm_swap.
Qed.

Lemma byDue_perm ts : Permutation (byDue ts) ts.
Proof.
  induction ts as [|t ts IH]; cbn; [reflexivity|].
  rewrite insertByDue_perm. constructor. exact IH.
Qed.

(** What the firing of one pending timer changes, when no countdown is
    ticking. *)
Lemma fire_pending t c :
  In t (timers c) -> noCountdown c -> callback t <> CountdownRun ->
  let c' := fireIfPending c t in
  started c' = started c ++ runEntry t
  /\ timers c' = clearTimer (timerId t) (timers c)
  /\ debounceTimer c' = debounceTimer c
  /\ countdownInterval c' = countdownInterval c
  /\ (nextId c <= nextId c')%nat.
Proof.
  intros Hin Hnc Hcb. unfold fireIfPending. rewrite (existsb_pending _ _ Hin).
  unfold fire, runEntry. destruct (callback t) as [m| |]; [| |contradiction].
  - cbn. repeat split; [|lia].
    unfold clearIfSet. destruct (countdownInterval c) as [id|] eqn:E; [|reflexivity].
    apply clearTimer_absent. intros u Hu. apply In_clearTimer in Hu.
    apply (proj2 (Hnc id E)). tauto.
  - cbn. rewrite app_nil_r. repeat split. lia.
Qed.

(** A batch of pending timers fires. *)
Lemma fire_batch batch : forall c,
  NoDup (map timerId batch) ->
  incl batch (timers c) ->
  NoDup (map timerId (timers c)) ->
  noCountdown c ->
  (forall t, In t batch -> callback t <> CountdownRun) ->
  let c' := fold_left fireIfPending batch c in
  started c' = started c ++ flat_map runEntry batch
  /\ (forall u, In u (timers c')
                <-> In u (timers c) /\ ~ In (timerId u) (map timerId batch))
  /\ NoDup (map timerId (timers c'))
  /\ debounceTimer c' = debounceTimer c
  /\ countdownInterval c' = countdownInterval c
  /\ (nextId c <= nextId c')%nat.
Proof.
  induction batch as [|t batch IH]; intros c Hnd Hincl Hndc Hnc Hcb; cbn [fold_left].
  - cbn. rewrite app_nil_r. repeat split; auto; tauto.
  - cbn [map] in Hnd. inversion Hnd as [|? ? Hnot Hrest]; subst.
    assert (Ht : In t (timers c)) by (apply Hincl; left; reflexivity).
    destruct (fire_pending t c Ht Hnc (Hcb t (or_introl eq_refl)))
      as (Hs & Hts & Hd & Hcd & Hn).
    set (c1 := fireIfPending c t) in *.
    assert (Hnc1 : noCountdown c1).
    { intros id Hid. rewrite Hcd in Hid. destruct (Hnc id Hid) as [Hlt Hno].
      split; [lia|]. intros u Hu. rewrite Hts in Hu. apply In_clearTimer in Hu.
      apply Hno. tauto. }
    assert (Hincl1 : incl batch (timers c1)).
    { intros u Hu. rewrite Hts. apply In_clearTimer. split.
      - apply Hincl. right. exact Hu.
      - intros E. apply Hnot. rewrite <- E. apply in_map. exact Hu. }
    assert (Hndc1 : NoDup (map timerId (timers c1))).
    { rewrite Hts. apply NoDup_ids_filter. exact Hndc. }
    destruct (IH c1 Hrest Hincl1 Hndc1 Hnc1
                (fun u Hu => Hcb u (or_intror Hu)))
      as (Hs' & Hts' & Hnd' & Hd' & Hcd' & Hn').
    split; [|split; [|split; [|split; [|split]]]].
    + rewrite Hs', Hs, <- app_assoc. reflexivity.
    + intros u. rewrite Hts', Hts, In_clearTimer. cbn [map In].
      intuition congruence.
    + exact Hnd'.
    + congruence.
    + congruence.
    + lia.
Qed.

(** The clock reaches [now] on a page where no countdown is ticking. *)
Lemma advanceTo_spec now c :
  NoDup (map timerId (timers c)) ->
  noCountdown c ->
  (forall t, In t (timers c) -> due t <= now -> callback t <> CountdownRun) ->
  let c' := advanceTo now c in
  started c'
  = started c ++ flat_map runEntry (byDue (filter (fun t => due t <=? now) (timers c)))
  /\ (forall u, In u (timers c') <-> In u (timers c) /\ now < due u)
  /\ NoDup (map timerId (timers c'))
  /\ debounceTimer c' = debounceTimer c
  /\ countdownInterval c' = countdownInterval c
  /\ (nextId c <= nextId c')%nat.
Proof.
  intros Hnd Hnc Hcb. unfold advanceTo.
  set (dueNow := filter (fun t => due t <=? now) (timers c)).
  assert (Hin : forall t, In t (byDue dueNow) <-> In t (timers c) /\ due t <= now).
  { intros t. split.
    - intros H. apply (Permutation_in _ (byDue_perm dueNow)) in H.
      apply filter_In in H. rewrite Z.leb_le in H. exact H.
    - intros H. apply (Permutation_in _ (Permutation_sym (byDue_perm dueNow))).
      apply filter_In. rewrite Z.leb_le. exact H. }
  assert (Hndb : NoDup (map timerId (byDue dueNow))).
  { apply (Permutation_NoDup (Permutation_map timerId
                                (Permutation_sym (byDue_perm dueNow)))).
    apply NoDup_ids_filter. exact Hnd. }
  destruct (fire_batch (byDue dueNow) c Hndb) as (Hs & Hts & Hnd' & Hd & Hcd & Hn).
  - intros t Ht. apply Hin in Ht. tauto.
  - exact Hnd.
  - exact Hnc.
  - intros t Ht. apply Hin in Ht. apply Hcb; tauto.
  - split; [exact Hs|]. split; [|auto].
    intros u. rewrite Hts. split.
    + intros [Hu Hnot]. split; [exact Hu|].
      destruct (Z.lt_ge_cases now (due u)) as [?|Hle]; [assumption|].
      exfalso. apply Hnot. apply in_map. apply Hin. split; [exact Hu | lia].
    + intros [Hu Hlt]. split; [exact Hu|].
      intros Hid. apply in_map_iff in Hid. destruct Hid as (t & Hid & Ht).
      apply Hin in Ht. destruct Ht as [Ht Hdue].
      assert (t = u) by (apply (same_id_same_timer (timers c)); auto).
      subst t. lia.
Qed.

Lemma flat_map_runEntry_none batch :
  (forall t, In t batch -> callback t = FocusSearchInput) ->
  flat_map runEntry batch = [].
Proof.
  induction batch as [|t batch IH]; intros H; [reflexivity|].
  cbn [flat_map]. unfold runEntry at 1. rewrite (H t (or_introl eq_refl)).
  apply IH. intros u Hu. apply H. right. exact Hu.
Qed.

Lemma flat_map_runEntry_one batch r :
  NoDup (map timerId batch) -> In r batch ->
  (forall t, In t batch -> callback t = FocusSearchInput \/ t = r) ->
  flat_map runEntry batch = runEntry r.
Proof.
  induction batch as [|t batch IH]; intros Hnd Hr Hall; [contradiction|].
  cbn [map] in Hnd. inversion Hnd as [|? ? Hnot Hrest]; subst.
  cbn [flat_map]. destruct Hr as [ -> | Hr ].
  - rewrite flat_map_runEntry_none; [apply app_nil_r|].
    intros u Hu. destruct (Hall u (or_intror Hu)) as [ ? | -> ]; [assumption|].
    exfalso. apply Hnot. apply in_map. exact Hu.
  - destruct (Hall t (or_introl eq_refl)) as [ Hf | -> ].
    + unfold runEntry at 1. rewrite Hf. cbn [app].
      apply IH; auto. intros u Hu. apply Hall. right. exact Hu.
    + exfalso. apply Hnot. apply in_map. exact Hr.
Qed.

(** Time passes inside a burst of presses: nothing that starts a run is due. *)
Lemma advanceTo_debouncing tl ml t c :
  debouncing tl ml c -> t < tl + 500 ->
  debouncing tl ml (advanceTo t c) /\ started (advanceTo t c) = started c.
Proof.
  intros ((Hnd & Hlt) & Hnc & Hall & Hrun) Ht.
  assert (Hdue : forall u, In u (timers c) -> due u <= t ->
                 callback u = FocusSearchInput).
  { intros u Hu Hd. destruct (Hall u Hu) as [?|(_ & _ & E)]; [assumption|].
    rewrite E in Hd. cbn in Hd. lia. }
  destruct (advanceTo_spec t c Hnd Hnc) as (Hs & Hts & Hnd' & Hd & Hcd & Hn).
  { intros u Hu Hd. rewrite (Hdue u Hu Hd). discriminate. }
  split.
  - split; [|split; [|split]].
    + split; [exact Hnd'|]. intros u Hu. apply Hts in Hu.
      specialize (Hlt u (proj1 Hu)). lia.
    + intros id Hid. rewrite Hcd in Hid. destruct (Hnc id Hid) as [Hl Hno].
      split; [lia|]. intros u Hu. apply Hts in Hu. apply Hno. tauto.
    + intros u Hu. apply Hts in Hu. rewrite Hd. apply Hall. tauto.
    + intros Hm. destruct (Hrun Hm) as [id Hid]. exists id.
      apply Hts. split; [exact Hid|]. cbn. lia.
  - rewrite Hs, flat_map_runEntry_none; [apply app_nil_r|].
    intros u Hu. apply (Permutation_in _ (byDue_perm _)) in Hu.
    apply filter_In in Hu. rewrite Z.leb_le in Hu. apply Hdue; tauto.
Qed.

(** The first press finds the page quiet. *)
Lemma advanceTo_quiet now c :
  quiet now c ->
  quiet now (advanceTo now c) /\ started (advanceTo now c) = started c.
Proof.
  intros ((Hnd & Hlt) & Hnc & Hall).
  assert (Hdue : forall u, In u (timers c) -> due u <= now ->
                 callback u = FocusSearchInput).
  { intros u Hu Hd. destruct (Hall u Hu) as [?|[_ ?]]; [assumption|lia]. }
  destruct (advanceTo_spec now c Hnd Hnc) as (Hs & Hts & Hnd' & Hd & Hcd & Hn).
  { intros u Hu Hd. rewrite (Hdue u Hu Hd). discriminate. }
  split.
  - split; [|split].
    + split; [exact Hnd'|]. intros u Hu. apply Hts in Hu.
      specialize (Hlt u (proj1 Hu)). lia.
    + intros id Hid. rewrite Hcd in Hid. destruct (Hnc id Hid) as [Hl Hno].
      split; [lia|]. intros u Hu. apply Hts in Hu. apply Hno. tauto.
    + intros u Hu. apply Hts in Hu. rewrite Hd. apply Hall. tauto.
  - rewrite Hs, flat_map_runEntry_none; [apply app_nil_r|].
    intros u Hu. apply (Permutation_in _ (byDue_perm _)) in Hu.
    apply filter_In in Hu. rewrite Z.leb_le in Hu. apply Hdue; tauto.
Qed.

(** A press: the debounce timer of the press before goes, and the new mode
    gets its own unless it is the search mode. *)
Lemma switchMode_debouncing t m c :
  uniqueIds c -> noCountdown c ->
  (forall u, In u (timers c) ->
     callback u = FocusSearchInput \/ debounceTimer c = Some (timerId u)) ->
  debouncing t m (switchMode t m c) /\ started (switchMode t m c) = started c.
Proof.
  intros (Hnd & Hlt) Hnc Hall.
  assert (Hkept : forall u, In u (clearIfSet (debounceTimer c) (timers c)) ->
            In u (timers c) /\ callback u = FocusSearchInput).
  { intros u Hu. unfold clearIfSet in Hu.
    destruct (debounceTimer c) as [id|] eqn:E.
    - apply In_clearTimer in Hu. destruct Hu as [Hu Hne]. split; [exact Hu|].
      destruct (Hall u Hu) as [?|Hid]; [assumption|]. congruence.
    - split; [exact Hu|]. destruct (Hall u Hu) as [?|?]; [assumption|discriminate]. }
  assert (Hndk : NoDup (map timerId (clearIfSet (debounceTimer c) (timers c)))).
  { unfold clearIfSet. destruct (debounceTimer c); [|exact Hnd].
    apply NoDup_ids_filter. exact Hnd. }
  assert (Hfresh : forall cb due0,
            NoDup (map timerId (clearIfSet (debounceTimer c) (timers c)
                                ++ [mkTimer (nextId c) due0 cb]))).
  { intros cb due0. rewrite map_app.
    apply NoDup_app; [exact Hndk | constructor; [intros []|constructor] |].
    intros id Hid [ <- | [] ]. apply in_map_iff in Hid.
    destruct Hid as (u & Hid & Hu). apply Hkept in Hu.
    specialize (Hlt u (proj1 Hu)). cbn in Hid. lia. }
  split; [|destruct m; reflexivity].
  split; [|split; [|split]].
  - split.
    + destruct m; cbn [switchMode timers]; apply Hfresh.
    + intros u Hu.
      assert (Hcases : In u (clearIfSet (debounceTimer c) (timers c))
                       \/ timerId u = nextId c).
      { destruct m; cbn [switchMode timers] in Hu; apply in_app_or in Hu;
          (destruct Hu as [ Hu | [ <- | [] ] ]; [left; exact Hu | right; reflexivity]). }
      assert (Hn : nextId (switchMode t m c) = S (nextId c)) by (destruct m; reflexivity).
      rewrite Hn. destruct Hcases as [ Hu' | -> ]; [|lia].
      apply Hkept in Hu'. specialize (Hlt u (proj1 Hu')). lia.
  - intros id Hid.
    assert (Hid' : countdownInterval c = Some id) by (destruct m; exact Hid).
    destruct (Hnc id Hid') as [Hl Hno].
    assert (Hn : nextId (switchMode t m c) = S (nextId c)) by (destruct m; reflexivity).
    rewrite Hn. split; [lia|]. intros u Hu.
    destruct m; cbn [switchMode timers] in Hu; apply in_app_or in Hu;
      (destruct Hu as [ Hu | [ <- | [] ] ]; [apply Hkept in Hu; apply Hno; tauto | cbn; lia]).
  - intros u Hu.
    destruct m; cbn [switchMode timers debounceTimer] in Hu |- *;
      apply in_app_or in Hu;
      (destruct Hu as [ Hu | [ <- | [] ] ]; [left; apply Hkept in Hu; tauto|]).
    + right. split; [discriminate|]. split; reflexivity.
    + right. split; [discriminate|]. split; reflexivity.
    + left. reflexivity.
  - intros Hm. exists (nextId c).
    destruct m; [| |contradiction]; cbn [switchMode timers];
      apply in_or_app; right; left; reflexivity.
Qed.

(** The clock runs on after the last press. *)
Lemma advanceTo_after_burst tl ml horizon c :
  debouncing tl ml c -> tl <= horizon ->
  started (advanceTo horizon c) = started c ++ debouncedRun (tl, ml) horizon.
Proof.
  intros ((Hnd & Hlt) & Hnc & Hall & Hrun) Hh.
  destruct (advanceTo_spec horizon c Hnd Hnc) as (Hs & _).
  { intros u Hu _. destruct (Hall u Hu) as [ -> | (_ & _ & ->) ]; discriminate. }
  rewrite Hs. f_equal.
  set (batch := byDue (filter (fun t => due t <=? horizon) (timers c))).
  assert (Hin : forall u, In u batch <-> In u (timers c) /\ due u <= horizon).
  { intros u. unfold batch. split.
    - intros H. apply (Permutation_in _ (byDue_perm _)) in H.
      apply filter_In in H. rewrite Z.leb_le in H. exact H.
    - intros H. apply (Permutation_in _ (Permutation_sym (byDue_perm _))).
      apply filter_In. rewrite Z.leb_le. exact H. }
  assert (Hndb : NoDup (map timerId batch)).
  { apply (Permutation_NoDup (Permutation_map timerId
                                (Permutation_sym (byDue_perm _)))).
    apply NoDup_ids_filter. exact Hnd. }
  unfold debouncedRun. cbn [fst snd].
  assert (Hquiet : (ml = search \/ horizon < tl + 500) -> flat_map runEntry batch = []).
  { intros Hno. apply flat_map_runEntry_none. intros u Hu. apply Hin in Hu.
    destruct (Hall u (proj1 Hu)) as [?|(Hm & _ & E)]; [assumption|].
    destruct Hno as [?|?]; [contradiction|].
    destruct Hu as [_ Hd]. rewrite E in Hd. cbn in Hd. lia. }
  assert (Hfires : ml <> search -> tl + 500 <= horizon ->
                   flat_map runEntry batch = [(tl + 500, ml)]).
  { intros Hm Hd. destruct (Hrun Hm) as [id Hid].
    rewrite (flat_map_runEntry_one batch (mkTimer id (tl + 500) (RunMode ml))).
    - reflexivity.
    - exact Hndb.
    - apply Hin. split; [exact Hid | cbn; lia].
    - intros u Hu. apply Hin in Hu.
      destruct (Hall u (proj1 Hu)) as [?|(_ & Hdu & E)]; [left; assumption|].
      right.
      destruct (Hall _ Hid) as [Hf|(_ & Hdr & _)]; [discriminate Hf|].
      cbn in Hdr. rewrite E. f_equal. congruence. }
  destruct ml;
    try (destruct (Z.leb_spec (tl + 500) horizon);
         [apply Hfires; [discriminate | assumption]
         | apply Hquiet; right; assumption]).
  apply Hquiet. left. reflexivity.
Qed.

Lemma last_default_irrelevant {A} (l : list A) d d' :
  l <> [] -> last l d = last l d'.
Proof.
  induction l as [|x l IH]; intros Hne; [contradiction|].
  destruct l as [|y l]; [reflexivity|].
  change (last (y :: l) d = last (y :: l) d'). apply IH. discriminate.
Qed.

Lemma last_cons_default {A} (x : A) l d : last (x :: l) d = last l x.
Proof.
  destruct l as [|y l]; [reflexivity|].
  change (last (y :: l) d = last (y :: l) x).
  apply last_default_irrelevant. discriminate.
Qed.

(** Timers that only focus the search box start no run and abort nothing. *)
Lemma fold_focus batch : forall c,
  (forall t, In t batch -> callback t = FocusSearchInput) ->
  let c' := fold_left fireIfPending batch c in
  started c' = started c
  /\ abortedControllers c' = abortedControllers c
  /\ currentMode c' = currentMode c
  /\ forall id, existsb (fun u => Nat.eqb (timerId u) id) (timers c') = true ->
                existsb (fun u => Nat.eqb (timerId u) id) (timers c) = true.
Proof.
  induction batch as [|t batch IH]; intros c Hall; cbn [fold_left]; [auto|].
  assert (Hstep : started (fireIfPending c t) = started c
                  /\ abortedControllers (fireIfPending c t) = abortedControllers c
                  /\ currentMode (fireIfPending c t) = currentMode c
                  /\ forall u, In u (timers (fireIfPending c t)) -> In u (timers c)).
  { unfold fireIfPending. destruct (existsb _ (timers c)); [|auto].
    unfold fire. rewrite (Hall t (or_introl eq_refl)). cbn.
    repeat split. intros u Hu. apply In_clearTimer in Hu. tauto. }
  destruct Hstep as (Hs & Ha & Hm & Ht).
  destruct (IH (fireIfPending c t) (fun u Hu => Hall u (or_intror Hu)))
    as (Hs' & Ha' & Hm' & Ht').
  cbv zeta. rewrite Hs', Ha', Hm'. repeat split; try assumption.
  intros id Hid. apply Ht' in Hid. apply existsb_exists in Hid.
  destruct Hid as (u & Hu & Hid). apply existsb_exists. exists u. auto.
Qed.

Lemma In_byDue t ts : In t (byDue ts) -> In t ts.
Proof. exact (Permutation_in _ (byDue_perm ts)). Qed.

Lemma byDue_In t ts : In t ts -> In t (byDue ts).
Proof. exact (Permutation_in _ (Permutation_sym (byDue_perm ts))). Qed.

Lemma In_clearIfSet id ts u :
  In u (clearIfSet id ts) <-> In u ts /\ id <> Some (timerId u).
Proof.
  destruct id as [i|]; cbn [clearIfSet].
  - rewrite In_clearTimer. intuition congruence.
  - intuition discriminate.
Qed.

Lemma existsb_id_clearTimer id id' ts :
  existsb (fun u => Nat.eqb (timerId u) id) (clearTimer id' ts)
  = negb (Nat.eqb id id') && existsb (fun u => Nat.eqb (timerId u) id) ts.
Proof.
  induction ts as [|t ts IH]; cbn [clearTimer filter existsb];
    [rewrite andb_false_r; reflexivity|].
  fold (clearTimer id' ts).
  destruct (Nat.eqb_spec (timerId t) id') as [E|E]; cbn [negb].
  - rewrite IH. destruct (Nat.eqb_spec id id') as [E'|E']; cbn [negb andb].
    + reflexivity.
    + destruct (Nat.eqb_spec (timerId t) id); [congruence | reflexivity].
  - cbn [existsb]. rewrite IH.
    destruct (Nat.eqb_spec id id') as [E'|E']; cbn [negb andb]; [|reflexivity].
    destruct (Nat.eqb_spec (timerId t) id); [congruence | reflexivity].
Qed.

(** The timers of a batch fire while one countdown waits: the run of the
    countdown starts once, when its turn comes. *)
Lemma fold_countdown tn batch : forall c,
  callback tn = CountdownRun ->
  (forall t, In t batch ->
     (callback t = FocusSearchInput /\ timerId t <> timerId tn) \/ t = tn) ->
  existsb (fun u => Nat.eqb (timerId u) (timerId tn)) (timers c) = true ->
  In tn batch ->
  started (fold_left fireIfPending batch c) = started c ++ [(due tn, currentMode c)].
Proof.
  induction batch as [|t batch IH]; intros c Hcb Hall Hpending Hin; [contradiction|].
  cbn [fold_left].
  destruct (Hall t (or_introl eq_refl)) as [[Hf Hid] | ->].
  - destruct Hin as [ -> | Hin ]; [rewrite Hcb in Hf; discriminate|].
    assert (Hstep : started (fireIfPending c t) = started c
                    /\ currentMode (fireIfPending c t) = currentMode c
                    /\ existsb (fun u => Nat.eqb (timerId u) (timerId tn))
                         (timers (fireIfPending c t)) = true).
    { unfold fireIfPending.
      destruct (existsb (fun u => Nat.eqb (timerId u) (timerId t)) (timers c));
        [|auto].
      unfold fire. rewrite Hf. cbn [started currentMode timers]. repeat split.
      rewrite existsb_id_clearTimer, Hpending.
      destruct (Nat.eqb_spec (timerId tn) (timerId t)); [congruence | reflexivity]. }
    destruct Hstep as (Hs & Hm & Hp).
    rewrite (IH (fireIfPending c t) Hcb (fun u Hu => Hall u (or_intror Hu)) Hp Hin).
    rewrite Hs, Hm. reflexivity.
  - clear Hin IH.
    assert (Hfire : started (fireIfPending c tn) = started c ++ [(due tn, currentMode c)]
                    /\ forall id, existsb (fun u => Nat.eqb (timerId u) id)
                                    (timers (fireIfPending c tn)) = true ->
                                  id <> timerId tn).
    { unfold fireIfPending. rewrite Hpending. unfold fire. rewrite Hcb.
      cbn [runBriefrrStart started timers currentMode countdownInterval].
      split; [reflexivity|]. intros id Hid E. subst id.
      apply existsb_exists in Hid. destruct Hid as (u & Hu & Hid).
      apply In_clearIfSet in Hu. destruct Hu as [Hu _].
      apply In_clearTimer in Hu. apply Nat.eqb_eq in Hid. tauto. }
    destruct Hfire as (Hs & Hgone). rewrite <- Hs.
    (* the rest of the batch: the countdown is gone *)
    clear Hs Hpending.
    generalize dependent (fireIfPending c tn). intros c1 Hgone.
    assert (Hrest : forall t, In t batch ->
               (callback t = FocusSearchInput /\ timerId t <> timerId tn) \/ t = tn)
      by (intros u Hu; apply Hall; right; exact Hu).
    clear Hall. revert c1 Hgone.
    induction batch as [|t batch IH]; intros c1 Hgone; [reflexivity|].
    cbn [fold_left].
    assert (Hstep : started (fireIfPending c1 t) = started c1
                    /\ forall id, existsb (fun u => Nat.eqb (timerId u) id)
                                    (timers (fireIfPending c1 t)) = true ->
                                  id <> timerId tn).
    { unfold fireIfPending.
      destruct (existsb _ (timers c1)) eqn:E; [|auto].
      destruct (Hrest t (or_introl eq_refl)) as [[Hf _] | ->].
      - unfold fire. rewrite Hf. cbn [started timers]. split; [reflexivity|].
        intros id Hid. rewrite existsb_id_clearTimer in Hid.
        apply andb_prop in Hid. apply Hgone. tauto.
      - exfalso. exact (Hgone _ E eq_refl). }
    destruct Hstep as (Hs & Hg).
    rewrite (IH (fun u Hu => Hrest u (or_intror Hu)) _ Hg). exact Hs.
Qed.

(** Firing timers that only focus the search box changes the timer table
    alone: the timers fired leave it. *)
Lemma fold_focus_frame batch : forall c,
  (forall t, In t batch -> callback t = FocusSearchInput) ->
  let c' := fold_left fireIfPending batch c in
  nextId c' = nextId c
  /\ isStreaming c' = isStreaming c
  /\ shown c' = shown c
  /\ debounceTimer c' = debounceTimer c
  /\ countdownInterval c' = countdownInterval c
  /\ abortController c' = abortController c
  /\ (forall u, In u (timers c') -> In u (timers c))
  /\ (forall u, In u (timers c) -> ~ In (timerId u) (map timerId batch) ->
                In u (timers c')).
Proof.
  induction batch as [|t batch IH]; intros c Hall; cbn [fold_left].
  { repeat split; auto. }
  assert (Hstep : nextId (fireIfPending c t) = nextId c
                  /\ isStreaming (fireIfPending c t) = isStreaming c
                  /\ shown (fireIfPending c t) = shown c
                  /\ debounceTimer (fireIfPending c t) = debounceTimer c
                  /\ countdownInterval (fireIfPending c t) = countdownInterval c
                  /\ abortController (fireIfPending c t) = abortController c
                  /\ (forall u, In u (timers (fireIfPending c t)) -> In u (timers c))
                  /\ (forall u, In u (timers c) -> timerId u <> timerId t ->
                                In u (timers (fireIfPending c t)))).
  { unfold fireIfPending.
    destruct (existsb (fun u => Nat.eqb (timerId u) (timerId t)) (timers c));
      [|repeat split; auto].
    unfold fire. rewrite (Hall t (or_introl eq_refl)).
    cbn [nextId isStreaming shown debounceTimer countdownInterval abortController
         timers].
    repeat split.
    - intros u Hu. apply In_clearTimer in Hu. tauto.
    - intros u Hu Hne. apply In_clearTimer. tauto. }
  destruct Hstep as (H1 & H2 & H3 & H4 & H5 & H6 & H7 & H8).
  destruct (IH (fireIfPending c t) (fun u Hu => Hall u (or_intror Hu)))
    as (I1 & I2 & I3 & I4 & I5 & I6 & I7 & I8).
  cbv zeta. rewrite I1, I2, I3, I4, I5, I6. repeat split; try assumption.
  - intros u Hu. apply H7. apply I7. exact Hu.
  - intros u Hu Hno. apply I8.
    + apply H8; [exact Hu|]. intros E. apply Hno. left. symmetry. exact E.
    + intros Hin. apply Hno. right. exact Hin.
Qed.

(** Time passes on a page where only focus timers wait. *)
Lemma advanceTo_noRunPending t c :
  noRunPending c ->
  noRunPending (advanceTo t c)
  /\ started (advanceTo t c) = started c
  /\ abortedControllers (advanceTo t c) = abortedControllers c
  /\ currentMode (advanceTo t c) = currentMode c
  /\ isStreaming (advanceTo t c) = isStreaming c
  /\ shown (advanceTo t c) = shown c
  /\ abortController (advanceTo t c) = abortController c.
Proof.
  intros Hc. unfold advanceTo.
  set (batch := byDue (filter (fun u => due u <=? t) (timers c))).
  assert (Hb : forall u, In u batch -> callback u = FocusSearchInput).
  { intros u Hu. apply In_byDue in Hu. apply filter_In in Hu.
    exact (proj1 (Hc u (proj1 Hu))). }
  destruct (fold_focus batch c Hb) as (Hs & Ha & Hm & _).
  destruct (fold_focus_frame batch c Hb) as (Hn & Hi & Hv & _ & _ & Hab & Hsub & _).
  split; [|repeat split; assumption].
  intros u Hu. rewrite Hn. exact (Hc u (Hsub u Hu)).
Qed.

(** What runs in flight render, when they show no countdown, leaves the
    timers alone. *)
Lemma react_rendering t ev c :
  match ev with Shows v => calm v | Finishes => True | _ => False end ->
  timers (react t ev c) = timers c
  /\ nextId (react t ev c) = nextId c
  /\ started (react t ev c) = started c
  /\ abortedControllers (react t ev c) = abortedControllers c
  /\ currentMode (react t ev c) = currentMode c
  /\ debounceTimer (react t ev c) = debounceTimer c
  /\ countdownInterval (react t ev c) = countdownInterval c
  /\ abortController (react t ev c) = abortController c.
Proof.
  destruct ev as [m|v| |m|]; try contradiction; intros Hv.
  - destruct v as [text| |message retry [ms|]|text cursor]; try contradiction;
      repeat split.
  - repeat split.
Qed.

Lemma page_rendering events : forall now horizon c,
  noRunPending c -> rendering now events horizon ->
  started (page events horizon c) = started c
  /\ abortedControllers (page events horizon c) = abortedControllers c
  /\ currentMode (page events horizon c) = currentMode c.
Proof.
  induction events as [|[t ev] events IH]; intros now horizon c Hc Hev.
  - cbn [page]. destruct (advanceTo_noRunPending horizon c Hc) as (_ & Hs & Ha & Hm & _).
    auto.
  - cbn [page].
    destruct (advanceTo_noRunPending t c Hc) as (Hc1 & Hs & Ha & Hm & _).
    assert (Hcalm : match ev with Shows v => calm v | Finishes => True | _ => False end
                    /\ rendering t events horizon).
    { destruct ev; cbn [rendering] in Hev; tauto. }
    destruct Hcalm as [Hcalm Hrest].
    destruct (react_rendering t ev (advanceTo t c) Hcalm)
      as (Ht & Hn & Hs' & Ha' & Hm' & _).
    assert (Hc2 : noRunPending (react t ev (advanceTo t c))).
    { intros u Hu. rewrite Ht in Hu. rewrite Hn. exact (Hc1 u Hu). }
    destruct (IH t horizon _ Hc2 Hrest) as (Hs2 & Ha2 & Hm2).
    rewrite Hs2, Ha2, Hm2, Hs', Ha', Hm', Hs, Ha, Hm. auto.
Qed.

(** Once the debounce timer of the last press has fired, or when that press
    chose the search mode, only focus timers are left. *)
Lemma advanceTo_over tl ml t c :
  debouncing tl ml c -> ml = search \/ tl + 500 <= t ->
  noRunPending (advanceTo t c).
Proof.
  intros ((Hnd & Hlt) & Hnc & Hall & Hrun) Hover.
  destruct (advanceTo_spec t c Hnd Hnc) as (_ & Hts & _ & _ & _ & Hn).
  { intros u Hu _. destruct (Hall u Hu) as [ -> | (_ & _ & ->) ]; discriminate. }
  intros u Hu. apply Hts in Hu. destruct Hu as [Hu Hdue].
  split; [|specialize (Hlt u Hu); lia].
  destruct (Hall u Hu) as [?|(Hm & _ & E)]; [assumption|].
  destruct Hover as [?|?]; [contradiction|].
  rewrite E in Hdue. cbn in Hdue. lia.
Qed.

Lemma react_rendering_debouncing tl ml t ev c :
  match ev with Shows v => calm v | Finishes => True | _ => False end ->
  debouncing tl ml c ->
  debouncing tl ml (react t ev c).
Proof.
  intros Hev ((Hnd & Hlt) & Hnc & Hall & Hrun).
  destruct (react_rendering t ev c Hev) as (Ht & Hn & _ & _ & _ & Hd & Hcd & _).
  unfold debouncing, uniqueIds, noCountdown. rewrite Ht, Hn, Hd, Hcd.
  split; [split; assumption|]. split; [exact Hnc|]. split; assumption.
Qed.

Lemma burst_rendering events : forall tl now horizon,
  burst tl now events horizon -> tl + 500 <= now ->
  rendering now events horizon.
Proof.
  induction events as [|[t ev] events IH]; intros tl now horizon Hb Hover;
    [exact Hb|].
  destruct ev as [m|v| |m|]; cbn [burst rendering] in *; try contradiction.
  - lia.
  - destruct Hb as (Ht & Hv & Hb). repeat split; try assumption.
    apply (IH tl); [exact Hb | lia].
  - destruct Hb as (Ht & Hb). split; [exact Ht|]. apply (IH tl); [exact Hb | lia].
Qed.

Lemma burst_horizon events : forall tl now horizon,
  burst tl now events horizon -> now <= horizon.
Proof.
  induction events as [|[t ev] events IH]; intros tl now horizon Hb; [exact Hb|].
  destruct ev as [m|v| |m|]; cbn [burst] in Hb; try contradiction.
  - destruct Hb as (Ht & Hb). specialize (IH _ _ _ Hb). lia.
  - destruct Hb as (Ht & _ & Hb). specialize (IH _ _ _ Hb). lia.
  - destruct Hb as (Ht & Hb). specialize (IH _ _ _ Hb). lia.
Qed.

Lemma rendering_lastPress events : forall press now horizon,
  rendering now events horizon -> lastPress press events = press.
Proof.
  induction events as [|[t ev] events IH]; intros press now horizon Hr; [reflexivity|].
  destruct ev as [m|v| |m|]; cbn [rendering lastPress] in *; try contradiction.
  - apply (IH _ t horizon). tauto.
  - apply (IH _ t horizon). tauto.
Qed.

Lemma debouncedRun_later tl ml t horizon :
  ml = search \/ tl + 500 <= t -> t <= horizon ->
  debouncedRun (tl, ml) t = debouncedRun (tl, ml) horizon.
Proof.
  intros Hover Hh. unfold debouncedRun. cbn [fst snd].
  destruct ml; try reflexivity;
    (destruct Hover as [?|?]; [discriminate|]);
    destruct (Z.leb_spec (tl + 500) t); destruct (Z.leb_spec (tl + 500) horizon);
    try reflexivity; lia.
Qed.

(** A burst of presses: the run of its last press, and no other. *)
Lemma page_burst events : forall c tl ml now horizon,
  debouncing tl ml c -> tl <= now -> burst tl now events horizon ->
  started (page events horizon c)
  = started c ++ debouncedRun (lastPress (tl, ml) events) horizon.
Proof.
  induction events as [|[t ev] events IH]; intros c tl ml now horizon Hc Hnow Hb.
  - cbn [page lastPress burst] in *. apply advanceTo_after_burst; [assumption|lia].
  - cbn [page].
    destruct ev as [m|v| |m|]; cbn [burst lastPress] in *; try contradiction.
    + destruct Hb as (Ht & Hb).
      destruct (advanceTo_debouncing tl ml t c Hc (proj2 Ht))
        as ((Hu & Hnc & Hall & _) & Hs).
      destruct (switchMode_debouncing t m (advanceTo t c) Hu Hnc) as [Hc' Hs'].
      { intros u Hin. destruct (Hall u Hin) as [?|(_ & ? & _)]; auto. }
      cbn [react].
      rewrite (IH _ t m t horizon Hc' ltac:(lia) Hb), Hs', Hs. reflexivity.
    + destruct Hb as (Ht & Hv & Hb).
      destruct (Z.lt_ge_cases t (tl + 500)) as [Hin|Hout].
      * destruct (advanceTo_debouncing tl ml t c Hc Hin) as (Hc1 & Hs).
        pose proof (react_rendering_debouncing tl ml t (Shows v) _ Hv Hc1) as Hc2.
        destruct (react_rendering t (Shows v) (advanceTo t c) Hv)
          as (_ & _ & Hs' & _).
        rewrite (IH _ tl ml t horizon Hc2 ltac:(lia) Hb), Hs', Hs. reflexivity.
      * pose proof (advanceTo_over tl ml t c Hc (or_intror Hout)) as Hc1.
        pose proof (advanceTo_after_burst tl ml t c Hc ltac:(lia)) as Hs.
        pose proof (burst_rendering _ _ _ _ Hb Hout) as Hr.
        destruct (react_rendering t (Shows v) (advanceTo t c) Hv)
          as (Ht' & Hn' & Hs' & _).
        assert (Hc2 : noRunPending (react t (Shows v) (advanceTo t c))).
        { intros u Hu. rewrite Ht' in Hu. rewrite Hn'. exact (Hc1 u Hu). }
        destruct (page_rendering events t horizon _ Hc2 Hr) as (Hs2 & _).
        rewrite Hs2, Hs', Hs, (rendering_lastPress _ _ _ _ Hr).
        rewrite (debouncedRun_later tl ml t horizon (or_intror Hout)
                   (burst_horizon _ _ _ _ Hb)).
        reflexivity.
    + destruct Hb as (Ht & Hb).
      destruct (Z.lt_ge_cases t (tl + 500)) as [Hin|Hout].
      * destruct (advanceTo_debouncing tl ml t c Hc Hin) as (Hc1 & Hs).
        pose proof (react_rendering_debouncing tl ml t Finishes _ I Hc1) as Hc2.
        destruct (react_rendering t Finishes (advanceTo t c) I)
          as (_ & _ & Hs' & _).
        rewrite (IH _ tl ml t horizon Hc2 ltac:(lia) Hb), Hs', Hs. reflexivity.
      * pose proof (advanceTo_over tl ml t c Hc (or_intror Hout)) as Hc1.
        pose proof (advanceTo_after_burst tl ml t c Hc ltac:(lia)) as Hs.
        pose proof (burst_rendering _ _ _ _ Hb Hout) as Hr.
        destruct (react_rendering t Finishes (advanceTo t c) I)
          as (Ht' & Hn' & Hs' & _).
        assert (Hc2 : noRunPending (react t Finishes (advanceTo t c))).
        { intros u Hu. rewrite Ht' in Hu. rewrite Hn'. exact (Hc1 u Hu). }
        destruct (page_rendering events t horizon _ Hc2 Hr) as (Hs2 & _).
        rewrite Hs2, Hs', Hs, (rendering_lastPress _ _ _ _ Hr).
        rewrite (debouncedRun_later tl ml t horizon (or_intror Hout)
                   (burst_horizon _ _ _ _ Hb)).
        reflexivity.
Qed.

(** A countdown goes on ticking while focus timers fire. *)
Lemma advanceTo_onlyCountdown tn t c :
  onlyCountdown tn c -> t < due tn ->
  onlyCountdown tn (advanceTo t c)
  /\ started (advanceTo t c) = started c
  /\ abortedControllers (advanceTo t c) = abortedControllers c
  /\ currentMode (advanceTo t c) = currentMode c.
Proof.
  intros (Hcb & Hin & Hlt & Hd & Hall) Ht. unfold advanceTo.
  set (batch := byDue (filter (fun u => due u <=? t) (timers c))).
  assert (Hb : forall u, In u batch ->
                 In u (timers c) /\ callback u = FocusSearchInput
                 /\ timerId u <> timerId tn).
  { intros u Hu. apply In_byDue in Hu. apply filter_In in Hu.
    destruct Hu as [Hu Hdue]. apply Z.leb_le in Hdue.
    destruct (Hall u Hu) as [ -> | (Hf & Hid & _) ]; [lia|]. auto. }
  destruct (fold_focus batch c (fun u Hu => proj1 (proj2 (Hb u Hu))))
    as (Hs & Ha & Hm & _).
  destruct (fold_focus_frame batch c (fun u Hu => proj1 (proj2 (Hb u Hu))))
    as (Hn & _ & _ & Hdb & _ & _ & Hsub & Hkeep).
  split; [|auto].
  split; [exact Hcb|]. split; [|split; [|split]].
  - apply Hkeep; [exact Hin|]. intros Hid. apply in_map_iff in Hid.
    destruct Hid as (u & Hid & Hu). exact (proj2 (proj2 (Hb u Hu)) Hid).
  - rewrite Hn. exact Hlt.
  - rewrite Hdb. exact Hd.
  - intros u Hu. rewrite Hn. apply Hall. apply Hsub. exact Hu.
Qed.

(** A mode switch leaves a ticking countdown as it is. *)
Lemma switchMode_onlyCountdown tn t m c :
  onlyCountdown tn c ->
  In tn (timers (switchMode t m c))
  /\ forall u, In u (timers (switchMode t m c)) ->
       u = tn
       \/ (callback u = FocusSearchInput /\ timerId u <> timerId tn)
       \/ (m <> search /\ u = mkTimer (nextId c) (t + 500) (RunMode m)).
Proof.
  intros (Hcb & Hin & Hlt & Hd & Hall).
  assert (Hkept : forall u, In u (clearIfSet (debounceTimer c) (timers c)) ->
                            In u (timers c)).
  { intros u Hu. apply In_clearIfSet in Hu. tauto. }
  assert (Hstay : In tn (clearIfSet (debounceTimer c) (timers c))).
  { apply In_clearIfSet. split; [exact Hin | exact Hd]. }
  split.
  - destruct m; cbn [switchMode timers]; apply in_or_app; left; exact Hstay.
  - intros u Hu.
    assert (Hcases : In u (clearIfSet (debounceTimer c) (timers c))
                     \/ (m = search /\ u = mkTimer (nextId c) (t + 100) FocusSearchInput)
                     \/ (m <> search /\ u = mkTimer (nextId c) (t + 500) (RunMode m))).
    { destruct m; cbn [switchMode timers] in Hu; apply in_app_or in Hu;
        (destruct Hu as [ Hu | [ <- | [] ] ]; [left; exact Hu|]).
      - right. right. split; [discriminate | reflexivity].
      - right. right. split; [discriminate | reflexivity].
      - right. left. split; reflexivity. }
    destruct Hcases as [Hu'|[(_ & ->)|Hrun]].
    + destruct (Hall u (Hkept u Hu')) as [ -> | (Hf & Hid & _) ]; auto.
    + right. left. split; [reflexivity|]. cbn. lia.
    + right. right. exact Hrun.
Qed.

End TimerFacts.

Section ModeFacts.

Import Content.

(** C9. What a mode switch does, against the claim.  It shows the new mode
    at once and clears the debounce timer of the switch before, and nothing
    else: the live stream keeps its abort controller, unaborted, and a retry
    countdown goes on ticking.  So on a page where a retry countdown ticks,
    a switch to the search mode before the tick is followed by a run of the
    search mode at the tick, with no submission; and a stream that is live
    when the search mode is chosen goes on rendering into the page, still
    marked as streaming, its controller never aborted. *)
Theorem mode_switch_cancels_debounce_only :
  (forall now m c,
     currentMode (switchMode now m c) = m
     /\ isStreaming (switchMode now m c) = isStreaming c
     /\ abortController (switchMode now m c) = abortController c
     /\ abortedControllers (switchMode now m c) = abortedControllers c
     /\ countdownInterval (switchMode now m c) = countdownInterval c
     /\ (forall t, In t (timers c) -> debounceTimer c <> Some (timerId t) ->
                   In t (timers (switchMode now m c)))
     /\ (forall t, In t (timers c) -> debounceTimer c = Some (timerId t) ->
                   (timerId t < nextId c)%nat ->
                   ~ In t (timers (switchMode now m c))))
  /\ (forall tn c t horizon,
        onlyCountdown tn c -> t < due tn -> due tn <= horizon ->
        started (page [(t, Press search)] horizon c)
        = started c ++ [(due tn, search)])
  /\ (forall c t t' text horizon,
        noRunPending c -> t <= t' -> t' <= horizon ->
        let c' := page [(t, Press search); (t', Shows (Markdown text true))]
                    horizon c in
        currentMode c' = search
        /\ shown c' = Markdown text true
        /\ isStreaming c' = isStreaming c
        /\ abortedControllers c' = abortedControllers c
        /\ started c' = started c).
Proof.
  split; [|split].
  - intros now m c.
    split; [destruct m; reflexivity|]. split; [destruct m; reflexivity|].
    split; [destruct m; reflexivity|]. split; [destruct m; reflexivity|].
    split; [destruct m; reflexivity|]. split.
    + intros t Ht Hd.
      assert (In t (clearIfSet (debounceTimer c) (timers c)))
        by (apply In_clearIfSet; split; assumption).
      destruct m; cbn [switchMode timers]; apply in_or_app; left; assumption.
    + intros t Ht Hd Hlt Hin.
      assert (Hcases : In t (clearIfSet (debounceTimer c) (timers c))
                       \/ timerId t = nextId c).
      { destruct m; cbn [switchMode timers] in Hin; apply in_app_or in Hin;
          (destruct Hin as [ Hin | [ <- | [] ] ];
           [left; exact Hin | right; reflexivity]). }
      destruct Hcases as [Hk|Hid]; [|lia].
      apply In_clearIfSet in Hk. destruct Hk as [_ Hk]. congruence.
  - intros tn c t horizon Hc Ht Hh. cbn [page react].
    destruct (advanceTo_onlyCountdown tn t c Hc Ht) as (Hc1 & Hs & _ & _).
    destruct (switchMode_onlyCountdown tn t search _ Hc1) as (Hin & Hall).
    unfold advanceTo at 1.
    rewrite (fold_countdown tn).
    + cbn [switchMode started currentMode]. rewrite Hs. reflexivity.
    + exact (proj1 Hc).
    + intros u Hu. apply In_byDue in Hu. apply filter_In in Hu.
      destruct (Hall u (proj1 Hu)) as [ -> | [? | (Hm & _)] ];
        [right; reflexivity | left; assumption | contradiction].
    + apply existsb_exists. exists tn. split; [exact Hin | apply Nat.eqb_refl].
    + apply byDue_In. apply filter_In. split; [exact Hin|]. apply Z.leb_le. exact Hh.
  - intros c t t' text horizon Hc Ht Hh c'. unfold c'. cbn [page react].
    destruct (advanceTo_noRunPending t c Hc) as (Hc1 & Hs1 & Ha1 & _ & Hi1 & _).
    set (c1 := advanceTo t c) in *.
    assert (Hc2 : noRunPending (switchMode t search c1)).
    { intros u Hu. cbn [switchMode timers nextId] in *. apply in_app_or in Hu.
      destruct Hu as [ Hu | [ <- | [] ] ].
      - apply In_clearIfSet in Hu. destruct (Hc1 u (proj1 Hu)). split; [assumption|lia].
      - split; [reflexivity | cbn; lia]. }
    destruct (advanceTo_noRunPending t' _ Hc2) as (Hc3 & Hs3 & Ha3 & Hm3 & Hi3 & _).
    set (c3 := advanceTo t' (switchMode t search c1)) in *.
    assert (Hc4 : noRunPending (display t' (Markdown text true) c3))
      by exact Hc3.
    destruct (advanceTo_noRunPending horizon _ Hc4)
      as (_ & Hs5 & Ha5 & Hm5 & Hi5 & Hv5 & _).
    rewrite Hs5, Ha5, Hm5, Hi5, Hv5.
    cbn [display started abortedControllers currentMode isStreaming shown].
    rewrite Hs3, Ha3, Hm3, Hi3. cbn [switchMode started abortedControllers currentMode
                                      isStreaming].
    rewrite Hs1, Ha1, Hi1. repeat split.
Qed.

End ModeFacts.

Lemma mode_switch_cancels_debounce_only_witness :
  Content.onlyCountdown (mkTimer 1 300 CountdownRun) Scene.countingDown
  /\ started (Content.page [(100, Content.Press search)] 1000 Scene.countingDown)
     = [(300, search)]
  /\ (let c :=
        Content.page
          [(1000, Content.Press search);
           (1200, Content.Shows (Markdown (lit "Hello world") true))]
          1000000 Scene.streaming in
      currentMode c = search
      /\ shown c = Markdown (lit "Hello world") true
      /\ isStreaming c = true
      /\ abortedControllers c = []
      /\ started c = [(0, highlights)]).
Proof.
  assert (H1 : Content.onlyCountdown (mkTimer 1 300 CountdownRun) Scene.countingDown).
  { split; [reflexivity|]. split; [left; reflexivity|]. split; [cbn; lia|].
    split; [discriminate|]. intros u [<-|[]]. left. reflexivity. }
  assert (H2 : Content.noRunPending Scene.streaming) by (intros u []).
  destruct mode_switch_cancels_debounce_only as (_ & Hcountdown & Hstream).
  split; [exact H1|]. split.
  - exact (Hcountdown (mkTimer 1 300 CountdownRun) Scene.countingDown 100 1000 H1
             ltac:(cbn; lia) ltac:(cbn; lia)).
  - exact (Hstream Scene.streaming 1000 1200 (lit "Hello world") 1000000 H2
             ltac:(lia) ltac:(lia)).
Defined.

(** Two runs out of one burst of presses.  A retry countdown that is ticking
    survives the presses: two presses 400 ms apart lead to the run of the
    countdown and to the debounced run.  And on a page at rest, a run that
    is denied by its gate while the modes are being toggled starts its
    countdown inside the burst: the presses at 100 and 300 are followed by
    the run of the countdown at 350 and by the debounced run at 800. *)
Example burst_with_countdown_starts_two_runs :
  started (Content.page [(0, Content.Press explain); (400, Content.Press highlights)]
             2000 Scene.countingDown)
  = [(300, explain); (900, highlights)]
  /\ started (Content.page
                [(0, Content.Runs highlights);
                 (50, Content.Shows
                        (ErrorView (lit "Please wait before making another request.")
                           false (Some 250)));
                 (50, Content.Finishes);
                 (100, Content.Press explain);
                 (300, Content.Press highlights)]
                5000 Scene.idle)
     = [(0, highlights); (350, highlights); (800, highlights)].
Proof. split; vm_compute; reflexivity. Qed.

(** ** Examples of runs *)





(** ** The scenarios of the specification, run on the model *)

(** After a request with no earlier throttle the gate denies for spacing
    until 4000 ms have passed, then allows. *)
Example scenario_spacing :
  let st := RateLimiter.recordRequest 1700000000000 emptyStorage in
  RateLimiter.answer (RateLimiter.canMakeRequest Sample.promptStorage 1700000003999 st)
  = Denied 1 rate_limit
  /\ RateLimiter.answer (RateLimiter.canMakeRequest Sample.promptStorage 1700000004000 st)
     = Allowed.
Proof. split; reflexivity. Qed.

(** An upstream 429 with no earlier backoff: the relay stores 60000 and
    sends the throttle error, and the controller shows its message with a
    countdown of 60000 ms. *)
Example scenario_throttled :
  let run :=
    GeminiApi.streamGeminiResponse Sample.parseEnvelope Sample.noOther
      Sample.promptStorage 1700000000000
      (FetchResolves (mkResponse 429 [] [] EndOfStream)) Scene.keyOnly in
  retryBackoff (storageLeft run) = Some 60000
  /\ Background.onMessage StaysConnected (generated run)
     = [Error (lit "RATE_LIMITED:60000:You've hit the API rate limit. Please wait 1 minute and try again.")]
  /\ Content.catchError
       (lit "RATE_LIMITED:60000:You've hit the API rate limit. Please wait 1 minute and try again.")
     = ErrorView (lit "You've hit the API rate limit. Please wait 1 minute and try again.")
         false (Some 60000).
Proof. repeat split; vm_compute; reflexivity. Qed.

(** Three chunks and the end marker: the controller ends with the text
    [Hello world!] on display, the cursor gone, and the run resolved. *)
Example scenario_hello_world :
  let body :=
    [Sample.textFrame "Hello"; Sample.textFrame " world";
     Sample.textFrame "!" ++ Sample.frame "[DONE]"] in
  let run :=
    GeminiApi.streamGeminiResponse Sample.parseEnvelope Sample.noOther
      Sample.promptStorage 1700000000000
      (FetchResolves (mkResponse 200 [] body EndOfStream)) Scene.keyOnly in
  let msgs := Background.onMessage StaysConnected (generated run) in
  msgs = [Chunk (JString (lit "Hello")); Chunk (JString (lit " world"));
          Chunk (JString (lit "!")); Done]
  /\ Content.consume Sample.noOther
       (mkStream [] false None (Loading (lit "Generating brief...")))
       (map Message msgs)
     = mkStream (lit "Hello world!") false (Some Resolved)
         (Markdown (lit "Hello world!") false).
Proof. split; vm_compute; reflexivity. Qed.

(** A character of two bytes cut by the boundary of two reads. *)
Example scenario_split_character :
  snd (TextDecoder.decode TextDecoder.initial [Byte.x63; Byte.xc3])
  = [99%N]
  /\ snd (TextDecoder.decode
            (fst (TextDecoder.decode TextDecoder.initial [Byte.x63; Byte.xc3]))
            [Byte.xa9])
     = [233%N].
Proof. split; reflexivity. Qed.

(** * Further properties of the code *)

(** ** The rate limiter, continued *)

Section RateLimiterMore.

Import RateLimiter.

Lemma ceil_div_bounds a b : 0 < b -> a <= b * ceil_div a b < a + b.
Proof.
  intros Hb. unfold ceil_div.
  pose proof (Z.div_mod (- a) b ltac:(lia)) as Hdm.
  pose proof (Z.mod_pos_bound (- a) b Hb) as Hm.
  nia.
Qed.

(** X1. The wait that formatTimeRemaining writes is never shorter than the
    wait it was given: up to 59 s it writes whole seconds, rounded up by less
    than a second; beyond that whole minutes, rounded up by less than a
    minute and a second.  The unit is in the singular for 1 only. *)
Theorem formatTimeRemaining_rounds_up (ms : Z) :
  exists n,
    ms <= (if ms <=? 59000 then 1000 else 60000) * n
    /\ (if ms <=? 59000 then 1000 else 60000) * n
       < ms + (if ms <=? 59000 then 1000 else 61000)
    /\ formatTimeRemaining ms
       = Number_toString n
         ++ lit (if ms <=? 59000 then " second" else " minute")
         ++ (if n =? 1 then [] else lit "s").
Proof.
  unfold formatTimeRemaining.
  pose proof (ceil_div_bounds ms 1000 ltac:(lia)) as Hs.
  set (seconds := ceil_div ms 1000) in *.
  destruct (Z.leb_spec ms 59000) as [Hle|Hgt].
  - destruct (Z.ltb_spec seconds 60) as [_|?]; [|lia].
    exists seconds. repeat split; try lia.
  - destruct (Z.ltb_spec seconds 60) as [?|_]; [lia|].
    pose proof (ceil_div_bounds seconds 60 ltac:(lia)) as Hm.
    exists (ceil_div seconds 60). repeat split; try lia.
Qed.

(** What a denial is made of. *)
Lemma canMakeRequest_denied_cases tm t0 st ms reason :
  answer (canMakeRequest tm t0 st) = Denied ms reason ->
  exists d1 d2,
    t_getLastRequestTime tm = Fulfils d1
    /\ t_getRetryBackoff tm = Fulfils d2
    /\ let now := t0 + Z.of_N d1 + Z.of_N d2 in
       (reason = backoff
        /\ 0 < Storage.getRetryBackoff st
        /\ now < toNumber (Storage.getLastRequestTime st) + Storage.getRetryBackoff st
        /\ ms = toNumber (Storage.getLastRequestTime st)
                + Storage.getRetryBackoff st - now
        /\ storageAfter (canMakeRequest tm t0 st) = st)
       \/ (reason = rate_limit
           /\ exists t, Storage.getLastRequestTime st = Some t
                        /\ now - t < 4000
                        /\ ms = 4000 - (now - t)).
Proof.
  destruct tm as [[d1|d1|] [d2|d2|] t3];
    try (unfold canMakeRequest, checkPromise, bind, awaitRead; cbn; discriminate);
    try (unfold canMakeRequest, checkPromise, bind, awaitRead; cbn;
         destruct (_ <? _); cbn; discriminate).
  intros H. exists d1, d2. split; [reflexivity|]. split; [reflexivity|].
  cbv zeta.
  assert (Hsp : forall ms' r', spacingCheck (Storage.getLastRequestTime st)
                       (t0 + Z.of_N d1 + Z.of_N d2) = Denied ms' r' ->
                r' = rate_limit
                /\ exists t, Storage.getLastRequestTime st = Some t
                             /\ t0 + Z.of_N d1 + Z.of_N d2 - t < 4000
                             /\ ms' = 4000 - (t0 + Z.of_N d1 + Z.of_N d2 - t)).
  { intros ms' r'. unfold spacingCheck, MIN_REQUEST_DELAY.
    destruct (Storage.getLastRequestTime st) as [t|]; [|discriminate]. cbv zeta.
    destruct (Z.ltb_spec (t0 + Z.of_N d1 + Z.of_N d2 - t) 4000); [|discriminate].
    intros Heq. split; [congruence|]. exists t. split; [reflexivity|].
    split; [assumption|congruence]. }
  revert H.
  unfold canMakeRequest, checkPromise, bind, awaitRead, awaitWrite, Date_now, ret.
  cbn [t_getLastRequestTime t_getRetryBackoff t_clearRetryBackoff].
  replace (t0 + (0 + Z.of_N d1 + Z.of_N d2)) with (t0 + Z.of_N d1 + Z.of_N d2) by lia.
  destruct (Z.eqb_spec (Storage.getRetryBackoff st) 0) as [E0|N0];
    destruct (Z.ltb_spec 0 (Storage.getRetryBackoff st)) as [Hp|Hn];
    cbn [negb andb];
    try (destruct (_ <? CHECK_TIMEOUT); cbn [answer]; [|discriminate];
         intros H; right; apply (Hsp _ _ H)).
  destruct (Z.ltb_spec (t0 + Z.of_N d1 + Z.of_N d2)
              (toNumber (Storage.getLastRequestTime st) + Storage.getRetryBackoff st))
    as [Hopen|Hover].
  - destruct (_ <? CHECK_TIMEOUT); cbn [answer storageAfter]; [|discriminate].
    intros H. left. repeat split; try assumption; congruence.
  - destruct t3 as [d3|d3|]; cbn; try (destruct (_ <? _); cbn; discriminate);
      try discriminate.
    destruct (_ <? CHECK_TIMEOUT); cbn [answer]; [|discriminate].
    intros H; right; apply (Hsp _ _ H).
Qed.

(** X2. With a persisted state that satisfies its invariant and a clock
    that is not behind the last request, getRemainingCooldown is between 0
    and 300000 ms, and it is 0 exactly when the gate allows. *)
Theorem getRemainingCooldown_bounds (tm : StorageTiming) (t0 : Z) (st : LocalStorage) :
  RateLimitState_inv st ->
  0 <= t0 ->
  (forall t, lastRequestTime st = Some t -> t <= t0) ->
  0 <= getRemainingCooldown tm t0 st <= 300000
  /\ (getRemainingCooldown tm t0 st = 0
      <-> allowed (answer (canMakeRequest tm t0 st)) = true).
Proof.
  intros Hinv H0 Hclock. unfold getRemainingCooldown.
  destruct (answer (canMakeRequest tm t0 st)) as [| | |ms reason] eqn:E;
    try (split; [lia | split; reflexivity]).
  pose proof (canMakeRequest_denied_positive tm t0 st ms reason E) as Hpos.
  destruct (canMakeRequest_denied_cases tm t0 st ms reason E)
    as (d1 & d2 & _ & _ & Hcases).
  cbv zeta in Hcases.
  rewrite (getLastRequestTime_inv st Hinv) in Hcases.
  pose proof (N2Z.is_nonneg d1). pose proof (N2Z.is_nonneg d2).
  destruct Hinv as [Hb _].
  split; [|cbn; split; [lia|discriminate]].
  destruct Hcases as [(_ & Hbp & _ & -> & _) | (_ & t & Ht & _ & ->)].
  - unfold Storage.getRetryBackoff in *.
    destruct (retryBackoff st) as [b|] eqn:Eb; [|lia].
    assert (b <= 300000) by (destruct (Hb b eq_refl) as [?|[?|[?|?]]]; lia).
    destruct (lastRequestTime st) as [t|] eqn:Et; cbn [toNumber] in *.
    + specialize (Hclock t eq_refl). lia.
    + lia.
  - specialize (Hclock t Ht). lia.
Qed.

Lemma getRemainingCooldown_bounds_witness :
  RateLimitState_inv Scene.recentRequest
  /\ 0 <= 1700000001000
  /\ (forall t, lastRequestTime Scene.recentRequest = Some t -> t <= 1700000001000)
  /\ 0 <= getRemainingCooldown Sample.promptStorage 1700000001000 Scene.recentRequest
     <= 300000.
Proof.
  assert (H1 : RateLimitState_inv Scene.recentRequest).
  { split; [discriminate|]. intros t [= <-]. reflexivity. }
  assert (H2 : 0 <= 1700000001000) by lia.
  assert (H3 : forall t, lastRequestTime Scene.recentRequest = Some t ->
                         t <= 1700000001000).
  { intros t [= <-]. lia. }
  split; [exact H1|]. split; [exact H2|]. split; [exact H3|].
  exact (proj1 (getRemainingCooldown_bounds Sample.promptStorage 1700000001000
                  Scene.recentRequest H1 H2 H3)).
Defined.

(** X3. Whatever calls are made on the rate limiter, in whatever order and
    with whatever storage delays, the persisted state keeps its invariant,
    provided the clock read by recordRequest is after the epoch: a stored
    backoff is always 60000, 120000, 240000 or 300000. *)
Theorem performAll_keeps_invariant (ops : list Operation) (st : LocalStorage) :
  (forall now, In (DoRecordRequest now) ops -> 0 < now) ->
  RateLimitState_inv st ->
  RateLimitState_inv (performAll ops st).
Proof.
  unfold performAll. revert st.
  induction ops as [|op ops IH]; intros st Hclock Hinv; [exact Hinv|].
  cbn [fold_left]. apply IH.
  - intros now Hin. apply Hclock. right. exact Hin.
  - destruct op as [tm t0|now| |]; cbn [perform].
    + apply canMakeRequest_inv. exact Hinv.
    + apply recordRequest_inv; [|exact Hinv]. apply Hclock. left. reflexivity.
    + apply recordSuccess_inv. exact Hinv.
    + apply recordRateLimitError_inv. exact Hinv.
Qed.

Lemma performAll_keeps_invariant_witness :
  (forall now,
     In (DoRecordRequest now)
        [DoRecordRequest 1700000000000; DoRecordRateLimitError;
         DoRecordRateLimitError; DoCanMakeRequest Sample.promptStorage 1700000500000]
     -> 0 < now)
  /\ RateLimitState_inv emptyStorage
  /\ RateLimitState_inv
       (performAll
          [DoRecordRequest 1700000000000; DoRecordRateLimitError;
           DoRecordRateLimitError; DoCanMakeRequest Sample.promptStorage 1700000500000]
          emptyStorage).
Proof.
  assert (H1 : forall now,
     In (DoRecordRequest now)
        [DoRecordRequest 1700000000000; DoRecordRateLimitError;
         DoRecordRateLimitError; DoCanMakeRequest Sample.promptStorage 1700000500000]
     -> 0 < now).
  { intros now [H|[H|[H|[H|[]]]]]; try discriminate. injection H as <-. lia. }
  split; [exact H1|]. split; [exact RateLimitState_inv_empty|].
  exact (performAll_keeps_invariant _ emptyStorage H1 RateLimitState_inv_empty).
Defined.

(** X4. canMakeRequest never stamps a request and never touches the key: of
    the persisted state it can only remove the backoff, and it removes it
    only when all three storage calls fulfil and the stored backoff window
    is over at the time of the check. *)
Theorem canMakeRequest_only_clears_expired (tm : StorageTiming) (t0 : Z)
    (st : LocalStorage) :
  let st' := storageAfter (canMakeRequest tm t0 st) in
  lastRequestTime st' = lastRequestTime st
  /\ geminiApiKey st' = geminiApiKey st
  /\ onboardingComplete st' = onboardingComplete st
  /\ (st' = st
      \/ (retryBackoff st' = None
          /\ exists b d1 d2 d3,
               tm = mkTiming (Fulfils d1) (Fulfils d2) (Fulfils d3)
               /\ retryBackoff st = Some b /\ 0 < b
               /\ toNumber (Storage.getLastRequestTime st) + b
                  <= t0 + Z.of_N d1 + Z.of_N d2)).
Proof.
  intros st'.
  assert (Hfields : lastRequestTime st' = lastRequestTime st
                    /\ geminiApiKey st' = geminiApiKey st
                    /\ onboardingComplete st' = onboardingComplete st).
  { unfold st'. destruct (canMakeRequest_storage tm t0 st) as [ -> | -> ];
      repeat split; reflexivity. }
  destruct Hfields as (H1 & H2 & H3).
  split; [exact H1|]. split; [exact H2|]. split; [exact H3|].
  unfold st'. clear.
  destruct tm as [[d1|d1|] [d2|d2|] [d3|d3|]];
    try (left; unfold canMakeRequest, checkPromise, bind, awaitRead, awaitWrite,
           Date_now, ret; cbn;
         repeat match goal with
                | |- context [if ?c then _ else _] => destruct c; cbn
                end; reflexivity).
  unfold canMakeRequest. rewrite checkPromise_fulfils. cbv zeta.
  replace (t0 + (0 + Z.of_N d1 + Z.of_N d2)) with (t0 + Z.of_N d1 + Z.of_N d2) by lia.
  destruct (Z.eqb_spec (Storage.getRetryBackoff st) 0) as [E0|N0];
    destruct (Z.ltb_spec 0 (Storage.getRetryBackoff st)) as [Hp|Hn];
    cbn [negb andb];
    try (left; destruct (_ <? CHECK_TIMEOUT); reflexivity).
  destruct (Z.ltb_spec (t0 + Z.of_N d1 + Z.of_N d2)
              (toNumber (Storage.getLastRequestTime st) + Storage.getRetryBackoff st))
    as [Hopen|Hover].
  - left. destruct (_ <? CHECK_TIMEOUT); reflexivity.
  - destruct (_ <? CHECK_TIMEOUT); cbn [storageAfter]; [|left; reflexivity].
    right. split; [reflexivity|].
    unfold Storage.getRetryBackoff in *.
    destruct (retryBackoff st) as [b|]; [|lia].
    exists b, d1, d2, d3. repeat split; assumption.
Qed.

Lemma waited_nonneg tm t0 st : 0 <= waited (canMakeRequest tm t0 st).
Proof.
  unfold canMakeRequest, checkPromise, bind, awaitRead,
    awaitWrite, Date_now, ret, CHECK_TIMEOUT.
  destruct tm as [[d1|d1|] [d2|d2|] [d3|d3|]]; cbn;
    try pose proof (N2Z.is_nonneg d1);
    try pose proof (N2Z.is_nonneg d2);
    try pose proof (N2Z.is_nonneg d3);
    repeat match goal with
           | |- context [if ?c then _ else _] => destruct c; cbn
           end; lia.
Qed.

Lemma spacingCheck_allowed last now :
  (forall t, last = Some t -> 4000 <= now - t) ->
  spacingCheck last now = Allowed.
Proof.
  intros H. unfold spacingCheck, MIN_REQUEST_DELAY. destruct last as [t|]; [|reflexivity].
  cbv zeta. specialize (H t eq_refl). destruct (Z.ltb_spec (now - t) 4000); [lia|reflexivity].
Qed.

(** A gate that can only allow: the spacing is respected and no backoff
    window is open when the clock is read. *)
Lemma canMakeRequest_allows tm t0 st :
  (forall t, Storage.getLastRequestTime st = Some t -> 4000 <= t0 - t) ->
  (0 < Storage.getRetryBackoff st ->
   toNumber (Storage.getLastRequestTime st) + Storage.getRetryBackoff st <= t0) ->
  allowed (answer (canMakeRequest tm t0 st)) = true.
Proof.
  intros Hsp Hb.
  destruct (answer (canMakeRequest tm t0 st)) as [| | |ms reason] eqn:E;
    try reflexivity.
  exfalso.
  destruct (canMakeRequest_denied_cases tm t0 st ms reason E)
    as (d1 & d2 & _ & _ & Hcases).
  cbv zeta in Hcases.
  pose proof (N2Z.is_nonneg d1). pose proof (N2Z.is_nonneg d2).
  destruct Hcases as [(_ & Hpos & Hopen & _) | (_ & t & Ht & Hsoon & _)].
  - specialize (Hb Hpos). lia.
  - specialize (Hsp t Ht). lia.
Qed.

(** After a denial for spacing no backoff window is left in the storage. *)
Lemma spacing_denial_leaves_no_backoff tm t0 st ms :
  answer (canMakeRequest tm t0 st) = Denied ms rate_limit ->
  Storage.getRetryBackoff (storageAfter (canMakeRequest tm t0 st)) <= 0.
Proof.
  unfold canMakeRequest, checkPromise, bind, awaitRead, awaitWrite, Date_now, ret.
  destruct tm as [[d1|d1|] [d2|d2|] t3];
    cbn [t_getLastRequestTime t_getRetryBackoff t_clearRetryBackoff];
    try (destruct (_ <? CHECK_TIMEOUT); cbn [answer]; discriminate);
    try (cbn [answer]; discriminate).
  destruct (Z.eqb_spec (Storage.getRetryBackoff st) 0) as [E0|N0];
    destruct (Z.ltb_spec 0 (Storage.getRetryBackoff st)) as [Hp|Hn];
    cbn [negb andb];
    try (destruct (_ <? CHECK_TIMEOUT); cbn [answer storageAfter];
         [intros _; lia | discriminate]).
  destruct (_ <? _ + _).
  - destruct (_ <? CHECK_TIMEOUT); cbn [answer]; discriminate.
  - destruct t3 as [d3|d3|].
    + destruct (_ <? CHECK_TIMEOUT); cbn [answer storageAfter]; [|discriminate].
      intros _. cbn. lia.
    + destruct (_ <? CHECK_TIMEOUT); cbn [answer]; discriminate.
    + cbn [answer]; discriminate.
Qed.

(** X5. The wait a denial reports is long enough: on a state that satisfies
    its invariant, a check started once that wait is over is never denied,
    whether the denial was for the spacing or for a backoff window, and
    however the storage then behaves. *)
Theorem retry_after_cooldown_is_allowed (tm tm' : StorageTiming) (t0 t' : Z)
    (st : LocalStorage) (ms : Z) (reason : Reason) :
  RateLimitState_inv st ->
  answer (canMakeRequest tm t0 st) = Denied ms reason ->
  t0 + waited (canMakeRequest tm t0 st) + ms <= t' ->
  allowed (answer (canMakeRequest tm' t' (storageAfter (canMakeRequest tm t0 st))))
  = true.
Proof.
  intros Hinv Hden Hlate.
  destruct (canMakeRequest_denied_cases tm t0 st ms reason Hden)
    as (d1 & d2 & Ht1 & Ht2 & Hcases).
  cbv zeta in Hcases.
  pose proof (N2Z.is_nonneg d1). pose proof (N2Z.is_nonneg d2).
  pose proof (waited_nonneg tm t0 st) as Hw.
  assert (Hwait : Z.of_N d1 + Z.of_N d2 <= waited (canMakeRequest tm t0 st)).
  { revert Hden. unfold canMakeRequest.
    destruct tm as [r1 r2 r3]. cbn [t_getLastRequestTime t_getRetryBackoff] in Ht1, Ht2.
    subst r1 r2.
    destruct r3 as [d3|d3|].
    - rewrite checkPromise_fulfils. cbv zeta.
      pose proof (N2Z.is_nonneg d3).
      repeat match goal with
             | |- context [if ?c then _ else _] => destruct c; cbn [answer waited]
             end; try discriminate; intros _; lia.
    - unfold checkPromise, bind, awaitRead, awaitWrite, Date_now, ret.
      cbn [t_getLastRequestTime t_getRetryBackoff t_clearRetryBackoff].
      repeat match goal with
             | |- context [if ?c then _ else _] => destruct c; cbn [answer waited]
             end; try discriminate; intros _; lia.
    - unfold checkPromise, bind, awaitRead, awaitWrite, Date_now, ret.
      cbn [t_getLastRequestTime t_getRetryBackoff t_clearRetryBackoff].
      repeat match goal with
             | |- context [if ?c then _ else _] => destruct c; cbn [answer waited]
             end; try discriminate; intros _; lia. }
  assert (Hlast : Storage.getLastRequestTime (storageAfter (canMakeRequest tm t0 st))
                 = Storage.getLastRequestTime st).
  { destruct (canMakeRequest_storage tm t0 st) as [ -> | -> ]; reflexivity. }
  apply canMakeRequest_allows; rewrite Hlast.
  - intros t Ht.
    destruct Hcases as [(_ & Hpos & _ & -> & _) | (_ & t1 & Ht1' & _ & ->)].
    + rewrite Ht in *. cbn [toNumber] in *.
      destruct Hinv as [Hb _]. unfold Storage.getRetryBackoff in *.
      destruct (retryBackoff st) as [b|]; [|lia].
      destruct (Hb b eq_refl) as [?|[?|[?|?]]]; lia.
    + assert (t1 = t) by congruence. subst t1. lia.
  - intros Hpos.
    destruct Hcases as [(_ & _ & _ & -> & Hsame) | (-> & _)].
    + rewrite Hsame in *. lia.
    + pose proof (spacing_denial_leaves_no_backoff tm t0 st ms Hden). lia.
Qed.

End RateLimiterMore.

Lemma retry_after_cooldown_is_allowed_witness :
  RateLimiter.RateLimitState_inv Scene.recentRequest
  /\ RateLimiter.answer
       (RateLimiter.canMakeRequest Sample.promptStorage 1700000001000
          Scene.recentRequest) = Denied 3000 rate_limit
  /\ allowed
       (RateLimiter.answer
          (RateLimiter.canMakeRequest Sample.promptStorage 1700000004000
             (RateLimiter.storageAfter
                (RateLimiter.canMakeRequest Sample.promptStorage 1700000001000
                   Scene.recentRequest)))) = true.
Proof.
  assert (H1 : RateLimiter.RateLimitState_inv Scene.recentRequest).
  { split; [discriminate|]. intros t [= <-]. reflexivity. }
  assert (H2 : RateLimiter.answer
                 (RateLimiter.canMakeRequest Sample.promptStorage 1700000001000
                    Scene.recentRequest) = Denied 3000 rate_limit) by reflexivity.
  split; [exact H1|]. split; [exact H2|].
  apply (retry_after_cooldown_is_allowed Sample.promptStorage Sample.promptStorage
           1700000001000 1700000004000 Scene.recentRequest 3000 rate_limit H1 H2).
  vm_compute. discriminate.
Defined.

(** ** The relay, continued *)

Section RelayMore.

Variable JSON_parse : jsstring -> option json.
Variable otherToString : json -> jsstring.

Local Abbreviation streamGeminiResponse :=
  (GeminiApi.streamGeminiResponse JSON_parse otherToString).

(** The relay calls fetch exactly when its gate allows.  A denied gate ends
    the generator at once with the RATE_LIMITED error that carries the
    remaining wait, and stamps no request; an allowed gate stamps the time of
    the call as the last request, whatever the upstream then answers. *)
Lemma streamGeminiResponse_gate (tm : StorageTiming) (t0 : Z)
    (upstream : FetchOutcome) (st : LocalStorage) :
  let gate := RateLimiter.canMakeRequest tm t0 st in
  let run := streamGeminiResponse tm t0 upstream st in
  fetched run = allowed (RateLimiter.answer gate)
  /\ match RateLimiter.answer gate with
     | Denied remainingMs reason =>
         generated run
         = mkGenerated [] (Threw (GeminiApi.deniedMessage remainingMs reason))
         /\ storageLeft run = RateLimiter.storageAfter gate
     | _ =>
         lastRequestTime (storageLeft run)
         = Some (t0 + RateLimiter.waited gate)
     end.
Proof.
  intros gate run. unfold run, GeminiApi.streamGeminiResponse. fold gate.
  destruct (RateLimiter.answer gate); cbn [allowed];
    try (split; [reflexivity | split; reflexivity]);
    (destruct upstream as [m|response]; [split; reflexivity|]);
    (destruct (negb (GeminiApi.ok response)); [|split; reflexivity]);
    unfold GeminiApi.rejectResponse;
    (destruct (status response =? 400); [split; reflexivity|]);
    (destruct (status response =? 429); split; reflexivity).
Qed.

(** With responsive storage the gate denies within 4000 ms of the last
    request, whatever backoff is stored. *)
Lemma canMakeRequest_denies_soon st T t0 d1 d2 d3 :
  lastRequestTime st = Some T -> T <> 0 ->
  t0 + Z.of_N d1 + Z.of_N d2 - T < 4000 ->
  Z.of_N d1 + Z.of_N d2 + Z.of_N d3 < 2000 ->
  allowed (RateLimiter.answer
             (RateLimiter.canMakeRequest
                (mkTiming (Fulfils d1) (Fulfils d2) (Fulfils d3)) t0 st)) = false.
Proof.
  intros HT Hnz Hsoon Hfast.
  pose proof (N2Z.is_nonneg d1). pose proof (N2Z.is_nonneg d2).
  pose proof (N2Z.is_nonneg d3).
  unfold RateLimiter.canMakeRequest. rewrite checkPromise_fulfils. cbv zeta.
  replace (t0 + (0 + Z.of_N d1 + Z.of_N d2)) with (t0 + Z.of_N d1 + Z.of_N d2) by lia.
  assert (Hlast : Storage.getLastRequestTime st = Some T).
  { unfold Storage.getLastRequestTime. rewrite HT.
    destruct (Z.eqb_spec T 0); [contradiction|reflexivity]. }
  assert (Hsp : RateLimiter.spacingCheck (Storage.getLastRequestTime st)
                  (t0 + Z.of_N d1 + Z.of_N d2)
                = Denied (4000 - (t0 + Z.of_N d1 + Z.of_N d2 - T)) rate_limit).
  { rewrite Hlast. unfold RateLimiter.spacingCheck, RateLimiter.MIN_REQUEST_DELAY.
    cbv zeta. destruct (Z.ltb_spec (t0 + Z.of_N d1 + Z.of_N d2 - T) 4000); [reflexivity|lia]. }
  rewrite Hsp. unfold RateLimiter.CHECK_TIMEOUT.
  destruct (negb (Storage.getRetryBackoff st =? 0) && (0 <? Storage.getRetryBackoff st)).
  - destruct (_ <? _ + _).
    + destruct (Z.ltb_spec (0 + Z.of_N d1 + Z.of_N d2) 2000); [reflexivity|lia].
    + destruct (Z.ltb_spec (0 + Z.of_N d1 + Z.of_N d2 + Z.of_N d3) 2000);
        [reflexivity|lia].
  - destruct (Z.ltb_spec (0 + Z.of_N d1 + Z.of_N d2) 2000); [reflexivity|lia].
Qed.

(** X6. The spacing of 4000 ms holds between runs of the relay that follow
    each other, not between runs that overlap.  After a run that called
    fetch, whatever the upstream answered, a run that starts later, reads the
    stamp of that call with responsive storage and reads the clock less than
    4000 ms after the call is denied and calls nothing, whatever backoff is
    stored.  But a run whose gate reads the storage as it was before any
    request was stamped calls fetch too, however close the two runs are. *)
Theorem relay_spaces_upstream_calls (tm1 tm2 : StorageTiming) (t1 : Z)
    (upstream1 upstream2 : FetchOutcome) (st st2 : LocalStorage)
    (t2 : Z) (d1 d2 d3 : N) :
  let run1 := streamGeminiResponse tm1 t1 upstream1 st in
  let called := t1 + RateLimiter.waited (RateLimiter.canMakeRequest tm1 t1 st) in
  0 < t1 ->
  fetched run1 = true ->
  (called <= t2 ->
   lastRequestTime st2 = lastRequestTime (storageLeft run1) ->
   Z.of_N d1 + Z.of_N d2 + Z.of_N d3 < 2000 ->
   t2 + Z.of_N d1 + Z.of_N d2 - called < 4000 ->
   fetched (streamGeminiResponse (mkTiming (Fulfils d1) (Fulfils d2) (Fulfils d3))
              t2 upstream2 st2) = false)
  /\ (lastRequestTime st = None -> retryBackoff st = None ->
      fetched (streamGeminiResponse tm2 t2 upstream2 st) = true).
Proof.
  intros run1 called Ht1 Hf. split.
  - intros Hafter Hst2 Hfast Hsoon.
    destruct (streamGeminiResponse_gate tm1 t1 upstream1 st) as [Hfa Hst].
    fold run1 in Hfa, Hst. rewrite Hf in Hfa.
    assert (Hlast : lastRequestTime (storageLeft run1) = Some called).
    { destruct (RateLimiter.answer (RateLimiter.canMakeRequest tm1 t1 st));
        try exact Hst. discriminate Hfa. }
    pose proof (waited_nonneg tm1 t1 st) as Hw.
    destruct (streamGeminiResponse_gate (mkTiming (Fulfils d1) (Fulfils d2) (Fulfils d3))
                t2 upstream2 st2) as [Hfa2 _].
    rewrite Hfa2.
    apply (canMakeRequest_denies_soon _ called); auto; [congruence|].
    unfold called. lia.
  - intros Hnone Hnob.
    destruct (streamGeminiResponse_gate tm2 t2 upstream2 st) as [Hfa2 _].
    rewrite Hfa2. apply canMakeRequest_allows.
    + unfold Storage.getLastRequestTime. rewrite Hnone. discriminate.
    + unfold Storage.getRetryBackoff. rewrite Hnob. lia.
Qed.

(** X7. After an upstream 429 the relay keeps away for the whole backoff,
    when its runs follow each other: with a persisted state that satisfies
    its invariant and a first gate whose storage calls all fulfil within
    2000 ms, the throttled run stores the time of its call and a backoff
    between 60000 and 300000 ms; and a run that starts later, reads that
    stamp and that backoff with responsive storage, and reads the clock
    before the end of the window (the time of the throttled call plus the
    backoff) is denied with the remaining time, calls nothing and writes
    nothing.  A run that overlaps the throttled one reads an earlier storage
    and is not held back by it. *)
Theorem relay_backs_off_after_429 (a1 a2 a3 : N) (t1 : Z)
    (response : Response) (upstream2 : FetchOutcome) (st st2 : LocalStorage)
    (t2 : Z) (d1 d2 d3 : N) :
  let tm1 := mkTiming (Fulfils a1) (Fulfils a2) (Fulfils a3) in
  let run1 := streamGeminiResponse tm1 t1 (FetchResolves response) st in
  let called := t1 + RateLimiter.waited (RateLimiter.canMakeRequest tm1 t1 st) in
  let now2 := t2 + Z.of_N d1 + Z.of_N d2 in
  RateLimiter.RateLimitState_inv st ->
  0 < t1 ->
  Z.of_N a1 + Z.of_N a2 + Z.of_N a3 < 2000 ->
  fetched run1 = true ->
  status response = 429 ->
  called <= t2 ->
  Z.of_N d1 + Z.of_N d2 + Z.of_N d3 < 2000 ->
  exists b,
    retryBackoff (storageLeft run1) = Some b
    /\ lastRequestTime (storageLeft run1) = Some called
    /\ 60000 <= b <= 300000
    /\ (lastRequestTime st2 = Some called ->
        retryBackoff st2 = Some b ->
        now2 < called + b ->
        streamGeminiResponse (mkTiming (Fulfils d1) (Fulfils d2) (Fulfils d3))
          t2 upstream2 st2
        = mkRun (mkGenerated []
                   (Threw (GeminiApi.deniedMessage (called + b - now2) backoff)))
            false st2).
Proof.
  intros tm1 run1 called now2 Hinv Ht1 Hfast1 Hf H429 Hafter Hfast.
  pose proof (waited_nonneg tm1 t1 st) as Hw.
  pose proof (canMakeRequest_inv tm1 t1 st Hinv) as Hinv1.
  set (gate1 := RateLimiter.canMakeRequest tm1 t1 st) in *.
  pose proof (recordRequest_inv called (RateLimiter.storageAfter gate1)
                ltac:(unfold called; lia) Hinv1) as Hinv2.
  pose proof (recordRateLimitError_inv _ Hinv2) as Hinv3.
  assert (Hrun : storageLeft run1
                 = snd (RateLimiter.recordRateLimitError
                          (RateLimiter.recordRequest called
                             (RateLimiter.storageAfter gate1)))).
  { destruct (streamGeminiResponse_gate tm1 t1 (FetchResolves response) st) as [Hfa _].
    fold run1 gate1 in Hfa. rewrite Hf in Hfa.
    unfold run1, GeminiApi.streamGeminiResponse. fold gate1.
    assert (Hok : GeminiApi.ok response = false).
    { unfold GeminiApi.ok. rewrite H429. reflexivity. }
    destruct (RateLimiter.answer gate1); try discriminate Hfa;
      rewrite Hok; cbn [negb]; unfold GeminiApi.rejectResponse; rewrite H429;
      cbn [Z.eqb Pos.eqb]; destruct (RateLimiter.recordRateLimitError _);
      reflexivity. }
  rewrite Hrun in *.
  set (st3 := snd (RateLimiter.recordRateLimitError
                     (RateLimiter.recordRequest called
                        (RateLimiter.storageAfter gate1)))) in *.
  assert (Hlast : lastRequestTime st3 = Some called) by reflexivity.
  destruct (retryBackoff st3) as [b|] eqn:Eb; [|discriminate Eb].
  assert (Hb : 60000 <= b <= 300000).
  { destruct Hinv3 as [Hset _]. destruct (Hset b Eb) as [?|[?|[?|?]]]; lia. }
  exists b. split; [reflexivity|]. split; [reflexivity|]. split; [exact Hb|].
  intros Hlast2 Hb2 Hopen.
  pose proof (N2Z.is_nonneg d1). pose proof (N2Z.is_nonneg d2).
  unfold GeminiApi.streamGeminiResponse, RateLimiter.canMakeRequest.
  rewrite checkPromise_fulfils. cbv zeta.
  unfold Storage.getLastRequestTime, Storage.getRetryBackoff.
  rewrite Hlast2, Hb2.
  destruct (Z.eqb_spec called 0); [unfold called in *; lia|].
  cbn [RateLimiter.toNumber].
  replace (t2 + (0 + Z.of_N d1 + Z.of_N d2)) with now2 by (unfold now2; lia).
  destruct (Z.eqb_spec b 0); [lia|]. destruct (Z.ltb_spec 0 b); [|lia].
  cbn [negb andb]. destruct (Z.ltb_spec now2 (called + b)); [|lia].
  unfold RateLimiter.CHECK_TIMEOUT.
  destruct (Z.ltb_spec (0 + Z.of_N d1 + Z.of_N d2) 2000); [|lia].
  reflexivity.
Qed.

(** *** The port handler on a port that closes *)

Lemma forAwait_closing chunks : forall n,
  Background.forAwait (ClosesAfter n) chunks
  = (map Chunk (firstn n chunks),
     if (List.length chunks <=? n)%nat
     then Some (ClosesAfter (n - List.length chunks)) else None).
Proof.
  induction chunks as [|c chunks IH]; intros n.
  - cbn. rewrite firstn_nil, Nat.sub_0_r. reflexivity.
  - destruct n as [|n]; [reflexivity|].
    cbn [Background.forAwait Background.postMessage]. rewrite IH. reflexivity.
Qed.

(** X8. When the far end of the port goes away after n messages, the relay
    has delivered exactly the first n of the messages it would have
    delivered on a port that stays: nothing is sent out of order or twice,
    and nothing after the port has gone. *)
Theorem closing_port_delivers_prefix (n : nat) (g : Generated) :
  Background.onMessage (ClosesAfter n) g
  = firstn n (Background.onMessage StaysConnected g).
Proof.
  rewrite onMessage_connected. unfold Background.onMessage.
  rewrite forAwait_closing, firstn_app, length_map, firstn_map.
  destruct (Nat.leb_spec (List.length (yields g)) n) as [Hle|Hgt].
  - destruct (n - List.length (yields g))%nat as [|k] eqn:E;
      cbn [Background.postMessage firstn].
    + rewrite app_nil_r. reflexivity.
    + rewrite firstn_nil. reflexivity.
  - replace (n - List.length (yields g))%nat with 0%nat by lia.
    cbn [firstn]. rewrite app_nil_r. reflexivity.
Qed.

(** *** What the generator yields *)

Lemma forLines_truthy lines :
  Forall (fun t => Json.truthy t = true) (fst (GeminiApi.forLines JSON_parse lines)).
Proof.
  induction lines as [|line lines IH]; cbn [GeminiApi.forLines]; [constructor|].
  unfold GeminiApi.processLine.
  destruct (startsWith line (lit "data: ")); [|exact IH].
  destruct (JS.eqb _ _); [constructor|].
  destruct (JSON_parse _) as [j|]; [|exact IH].
  assert (Hnext : forall text,
            (if Json.truthy text then Yielded text else Skipped) = Skipped
            \/ ((if Json.truthy text then Yielded text else Skipped) = Yielded text
                /\ Json.truthy text = true)).
  { intros text. destruct (Json.truthy text); auto. }
  destruct j; try exact IH;
    (destruct (GeminiApi.candidateText _) as [text|]; [|exact IH];
     destruct (Hnext text) as [ -> | [ -> Ht ] ]; [exact IH|];
     destruct (GeminiApi.forLines JSON_parse lines); constructor; assumption).
Qed.

Lemma readLoop_truthy ending values : forall decoder buffer,
  Forall (fun t => Json.truthy t = true)
    (yields (GeminiApi.readLoop JSON_parse decoder buffer values ending)).
Proof.
  induction values as [|value rest IH]; intros decoder buffer;
    cbn [GeminiApi.readLoop].
  - destruct ending; constructor.
  - destruct (TextDecoder.decode decoder value) as [decoder' text].
    pose proof (forLines_truthy (removelast (split 10%N (buffer ++ text)))) as Hl.
    destruct (GeminiApi.forLines JSON_parse _) as [ys [|]]; [exact Hl|].
    cbn [yields]. apply Forall_app. split; [exact Hl | apply IH].
Qed.

(** X9. The relay never yields an empty piece of text: whatever the
    upstream sends, every text it yields is truthy (a string that is not
    empty, when it is a string), so one chunk is enough for the controller
    to have text accumulated. *)
Theorem relay_yields_only_truthy (tm : StorageTiming) (t0 : Z)
    (upstream : FetchOutcome) (st : LocalStorage) :
  Forall (fun t => Json.truthy t = true
                   /\ forall s, t = JString s ->
                                Json.ToString otherToString t <> [])
    (yields (generated (streamGeminiResponse tm t0 upstream st))).
Proof.
  assert (H : Forall (fun t => Json.truthy t = true)
                (yields (generated (streamGeminiResponse tm t0 upstream st)))).
  { unfold GeminiApi.streamGeminiResponse.
    destruct (RateLimiter.answer _); try constructor;
      (destruct upstream as [m|response]; [constructor|]);
      (destruct (negb (GeminiApi.ok response));
       [destruct (GeminiApi.rejectResponse _ _ _ _); constructor
       | apply readLoop_truthy]). }
  eapply Forall_impl; [|exact H].
  intros t Ht. split; [exact Ht|]. intros s ->. cbn in *.
  destruct s; [discriminate|discriminate].
Qed.

(** The controller reads the throttle error of the relay back as its wait
    and its text. *)
Lemma catchError_throttled ms why :
  0 <= ms ->
  Content.catchError (lit "RATE_LIMITED:" ++ Number_toString ms ++ lit ":" ++ why)
  = Content.showError why false (Some ms).
Proof.
  intros Hms.
  set (encoded := lit "RATE_LIMITED:" ++ Number_toString ms ++ lit ":" ++ why).
  assert (Hparts : split 58%N encoded
                   = lit "RATE_LIMITED" :: Number_toString ms :: split 58%N why).
  { unfold encoded.
    change (lit "RATE_LIMITED:" ++ Number_toString ms ++ lit ":" ++ why)
      with (lit "RATE_LIMITED" ++ 58%N :: (Number_toString ms ++ 58%N :: why)).
    rewrite split_first_piece by (repeat constructor; discriminate).
    rewrite split_first_piece; [reflexivity|].
    unfold Number_toString. destruct (Z.ltb_spec ms 0); [lia|].
    apply digits_no_colon. }
  unfold Content.catchError.
  replace (JS.eqb encoded (lit "INVALID_KEY")) with false by reflexivity.
  replace (startsWith encoded (lit "RATE_LIMITED:")) with true
    by (symmetry; apply startsWith_app).
  unfold Content.rateLimitedError. rewrite Hparts.
  pose proof (split_nonempty 58%N why) as Hne.
  destruct (split 58%N why) as [|p ps] eqn:Es; [contradiction|].
  cbn [List.length Nat.leb nth skipn].
  rewrite parseInt10_toString by exact Hms.
  rewrite <- Es, join_split. reflexivity.
Qed.

(** X10. When the relay throttles a request, the countdown the controller
    shows is the wait the rate limiter gave: the remaining time of a denied
    gate, or, after an upstream 429 on a state that satisfies its invariant,
    the backoff that was just stored. *)
Theorem throttle_reaches_countdown (tm : StorageTiming) (t0 : Z)
    (upstream : FetchOutcome) (st : LocalStorage) (v0 : View) :
  let gate := RateLimiter.canMakeRequest tm t0 st in
  let run := streamGeminiResponse tm t0 upstream st in
  let shown :=
    Content.afterStream
      (Content.consume otherToString (mkStream [] false None v0)
         (map Message (Background.onMessage StaysConnected (generated run)))) in
  (forall ms reason,
     RateLimiter.answer gate = Denied ms reason ->
     exists message, shown = ErrorView message false (Some ms))
  /\ (RateLimiter.RateLimitState_inv st -> 0 < t0 ->
      allowed (RateLimiter.answer gate) = true ->
      (exists response, upstream = FetchResolves response /\ status response = 429) ->
      exists message backoffMs,
        retryBackoff (storageLeft run) = Some backoffMs
        /\ shown = ErrorView message false (Some backoffMs)).
Proof.
  intros gate run shown.
  assert (Hshown : forall ms why,
            0 < ms ->
            generated run
            = mkGenerated [] (Threw (lit "RATE_LIMITED:" ++ Number_toString ms
                                     ++ lit ":" ++ why)) ->
            shown = ErrorView why false (Some ms)).
  { intros ms why Hpos Hg. unfold shown. rewrite onMessage_connected, Hg.
    cbn [yields termination map app Content.consume fold_left].
    unfold Content.onPortEvent at 1. cbn [settled aborted accumulated view].
    unfold Content.afterStream. cbn [settled aborted].
    rewrite (catchError_throttled ms why) by lia. unfold Content.showError.
    destruct (Z.ltb_spec 0 ms); [reflexivity|lia]. }
  split.
  - intros ms reason Hg.
    pose proof (canMakeRequest_denied_positive tm t0 st ms reason Hg) as Hpos.
    destruct (streamGeminiResponse_gate tm t0 upstream st) as [_ Hrun].
    fold gate run in Hrun. rewrite Hg in Hrun. destruct Hrun as [Hgen _].
    eexists. apply (Hshown ms); [exact Hpos|]. rewrite Hgen.
    unfold GeminiApi.deniedMessage. reflexivity.
  - intros Hinv Ht0 Hallowed (response & -> & H429).
    pose proof (waited_nonneg tm t0 st) as Hw. fold gate in Hw.
    pose proof (canMakeRequest_inv tm t0 st Hinv) as Hinv1. fold gate in Hinv1.
    pose proof (recordRequest_inv (t0 + RateLimiter.waited gate)
                  (RateLimiter.storageAfter gate) ltac:(lia) Hinv1) as Hinv2.
    pose proof (recordRateLimitError_inv _ Hinv2) as [Hset _].
    assert (Hok : GeminiApi.ok response = false).
    { unfold GeminiApi.ok. rewrite H429. reflexivity. }
    assert (Hrun : run
              = mkRun (mkGenerated []
                         (Threw (GeminiApi.throttledMessage
                                   (fst (RateLimiter.recordRateLimitError
                                           (RateLimiter.recordRequest
                                              (t0 + RateLimiter.waited gate)
                                              (RateLimiter.storageAfter gate)))))))
                  true
                  (snd (RateLimiter.recordRateLimitError
                          (RateLimiter.recordRequest
                             (t0 + RateLimiter.waited gate)
                             (RateLimiter.storageAfter gate))))).
    { unfold run, GeminiApi.streamGeminiResponse. fold gate.
      destruct (RateLimiter.answer gate); try discriminate Hallowed;
        rewrite Hok; cbn [negb]; unfold GeminiApi.rejectResponse; rewrite H429;
        cbn [Z.eqb Pos.eqb]; destruct (RateLimiter.recordRateLimitError _);
        reflexivity. }
    set (st2 := RateLimiter.recordRequest (t0 + RateLimiter.waited gate)
                  (RateLimiter.storageAfter gate)) in *.
    assert (Hstored : retryBackoff (snd (RateLimiter.recordRateLimitError st2))
                      = Some (fst (RateLimiter.recordRateLimitError st2)))
      by reflexivity.
    pose proof (Hset _ Hstored) as Hb.
    eexists. exists (fst (RateLimiter.recordRateLimitError st2)).
    split; [rewrite Hrun; exact Hstored|].
    apply Hshown; [destruct Hb as [?|[?|[?|?]]]; lia|].
    rewrite Hrun. unfold GeminiApi.throttledMessage. cbn [generated]. reflexivity.
Qed.

End RelayMore.

Lemma throttle_reaches_countdown_witness :
  RateLimiter.answer
    (RateLimiter.canMakeRequest Sample.promptStorage 1700000001000
       Scene.recentRequest) = Denied 3000 rate_limit
  /\ exists message,
       Content.afterStream
         (Content.consume Sample.noOther
            (mkStream [] false None (Loading (lit "Generating brief...")))
            (map Message
               (Background.onMessage StaysConnected
                  (generated
                     (GeminiApi.streamGeminiResponse Sample.parseEnvelope
                        Sample.noOther Sample.promptStorage 1700000001000
                        (FetchRejects []) Scene.recentRequest)))))
       = ErrorView message false (Some 3000).
Proof.
  assert (H : RateLimiter.answer
                (RateLimiter.canMakeRequest Sample.promptStorage 1700000001000
                   Scene.recentRequest) = Denied 3000 rate_limit) by reflexivity.
  split; [exact H|].
  exact (proj1 (throttle_reaches_countdown Sample.parseEnvelope Sample.noOther
                  Sample.promptStorage 1700000001000 (FetchRejects [])
                  Scene.recentRequest (Loading (lit "Generating brief...")))
           3000 rate_limit H).
Defined.

Lemma relay_spaces_upstream_calls_witness :
  0 < 1700000000000
  /\ fetched (GeminiApi.streamGeminiResponse Sample.parseEnvelope Sample.noOther
                Sample.promptStorage 1700000000000
                (FetchResolves (mkResponse 200 [] [Sample.helloFrame] EndOfStream))
                Scene.keyOnly) = true
  /\ fetched (GeminiApi.streamGeminiResponse Sample.parseEnvelope Sample.noOther
                (mkTiming (Fulfils 10) (Fulfils 10) (Fulfils 10)) 1700000003000
                (FetchResolves (mkResponse 200 [] [Sample.helloFrame] EndOfStream))
                (storageLeft
                   (GeminiApi.streamGeminiResponse Sample.parseEnvelope Sample.noOther
                      Sample.promptStorage 1700000000000
                      (FetchResolves (mkResponse 200 [] [Sample.helloFrame] EndOfStream))
                      Scene.keyOnly))) = false
  /\ fetched (GeminiApi.streamGeminiResponse Sample.parseEnvelope Sample.noOther
                (mkTiming (Fulfils 10) (Fulfils 10) (Fulfils 10)) 1700000000001
                (FetchResolves (mkResponse 200 [] [Sample.helloFrame] EndOfStream))
                Scene.keyOnly) = true.
Proof.
  assert (H1 : 0 < 1700000000000) by lia.
  assert (H2 : fetched (GeminiApi.streamGeminiResponse Sample.parseEnvelope
                Sample.noOther Sample.promptStorage 1700000000000
                (FetchResolves (mkResponse 200 [] [Sample.helloFrame] EndOfStream))
                Scene.keyOnly) = true) by reflexivity.
  split; [exact H1|]. split; [exact H2|].
  split.
  - apply (proj1 (relay_spaces_upstream_calls Sample.parseEnvelope Sample.noOther
                    Sample.promptStorage Sample.promptStorage 1700000000000 _ _
                    Scene.keyOnly _ 1700000003000 10 10 10 H1 H2));
      [vm_compute; discriminate | reflexivity | reflexivity | reflexivity].
  - exact (proj2 (relay_spaces_upstream_calls Sample.parseEnvelope Sample.noOther
                    Sample.promptStorage
                    (mkTiming (Fulfils 10) (Fulfils 10) (Fulfils 10))
                    1700000000000
                    (FetchResolves (mkResponse 200 [] [Sample.helloFrame] EndOfStream))
                    (FetchResolves (mkResponse 200 [] [Sample.helloFrame] EndOfStream))
                    Scene.keyOnly Scene.keyOnly 1700000000001 10 10 10 H1 H2)
             eq_refl eq_refl).
Defined.

Lemma relay_backs_off_after_429_witness :
  RateLimiter.RateLimitState_inv Scene.keyOnly
  /\ 0 < 1700000000000
  /\ fetched (GeminiApi.streamGeminiResponse Sample.parseEnvelope Sample.noOther
                (mkTiming (Fulfils 0) (Fulfils 0) (Fulfils 0)) 1700000000000
                (FetchResolves (mkResponse 429 [] [] EndOfStream))
                Scene.keyOnly) = true
  /\ status (mkResponse 429 [] [] EndOfStream) = 429
  /\ Z.of_N 10 + Z.of_N 10 + Z.of_N 10 < 2000
  /\ exists b,
       retryBackoff
         (storageLeft
            (GeminiApi.streamGeminiResponse Sample.parseEnvelope Sample.noOther
               (mkTiming (Fulfils 0) (Fulfils 0) (Fulfils 0)) 1700000000000
               (FetchResolves (mkResponse 429 [] [] EndOfStream))
               Scene.keyOnly)) = Some b
       /\ 60000 <= b <= 300000.
Proof.
  assert (H1 : RateLimiter.RateLimitState_inv Scene.keyOnly) by (split; discriminate).
  assert (H2 : 0 < 1700000000000) by lia.
  assert (H0 : Z.of_N 0 + Z.of_N 0 + Z.of_N 0 < 2000) by reflexivity.
  assert (H3 : fetched (GeminiApi.streamGeminiResponse Sample.parseEnvelope
                Sample.noOther (mkTiming (Fulfils 0) (Fulfils 0) (Fulfils 0))
                1700000000000
                (FetchResolves (mkResponse 429 [] [] EndOfStream))
                Scene.keyOnly) = true) by reflexivity.
  assert (H4 : status (mkResponse 429 [] [] EndOfStream) = 429) by reflexivity.
  assert (H5 : Z.of_N 10 + Z.of_N 10 + Z.of_N 10 < 2000) by reflexivity.
  assert (H6 : 1700000000000
               + RateLimiter.waited
                   (RateLimiter.canMakeRequest
                      (mkTiming (Fulfils 0) (Fulfils 0) (Fulfils 0))
                      1700000000000 Scene.keyOnly)
               <= 1700000030000) by (vm_compute; discriminate).
  split; [exact H1|]. split; [exact H2|]. split; [exact H3|]. split; [exact H4|].
  split; [exact H5|].
  destruct (relay_backs_off_after_429 Sample.parseEnvelope Sample.noOther
              0 0 0 1700000000000 (mkResponse 429 [] [] EndOfStream)
              (FetchRejects []) Scene.keyOnly Scene.keyOnly 1700000030000 10 10 10
              H1 H2 H0 H3 H4 H6 H5) as (b & Hb & _ & Hr & _).
  exists b. split; [exact Hb | exact Hr].
Defined.

(** ** The decoder keeps a well-formed state *)

Section DecoderInvariant.
Local Open Scope N_scope.
Import TextDecoder.

Lemma pos_lor_ge_l p q : (p <= Pos.lor p q)%positive.
Proof.
  revert q. induction p as [p IH|p IH|]; intros [q|q|]; cbn; try lia;
    specialize (IH q); lia.
Qed.

Lemma lor_ge_l x y : x <= N.lor x y.
Proof.
  destruct x as [|p], y as [|q]; cbn; try lia. apply pos_lor_ge_l.
Qed.

Lemma lor_ge_r x y : y <= N.lor x y.
Proof. rewrite N.lor_comm. apply lor_ge_l. Qed.

Lemma land_low b k base :
  base = 2 ^ k * (base / 2 ^ k) -> base <= b < base + 2 ^ k ->
  N.land b (N.ones k) = b - base.
Proof.
  intros Hbase Hb. rewrite N.land_ones. symmetry.
  apply (N.mod_unique _ _ (base / 2 ^ k)); lia.
Qed.

Lemma continuation_value cp b lo :
  128 <= lo -> lo <= b -> b <= 191 ->
  64 * cp <= N.lor (N.shiftl cp 6) (N.land b 63)
  /\ lo - 128 <= N.lor (N.shiftl cp 6) (N.land b 63).
Proof.
  intros Hlo Hb Hub. split.
  - etransitivity; [|apply lor_ge_l]. rewrite N.shiftl_mul_pow2.
    change (2 ^ 6) with 64. lia.
  - etransitivity; [|apply lor_ge_r].
    change 63 with (N.ones 6). rewrite (land_low b 6 128); [lia|reflexivity|].
    change (2 ^ 6) with 64. lia.
Qed.

Lemma lead_spec bom b :
  consistent (fst (lead bom b))
  /\ exists pre, snd (lead bom b) = pre ++ (if b <=? 127 then [b] else [])
                 /\ Forall (fun c => 128 <= c) pre.
Proof.
  unfold lead.
  destruct (N.leb_spec b 127) as [H1|H1].
  - split; [left; reflexivity|]. exists []. split; [reflexivity|constructor].
  - destruct (N.leb_spec 194 b) as [H2|H2]; destruct (N.leb_spec b 223) as [H3|H3];
      cbn [andb].
    + split; [|exists []; split; [reflexivity|constructor]].
      right. cbn. split; [lia|]. split; [lia|]. left. split; [reflexivity|].
      change 31 with (N.ones 5). rewrite (land_low b 5 192); [lia|reflexivity|].
      change (2 ^ 5) with 32. lia.
    + destruct (N.leb_spec 224 b) as [H4|H4]; [|lia].
      destruct (N.leb_spec b 239) as [H5|H5]; cbn [andb].
      * split; [|exists []; split; [reflexivity|constructor]].
        right. cbn.
        assert (Hcp : N.land b 15 = b - 224).
        { change 15 with (N.ones 4). apply (land_low b 4 224); [reflexivity|].
          change (2 ^ 4) with 16. lia. }
        destruct (N.eqb_spec b 224); destruct (N.eqb_spec b 237);
          (split; [lia|]); (split; [lia|]); right; left;
          (split; [reflexivity|]); rewrite Hcp; lia.
      * destruct (N.leb_spec 240 b) as [H6|H6]; [|lia].
        destruct (N.leb_spec b 244) as [H7|H7]; cbn [andb].
        -- split; [|exists []; split; [reflexivity|constructor]].
           right. cbn.
           assert (Hcp : N.land b 7 = b - 240).
           { change 7 with (N.ones 3). apply (land_low b 3 240); [reflexivity|].
             change (2 ^ 3) with 8. lia. }
           destruct (N.eqb_spec b 240); destruct (N.eqb_spec b 244);
             (split; [lia|]); (split; [lia|]); right; right;
             (split; [reflexivity|]); rewrite Hcp; lia.
        -- split; [left; reflexivity|]. exists [REPLACEMENT].
           split; [reflexivity|]. constructor; [unfold REPLACEMENT; lia|constructor].
    + destruct (N.leb_spec 224 b); [lia|]. cbn [andb].
      destruct (N.leb_spec 240 b); [lia|]. cbn [andb].
      split; [left; reflexivity|]. exists [REPLACEMENT].
      split; [reflexivity|]. constructor; [unfold REPLACEMENT; lia|constructor].
    + lia.
Qed.

Lemma handle_spec st b :
  consistent st ->
  consistent (fst (handle st b))
  /\ exists pre, snd (handle st b) = pre ++ (if b <=? 127 then [b] else [])
                 /\ Forall (fun c => 128 <= c) pre.
Proof.
  intros Hst. unfold handle.
  destruct (N.eqb_spec (bytesNeeded st) 0) as [Hz|Hnz]; [apply lead_spec|].
  destruct Hst as [Hst|(Hlo & Hup & Hst)]; [contradiction|].
  destruct (N.ltb_spec b (lowerBoundary st)) as [Hb1|Hb1]; cbn [orb].
  { destruct (lead_spec (bomSeen st) b) as (Hc & pre & Hout & Hpre).
    destruct (lead (bomSeen st) b) as [st' out]. cbn [fst snd] in *.
    split; [exact Hc|]. exists (REPLACEMENT :: pre). rewrite Hout.
    split; [reflexivity|]. constructor; [unfold REPLACEMENT; lia|exact Hpre]. }
  destruct (N.ltb_spec (upperBoundary st) b) as [Hb2|Hb2].
  { destruct (lead_spec (bomSeen st) b) as (Hc & pre & Hout & Hpre).
    destruct (lead (bomSeen st) b) as [st' out]. cbn [fst snd] in *.
    split; [exact Hc|]. exists (REPLACEMENT :: pre). rewrite Hout.
    split; [reflexivity|]. constructor; [unfold REPLACEMENT; lia|exact Hpre]. }
  destruct (continuation_value (codePoint st) b (lowerBoundary st) Hlo Hb1 ltac:(lia))
    as [Hv1 Hv2].
  set (cp := N.lor (N.shiftl (codePoint st) 6) (N.land b 63)) in *.
  destruct (N.leb_spec b 127) as [?|_]; [lia|].
  destruct (N.eqb_spec (bytesSeen st + 1) (bytesNeeded st)) as [Hlast|Hmore];
    cbn [fst snd].
  - split; [left; reflexivity|]. exists [cp]. split; [reflexivity|].
    constructor; [|constructor].
    destruct Hst as [[_ Hcp]|[[Hs _]|[Hs _]]]; lia.
  - split; [|exists []; split; [reflexivity|constructor]].
    right. cbn. split; [lia|]. split; [lia|].
    destruct Hst as [[Hs _]|[[Hs Hcp]|[Hs Hcp]]]; [lia| |].
    + left. split; [lia|]. destruct Hcp; lia.
    + right. left. split; [lia|]. left. destruct Hcp; lia.
Qed.

Lemma stripBom_spec st out :
  consistent st ->
  consistent (fst (stripBom st out))
  /\ (snd (stripBom st out) = out \/ out = 65279 :: snd (stripBom st out)).
Proof.
  intros Hst. destruct out as [|c r]; cbn [stripBom]; [auto|].
  destruct (bomSeen st); [auto|].
  destruct (N.eqb_spec c 65279) as [->|_].
  - destruct r as [|c' r']; cbn [stripBom bomSeen fst snd]; auto.
  - cbn [fst snd]. auto.
Qed.

Lemma utf16_high cp : 128 <= cp -> Forall (fun c => 128 <= c) (utf16 cp).
Proof.
  intros H. unfold utf16. destruct (N.ltb_spec cp 65536).
  - constructor; [exact H|constructor].
  - constructor; [lia|]. constructor; [lia|constructor].
Qed.

Lemma step_spec st b :
  consistent st ->
  consistent (fst (step st b))
  /\ exists pre, snd (step st b)
                 = pre ++ (if Byte.to_N b <=? 127 then [Byte.to_N b] else [])
                 /\ Forall (fun c => 128 <= c) pre.
Proof.
  intros Hst. unfold step.
  destruct (handle_spec st (Byte.to_N b) Hst) as (Hc & pre & Hout & Hpre).
  destruct (handle st (Byte.to_N b)) as [st1 out]. cbn [fst snd] in *.
  destruct (stripBom_spec st1 out Hc) as (Hc2 & Hstrip).
  destruct (stripBom st1 out) as [st2 out']. cbn [fst snd] in *.
  split; [exact Hc2|].
  assert (Hshape : exists pre', out' = pre' ++ (if Byte.to_N b <=? 127
                                                then [Byte.to_N b] else [])
                                /\ Forall (fun c => 128 <= c) pre').
  { destruct Hstrip as [->|Hdrop]; [exists pre; auto|].
    rewrite Hout in Hdrop. destruct pre as [|p pre'].
    - cbn [app] in Hdrop. destruct (N.leb_spec (Byte.to_N b) 127); [|discriminate].
      injection Hdrop as Hb _. lia.
    - injection Hdrop as _ Hr. inversion Hpre; subst. exists pre'. auto. }
  destruct Hshape as (pre' & -> & Hpre').
  rewrite flat_map_app. exists (flat_map utf16 pre'). split.
  - f_equal. destruct (N.leb_spec (Byte.to_N b) 127); [|reflexivity].
    cbn. unfold utf16. destruct (N.ltb_spec (Byte.to_N b) 65536); [reflexivity|lia].
  - clear -Hpre'. induction Hpre'; cbn; [constructor|].
    apply Forall_app. split; [apply utf16_high; assumption|assumption].
Qed.

Lemma initial_consistent : consistent initial.
Proof. left. reflexivity. Qed.

Lemma decode_consistent value : forall st,
  consistent st -> consistent (fst (decode st value)).
Proof.
  induction value as [|b value IH]; intros st Hst; cbn [decode]; [exact Hst|].
  destruct (step_spec st b Hst) as [Hc _].
  destruct (step st b) as [st1 s1]. cbn [fst] in Hc.
  specialize (IH st1 Hc). destruct (decode st1 value). exact IH.
Qed.

Lemma to_N_newline b : Byte.to_N b = 10 -> b = Byte.x0a.
Proof.
  intros H. pose proof (Byte.of_to_N b) as Hb. rewrite H in Hb.
  cbn in Hb. congruence.
Qed.

(** Text decoded from bytes without a line feed holds no line feed. *)
Lemma decode_no_newline value : forall st,
  consistent st -> Forall (fun b => b <> Byte.x0a) value ->
  Forall (fun c => c <> 10) (snd (decode st value)).
Proof.
  induction value as [|b value IH]; intros st Hst Hv; cbn [decode]; [constructor|].
  inversion Hv as [|? ? Hb Hrest]; subst.
  destruct (step_spec st b Hst) as (Hc & pre & Hout & Hpre).
  destruct (step st b) as [st1 s1]. cbn [fst snd] in *.
  specialize (IH st1 Hc Hrest). destruct (decode st1 value) as [st2 s2].
  cbn [snd] in *. apply Forall_app. split; [|exact IH].
  rewrite Hout. apply Forall_app. split.
  - eapply Forall_impl; [|exact Hpre]. cbn. intros c Hc'. lia.
  - destruct (N.leb_spec (Byte.to_N b) 127); constructor; [|constructor].
    intros E. apply Hb. apply to_N_newline. exact E.
Qed.

(** Text decoded from bytes that end in a line feed ends in a line feed. *)
Lemma decode_ends_newline body : forall st,
  consistent st ->
  exists pre, snd (decode st (body ++ [Byte.x0a])) = pre ++ [10].
Proof.
  induction body as [|b body IH]; intros st Hst; cbn [app decode].
  - destruct (step_spec st Byte.x0a Hst) as (_ & pre & Hout & _).
    destruct (step st Byte.x0a) as [st1 s1]. cbn [snd] in *.
    exists pre. rewrite app_nil_r. exact Hout.
  - destruct (step_spec st b Hst) as (Hc & _).
    destruct (step st b) as [st1 s1]. cbn [fst] in Hc.
    destruct (IH st1 Hc) as (pre & Hpre).
    destruct (decode st1 (body ++ [Byte.x0a])) as [st2 s2]. cbn [snd] in *.
    exists (s1 ++ pre). rewrite Hpre. apply app_assoc.
Qed.
End DecoderInvariant.

(** ** Lines of the event stream *)

Section LineFacts.

Local Open Scope N_scope.
Variable JSON_parse : jsstring -> option json.
Local Abbreviation readLoop := (GeminiApi.readLoop JSON_parse).
Local Abbreviation forLines := (GeminiApi.forLines JSON_parse).

(** X11. The relay acts on complete lines only: the bytes the upstream sends
    after its last line feed are never processed, whatever they are and
    however the body is cut into reads.  A last frame that does not end in a
    line feed is lost. *)
Theorem unterminated_line_is_dropped (values : list (list Byte.byte))
    (body tail : list Byte.byte) (ending : StreamEnd) :
  List.concat values = body ++ [Byte.x0a] ++ tail ->
  Forall (fun b => b <> Byte.x0a) tail ->
  readLoop TextDecoder.initial [] values ending
  = readLoop TextDecoder.initial [] [body ++ [Byte.x0a]] ending.
Proof.
  intros Hcut Htail.
  rewrite (readLoop_whole JSON_parse ending values) by reflexivity.
  rewrite Hcut, !readLoop_single, app_assoc, decode_app.
  pose proof (decode_consistent (body ++ [Byte.x0a]) _ initial_consistent) as Hc.
  destruct (decode_ends_newline body _ initial_consistent) as (pre & Hpre).
  destruct (TextDecoder.decode TextDecoder.initial (body ++ [Byte.x0a])) as [d1 t1].
  cbn [fst snd] in *.
  pose proof (decode_no_newline tail d1 Hc Htail) as Hno.
  destruct (TextDecoder.decode d1 tail) as [d2 t2]. cbn [snd] in *.
  rewrite complete_lines_app. subst t1.
  rewrite pending_after_sep. cbn [app].
  rewrite (split_no_sep _ _ Hno). cbn [removelast]. rewrite app_nil_r. reflexivity.
Qed.

Lemma startsWith_snoc p c : forall s,
  Forall (fun y => y <> c) p -> startsWith (s ++ [c]) p = startsWith s p.
Proof.
  induction p as [|y p IH]; intros s Hp; [destruct s; reflexivity|].
  inversion Hp as [|? ? Hy Hrest]; subst.
  destruct s as [|x s]; cbn [app startsWith].
  - destruct (N.eqb_spec c y); [congruence | reflexivity].
  - rewrite (IH s Hrest). reflexivity.
Qed.

Lemma startsWith_length p : forall s,
  startsWith s p = true -> (List.length p <= List.length s)%nat.
Proof.
  induction p as [|y p IH]; intros s H; [cbn; lia|].
  destruct s as [|x s]; [discriminate|]. cbn [startsWith] in H.
  apply andb_prop in H. destruct H as [_ H]. specialize (IH s H). cbn. lia.
Qed.

Lemma trimStart_snoc c s :
  isWhiteSpace c = true ->
  trimStart (s ++ [c]) = match trimStart s with [] => [] | t => t ++ [c] end.
Proof.
  intros Hc. induction s as [|x s IH]; cbn [app trimStart].
  - rewrite Hc. reflexivity.
  - destruct (isWhiteSpace x); [exact IH | reflexivity].
Qed.

(** A white space at the end of a text is trimmed away. *)
Lemma trim_snoc c s : isWhiteSpace c = true -> trim (s ++ [c]) = trim s.
Proof.
  intros Hc. unfold trim, trimEnd. rewrite (trimStart_snoc c s Hc).
  destruct (trimStart s) as [|x t]; [reflexivity|].
  rewrite rev_app_distr. cbn [rev app trimStart]. rewrite Hc. reflexivity.
Qed.

(** X12. A carriage return at the end of a line changes nothing: the relay
    reads a stream with CRLF line ends as it reads one with LF line ends. *)
Theorem processLine_ignores_carriage_return (line : jsstring) :
  GeminiApi.processLine JSON_parse (line ++ [13])
  = GeminiApi.processLine JSON_parse line.
Proof.
  unfold GeminiApi.processLine.
  rewrite startsWith_snoc
    by (repeat constructor; discriminate).
  destruct (startsWith line (lit "data: ")) eqn:Hd; [|reflexivity].
  apply startsWith_length in Hd. cbn [lit List.length] in Hd.
  unfold slice_from. rewrite skipn_app.
  replace (6 - List.length line)%nat with 0%nat by lia. cbn [skipn].
  rewrite trim_snoc by reflexivity. reflexivity.
Qed.

End LineFacts.

Lemma unterminated_line_is_dropped_witness :
  List.concat [Sample.textFrame "Hi"; list_byte_of_string "data: [DONE]"]
  = removelast (Sample.textFrame "Hi") ++ [Byte.x0a]
    ++ list_byte_of_string "data: [DONE]"
  /\ Forall (fun b => b <> Byte.x0a) (list_byte_of_string "data: [DONE]")
  /\ GeminiApi.readLoop Sample.parseEnvelope TextDecoder.initial []
       [Sample.textFrame "Hi"; list_byte_of_string "data: [DONE]"] EndOfStream
     = GeminiApi.readLoop Sample.parseEnvelope TextDecoder.initial []
         [removelast (Sample.textFrame "Hi") ++ [Byte.x0a]] EndOfStream.
Proof.
  assert (H1 : List.concat [Sample.textFrame "Hi"; list_byte_of_string "data: [DONE]"]
               = removelast (Sample.textFrame "Hi") ++ [Byte.x0a]
                 ++ list_byte_of_string "data: [DONE]") by reflexivity.
  assert (H2 : Forall (fun b => b <> Byte.x0a) (list_byte_of_string "data: [DONE]"))
    by (repeat constructor; discriminate).
  split; [exact H1|]. split; [exact H2|].
  exact (unterminated_line_is_dropped Sample.parseEnvelope _ _ _ EndOfStream H1 H2).
Defined.

(** ** The run and its stream, continued *)

Section ContentMore.

Variable otherToString : json -> jsstring.

Local Abbreviation runBriefrr := (Content.runBriefrr otherToString).
Local Abbreviation consume := (Content.consume otherToString).
Local Abbreviation onPortEvent := (Content.onPortEvent otherToString).

(** X13. Every error of the stream leaves a way to retry, a Retry button or
    a countdown of a positive time, never both, except a throttle message
    whose wait is not a positive number: that one leaves neither. *)
Theorem catchError_offers_retry (message : jsstring) :
  exists text retry countdown,
    Content.catchError message = ErrorView text retry countdown
    /\ ((retry = true /\ countdown = None)
        \/ (retry = false /\ exists ms, countdown = Some ms /\ 0 < ms)
        \/ (retry = false /\ countdown = None
            /\ startsWith message (lit "RATE_LIMITED:") = true
            /\ (3 <= List.length (split 58%N message))%nat
            /\ match parseInt10 (nth 1 (split 58%N message) []) with
               | Some ms => ms <= 0
               | None => True
               end)).
Proof.
  unfold Content.catchError.
  destruct (JS.eqb message (lit "INVALID_KEY"));
    [do 3 eexists; split; [reflexivity | left; split; reflexivity]|].
  destruct (startsWith message (lit "RATE_LIMITED:")) eqn:Hp.
  - unfold Content.rateLimitedError.
    destruct (Nat.leb_spec 3 (List.length (split 58%N message))) as [Hlen|Hlen];
      [|do 3 eexists; split; [reflexivity | left; split; reflexivity]].
    destruct (parseInt10 (nth 1 (split 58%N message) [])) as [ms|] eqn:Hms;
      unfold Content.showError.
    + destruct (Z.ltb_spec 0 ms) as [Hpos|Hpos].
      * do 3 eexists. split; [reflexivity|]. right. left.
        split; [reflexivity|]. exists ms. split; [reflexivity | exact Hpos].
      * do 3 eexists. split; [reflexivity|]. right. right.
        cbn [andb]. repeat split; try reflexivity; assumption.
    + do 3 eexists. split; [reflexivity|]. right. right.
      repeat split; try reflexivity; assumption.
  - destruct (JS.eqb message (lit "RATE_LIMITED"));
      [do 3 eexists; split; [reflexivity | left; split; reflexivity]|].
    destruct (_ || _);
      do 3 eexists; (split; [reflexivity | left; split; reflexivity]).
Qed.


(** Once the promise of the stream is settled the listeners change nothing. *)
Lemma consume_settled events : forall s x,
  settled s = Some x -> consume s events = s.
Proof.
  induction events as [|ev events IH]; intros s x Hs; [reflexivity|].
  cbn [Content.consume fold_left].
  assert (Hstep : onPortEvent s ev = s).
  { unfold Content.onPortEvent. rewrite Hs. reflexivity. }
  rewrite Hstep. exact (IH s x Hs).
Qed.

Lemma consume_app s evs1 evs2 :
  consume s (evs1 ++ evs2) = consume (consume s evs1) evs2.
Proof. apply fold_left_app. Qed.

(** X15. Aborting a run whose stream is not over settles it without an
    error: the text received so far and the view stay as they are, and
    whatever arrives on the port afterwards, an error included, changes
    nothing. *)
Theorem abort_settles_quietly (s0 : StreamState) (before after : list PortEvent) :
  settled (consume s0 before) = None ->
  let s := consume s0 (before ++ Abort :: after) in
  settled s = Some Resolved
  /\ aborted s = true
  /\ accumulated s = accumulated (consume s0 before)
  /\ Content.afterStream s = view (consume s0 before).
Proof.
  intros Hopen s.
  assert (Hs : s = mkStream (accumulated (consume s0 before)) true (Some Resolved)
                     (view (consume s0 before))).
  { unfold s. rewrite consume_app.
    change (consume (consume s0 before) (Abort :: after))
      with (consume (onPortEvent (consume s0 before) Abort) after).
    unfold Content.onPortEvent at 1. rewrite Hopen.
    apply (consume_settled after _ Resolved). reflexivity. }
  rewrite Hs. repeat split.
Qed.

Lemma replaceAll_app c rep a b :
  Content.replaceAll c rep (a ++ b)
  = Content.replaceAll c rep a ++ Content.replaceAll c rep b.
Proof. apply flat_map_app. Qed.

(** X16. escapeHtml escapes each character on its own: an ampersand, a
    less-than and a greater-than sign become their entities and every other
    character stays, so the three replacements in a row never escape the
    ampersand of an entity again; the result holds no angle bracket. *)
Theorem escapeHtml_per_character (str : jsstring) :
  Content.escapeHtml str
  = flat_map (fun c => if (c =? 38)%N then lit "&amp;"
                       else if (c =? 60)%N then lit "&lt;"
                       else if (c =? 62)%N then lit "&gt;"
                       else [c]) str
  /\ Forall (fun c => c <> 60%N /\ c <> 62%N) (Content.escapeHtml str).
Proof.
  assert (Hcons : forall c r,
            Content.escapeHtml (c :: r)
            = (if (c =? 38)%N then lit "&amp;"
               else if (c =? 60)%N then lit "&lt;"
               else if (c =? 62)%N then lit "&gt;"
               else [c]) ++ Content.escapeHtml r).
  { intros c r. unfold Content.escapeHtml.
    change (c :: r) with ([c] ++ r). rewrite !replaceAll_app. f_equal.
    unfold Content.replaceAll at 3. cbn [flat_map]. rewrite app_nil_r.
    destruct (N.eqb_spec c 38) as [->|H38]; [reflexivity|].
    unfold Content.replaceAll at 2. cbn [flat_map]. rewrite app_nil_r.
    destruct (N.eqb_spec c 60) as [->|H60]; [reflexivity|].
    unfold Content.replaceAll. cbn [flat_map]. rewrite app_nil_r.
    destruct (N.eqb_spec c 62) as [->|H62]; reflexivity. }
  induction str as [|c r [IH1 IH2]]; [split; [reflexivity | constructor]|].
  rewrite Hcons. split.
  - cbn [flat_map]. rewrite IH1. reflexivity.
  - apply Forall_app. split; [|exact IH2].
    destruct (N.eqb_spec c 38); [repeat constructor; discriminate|].
    destruct (N.eqb_spec c 60); [repeat constructor; discriminate|].
    destruct (N.eqb_spec c 62); [repeat constructor; discriminate|].
    repeat constructor; assumption.
Qed.

End ContentMore.

Lemma abort_settles_quietly_witness :
  settled (Content.consume Sample.noOther
             (mkStream [] false None (Loading (lit "Generating brief...")))
             [Message (Chunk (JString (lit "Hi")))]) = None
  /\ Content.afterStream
       (Content.consume Sample.noOther
          (mkStream [] false None (Loading (lit "Generating brief...")))
          ([Message (Chunk (JString (lit "Hi")))]
           ++ Abort :: [Message (Error (lit "INVALID_KEY"))]))
     = Markdown (lit "Hi") true.
Proof.
  split; [reflexivity|].
  exact (proj2 (proj2 (proj2
           (abort_settles_quietly Sample.noOther
              (mkStream [] false None (Loading (lit "Generating brief...")))
              [Message (Chunk (JString (lit "Hi")))]
              [Message (Error (lit "INVALID_KEY"))] eq_refl)))).
Defined.

(** ** Timers, continued *)

Section TimerMore.

Import Content.

(** The countdown of a view shown on a page where only focus timers wait. *)
Lemma display_countdown now ms horizon message retry c :
  noRunPending c ->
  started (advanceTo horizon (display now (ErrorView message retry (Some ms)) c))
  = started c
    ++ (if now + 100 * ceil_div ms 100 <=? horizon
        then [(now + 100 * ceil_div ms 100, currentMode c)] else []).
Proof.
  intros Hidle. set (tick := now + 100 * ceil_div ms 100).
  unfold advanceTo. cbn [display timers].
  set (tn := mkTimer (nextId c) tick CountdownRun).
  fold tick. fold tn.
  set (c1 := mkController _ _ _ _ _ _ _ _ _ _).
  rewrite filter_app. cbn [filter]. change (due tn) with tick.
  destruct (Z.leb_spec tick horizon) as [Hdue|Hdue].
  - rewrite (fold_countdown tn _ c1); [reflexivity | reflexivity | | |].
    + intros t Ht. apply In_byDue in Ht. apply in_app_or in Ht.
      destruct Ht as [Ht|[<-|[]]]; [left | right; reflexivity].
      apply filter_In in Ht. destruct (Hidle t (proj1 Ht)) as [Hf Hlt].
      split; [exact Hf | cbn; lia].
    + apply existsb_exists. exists tn. split; [|apply Nat.eqb_refl].
      unfold c1. cbn [timers]. apply in_or_app. right. left. reflexivity.
    + apply byDue_In. apply in_or_app. right. left. reflexivity.
  - rewrite app_nil_r.
    destruct (fold_focus (byDue (filter (fun t => due t <=? horizon) (timers c))) c1)
      as (Hs & _).
    + intros t Ht. apply In_byDue in Ht. apply filter_In in Ht.
      exact (proj1 (Hidle t (proj1 Ht))).
    + rewrite Hs. cbn. rewrite app_nil_r. reflexivity.
Qed.

Lemma closeDrawer_noRunPending c :
  tracked c -> (forall t, In t (timers c) -> (timerId t < nextId c)%nat) ->
  noRunPending (closeDrawer c).
Proof.
  intros Htr Hlt t Ht. cbn [closeDrawer timers nextId] in *.
  apply In_clearIfSet in Ht. destruct Ht as [Ht Hcd].
  apply In_clearIfSet in Ht. destruct Ht as [Ht Hdb].
  split; [|exact (Hlt t Ht)].
  specialize (Htr t Ht). destruct (callback t); [contradiction | reflexivity | contradiction].
Qed.

(** X17. [closeDrawer] aborts the controller of the run and clears the
    debounce timer and the countdown.  On a page whose timers that can start
    a run are those two, no run starts afterwards for as long as the runs in
    flight only render or finish.  It does not stop a run in flight from
    showing a countdown: when a run that was awaiting its gate is denied
    after the drawer was closed, its countdown starts and the run of the
    current mode starts at its tick. *)
Theorem closeDrawer_cancels_pending_runs (c : Controller) (now : Z)
    (events : list (Z * PageEvent)) (horizon : Z) :
  tracked c ->
  (forall t, In t (timers c) -> (timerId t < nextId c)%nat) ->
  (rendering now events horizon ->
   started (page events horizon (closeDrawer c)) = started c
   /\ forall a, abortController c = Some a ->
                In a (abortedControllers (page events horizon (closeDrawer c))))
  /\ (forall ms message retry,
        0 < ms ->
        now + 100 * ceil_div ms 100 <= horizon ->
        started (page [(now, Shows (ErrorView message retry (Some ms)))] horizon
                   (closeDrawer c))
        = started c ++ [(now + 100 * ceil_div ms 100, currentMode c)]).
Proof.
  intros Htr Hlt.
  pose proof (closeDrawer_noRunPending c Htr Hlt) as Hc. split.
  - intros Hev.
    destruct (page_rendering events now horizon _ Hc Hev) as (Hs & Ha & _).
    split; [exact Hs|]. intros a Hab. rewrite Ha.
    cbn [closeDrawer abortedControllers]. rewrite Hab.
    apply in_or_app. right. left. reflexivity.
  - intros ms message retry Hms Hh. cbn [page react].
    destruct (advanceTo_noRunPending now _ Hc) as (Hc1 & Hs1 & _ & Hm1 & _).
    rewrite (display_countdown now ms horizon message retry _ Hc1).
    destruct (Z.leb_spec (now + 100 * ceil_div ms 100) horizon); [|lia].
    rewrite Hs1, Hm1. reflexivity.
Qed.

(** X18. The countdown of an error view with a positive wait, on a page
    where nothing else waits to start a run: the run of the current mode
    starts at the first tick of 100 ms at or after the end of the countdown,
    so not before the wait is over and less than 100 ms after it, and
    nothing starts before. *)
Theorem countdown_starts_retry (now ms horizon : Z) (message : jsstring)
    (retry : bool) (c : Controller) :
  0 < ms ->
  noRunPending c ->
  let tick := now + 100 * ceil_div ms 100 in
  now + ms <= tick < now + ms + 100
  /\ started (advanceTo horizon (display now (ErrorView message retry (Some ms)) c))
     = started c ++ (if tick <=? horizon then [(tick, currentMode c)] else []).
Proof.
  intros Hms Hidle tick.
  split; [pose proof (ceil_div_bounds ms 100 ltac:(lia)); unfold tick; lia|].
  unfold advanceTo. cbn [display timers].
  set (tn := mkTimer (nextId c) tick CountdownRun).
  fold tick. fold tn.
  set (c1 := mkController _ _ _ _ _ _ _ _ _ _).
  rewrite filter_app. cbn [filter]. change (due tn) with tick.
  destruct (Z.leb_spec tick horizon) as [Hdue|Hdue].
  - rewrite (fold_countdown tn _ c1); [reflexivity | reflexivity | | |].
    + intros t Ht. apply In_byDue in Ht. apply in_app_or in Ht.
      destruct Ht as [Ht|[<-|[]]]; [left | right; reflexivity].
      apply filter_In in Ht. destruct (Hidle t (proj1 Ht)) as [Hf Hlt].
      split; [exact Hf | cbn; lia].
    + apply existsb_exists. exists tn. split; [|apply Nat.eqb_refl].
      unfold c1. cbn [timers]. apply in_or_app. right. left. reflexivity.
    + apply byDue_In. apply in_or_app. right. left. reflexivity.
  - rewrite app_nil_r.
    destruct (fold_focus (byDue (filter (fun t => due t <=? horizon) (timers c))) c1)
      as (Hs & _).
    + intros t Ht. apply In_byDue in Ht. apply filter_In in Ht.
      exact (proj1 (Hidle t (proj1 Ht))).
    + rewrite Hs. cbn. rewrite app_nil_r. reflexivity.
Qed.

(** X22. Debouncing.  On a page where nothing waits to start a run, a
    burst of presses of the mode buttons, each less than 500 ms after the
    one before, starts one run at most: that of the last press, 500 ms after
    it, and none when the last press chose the search mode.  Runs in flight
    may render and finish during the burst and after it; the statement is
    for bursts in which none of them shows a retry countdown. *)
Theorem rapid_toggles_start_one_run (c0 : Controller) (t1 : Z) (m1 : Mode)
    (events : list (Z * PageEvent)) (horizon : Z) :
  quiet t1 c0 ->
  burst t1 t1 events horizon ->
  started (page ((t1, Press m1) :: events) horizon c0)
  = started c0 ++ debouncedRun (lastPress (t1, m1) events) horizon
  /\ (List.length (debouncedRun (lastPress (t1, m1) events) horizon) <= 1)%nat.
Proof.
  intros Hq Hb. split.
  - cbn [page react].
    destruct (advanceTo_quiet t1 c0 Hq) as ((Hu & Hnc & Hall) & Hs).
    destruct (switchMode_debouncing t1 m1 (advanceTo t1 c0) Hu Hnc) as [Hc Hs'].
    { intros u Hin. destruct (Hall u Hin) as [?|[? _]]; auto. }
    rewrite (page_burst events _ t1 m1 t1 horizon Hc ltac:(lia) Hb), Hs', Hs.
    reflexivity.
  - unfold debouncedRun. destruct (snd (lastPress (t1, m1) events));
      try destruct (_ <=? _); cbn; lia.
Qed.

End TimerMore.

Lemma closeDrawer_cancels_pending_runs_witness :
  Content.tracked (Content.switchMode 0 explain Scene.idle)
  /\ (forall t, In t (timers (Content.switchMode 0 explain Scene.idle)) ->
                (timerId t < nextId (Content.switchMode 0 explain Scene.idle))%nat)
  /\ started (Content.page
                [(200, Content.Shows (Loading (lit "Extracting page content...")))]
                1000 (Content.closeDrawer (Content.switchMode 0 explain Scene.idle)))
     = []
  /\ started (Content.page
                [(100, Content.Shows
                         (ErrorView (lit "Please wait before making another request.")
                            false (Some 250)))]
                1000 (Content.closeDrawer (Content.switchMode 0 explain Scene.idle)))
     = [(400, explain)].
Proof.
  assert (H1 : Content.tracked (Content.switchMode 0 explain Scene.idle)).
  { intros t [<-|[]]. reflexivity. }
  assert (H2 : forall t, In t (timers (Content.switchMode 0 explain Scene.idle)) ->
                (timerId t < nextId (Content.switchMode 0 explain Scene.idle))%nat).
  { intros t [<-|[]]. cbn. lia. }
  split; [exact H1|]. split; [exact H2|]. split.
  - refine (proj1 (proj1 (closeDrawer_cancels_pending_runs _ 100 _ 1000 H1 H2) _)).
    cbn. lia.
  - refine (proj2 (closeDrawer_cancels_pending_runs _ 100 [] 1000 H1 H2)
              250 (lit "Please wait before making another request.") false _ _);
      [lia | vm_compute; discriminate].
Defined.

Lemma rapid_toggles_start_one_run_witness :
  Content.quiet 0 Scene.idle
  /\ Content.burst 0 0
       [(200, Content.Press highlights); (300, Content.Shows (Loading (lit "Switching mode...")));
        (450, Content.Press search); (600, Content.Press explain);
        (1200, Content.Shows (Markdown (lit "Hello") true)); (1300, Content.Finishes)] 5000
  /\ started (Content.page
                [(0, Content.Press explain); (200, Content.Press highlights);
                 (300, Content.Shows (Loading (lit "Switching mode...")));
                 (450, Content.Press search); (600, Content.Press explain);
                 (1200, Content.Shows (Markdown (lit "Hello") true)); (1300, Content.Finishes)]
                5000 Scene.idle)
     = [(1100, explain)].
Proof.
  assert (Hq : Content.quiet 0 Scene.idle).
  { split; [split; [constructor | intros t []] |].
    split; [intros id; discriminate | intros t []]. }
  assert (Hb : Content.burst 0 0
       [(200, Content.Press highlights); (300, Content.Shows (Loading (lit "Switching mode...")));
        (450, Content.Press search); (600, Content.Press explain);
        (1200, Content.Shows (Markdown (lit "Hello") true)); (1300, Content.Finishes)] 5000)
    by (cbn; lia).
  split; [exact Hq|]. split; [exact Hb|].
  exact (proj1 (rapid_toggles_start_one_run Scene.idle 0 explain _ 5000 Hq Hb)).
Defined.

Lemma countdown_starts_retry_witness :
  0 < 250
  /\ Content.noRunPending Scene.idle
  /\ started (Content.advanceTo 1000
                (Content.display 0
                   (ErrorView (lit "Please wait before making another request.")
                      false (Some 250))
                   Scene.idle))
     = [(300, highlights)].
Proof.
  assert (H1 : 0 < 250) by lia.
  assert (H2 : Content.noRunPending Scene.idle) by (intros t []).
  split; [exact H1|]. split; [exact H2|].
  exact (proj2 (countdown_starts_retry 0 250 1000
                  (lit "Please wait before making another request.") false
                  Scene.idle H1 H2)).
Defined.

(** ** Saving a key, the page title and the extraction *)

Section OptionsFacts.

Variable JSON_parse : jsstring -> option json.
Variable otherToString : json -> jsstring.
Variable server : jsstring -> FetchOutcome.

Local Abbreviation validateApiKey := (GeminiApi.validateApiKey JSON_parse otherToString).
Local Abbreviation saveKey := (Options.saveKey JSON_parse otherToString server).
Local Abbreviation verifyKey := (Options.verifyKey JSON_parse otherToString server).

Lemma validateApiKey_valid res :
  validateApiKey res = Valid
  <-> exists response, res = FetchResolves response
                       /\ 200 <= status response <= 299.
Proof.
  unfold GeminiApi.validateApiKey, GeminiApi.ok. destruct res as [m|response].
  - split; [discriminate | intros (r & H & _); discriminate].
  - destruct (Z.leb_spec 200 (status response)); destruct (Z.leb_spec (status response) 299);
      cbn [andb].
    + split; [|reflexivity]. intros _. exists response. split; [reflexivity | lia].
    + split; [|intros (r & [= <-] & H1); lia].
      destruct (_ =? 429); [discriminate|]. destruct (_ || _); discriminate.
    + split; [|intros (r & [= <-] & H1); lia].
      destruct (_ =? 429); [discriminate|]. destruct (_ || _); discriminate.
    + split; [|intros (r & [= <-] & H1); lia].
      destruct (_ =? 429); [discriminate|]. destruct (_ || _); discriminate.
Qed.

Lemma statusOf_invalid error : Options.statusOf (Invalid error) <> KeySaved.
Proof.
  unfold Options.statusOf. destruct (JS.eqb error _); [discriminate|].
  destruct (JS.eqb error _); discriminate.
Qed.

(** X19. The save button of the options page and the verify button of the
    onboarding page store a key only when the validation request for it was
    answered with a 2xx status: the key stored is the input trimmed, and it
    is then the key the extension reads.  A blank input sends no request;
    a key that is refused, or a request that fails, leaves the storage as
    it was, the old key included.  The onboarding page marks the onboarding
    as done when it stores the key. *)
Theorem save_stores_accepted_key_only (input : jsstring) (st : LocalStorage) :
  let key := trim input in
  let accepted :=
    key <> [] /\ exists response, server key = FetchResolves response
                                  /\ 200 <= status response <= 299 in
  let saved := saveKey input st in
  let verified := verifyKey input st in
  (validated saved = (match key with [] => [] | _ => [key] end)
   /\ validated verified = validated saved)
  /\ (accepted ->
      statusShown saved = KeySaved
      /\ storageSaved saved = Storage.setApiKey key st
      /\ Storage.getApiKey (storageSaved saved) = Some key
      /\ statusShown verified = KeySaved
      /\ Storage.getApiKey (storageSaved verified) = Some key
      /\ Storage.isOnboarded (storageSaved verified) = true)
  /\ (~ accepted ->
      statusShown saved <> KeySaved /\ storageSaved saved = st
      /\ statusShown verified <> KeySaved /\ storageSaved verified = st).
Proof.
  intros key accepted saved verified.
  unfold saved, verified, Options.saveKey, Options.verifyKey. fold key.
  destruct key as [|c k] eqn:Hkey.
  - split; [split; reflexivity|]. split.
    + intros [H _]. contradiction.
    + intros _. cbn. repeat split; discriminate.
  - pose proof (validateApiKey_valid (server (c :: k))) as Hvalid.
    destruct (validateApiKey (server (c :: k))) as [|error] eqn:Hv.
    + split; [split; reflexivity|]. split.
      * intros _. cbn. repeat split.
      * intros Hnot. exfalso. apply Hnot. split; [discriminate|].
        apply Hvalid. reflexivity.
    + split; [split; reflexivity|]. split.
      * intros [_ Hacc]. apply Hvalid in Hacc. discriminate.
      * intros _. cbn [statusShown storageSaved].
        repeat split; try reflexivity; apply statusOf_invalid.
Qed.

(** X20. The title the popup shows is never longer than 55 code units: a
    longer tab title is cut to its first 52 followed by three dots, a
    shorter one is shown whole, and a missing or empty one reads
    [Untitled Page]. *)
Theorem pageTitle_fits (tabTitle : option jsstring) :
  (List.length (Options.pageTitle tabTitle) <= 55)%nat
  /\ (forall title, tabTitle = Some title -> title <> [] ->
      (List.length title <= 55)%nat -> Options.pageTitle tabTitle = title)
  /\ (forall title, tabTitle = Some title ->
      (55 < List.length title)%nat ->
      Options.pageTitle tabTitle = firstn 52 title ++ lit "...")
  /\ (tabTitle = None \/ tabTitle = Some [] ->
      Options.pageTitle tabTitle = lit "Untitled Page").
Proof.
  unfold Options.pageTitle. split; [|split; [|split]];
    [| | |intros [ -> | -> ]; reflexivity].
  - destruct tabTitle as [[|c r]|]; try (cbn; lia).
    destruct (Nat.ltb_spec 55 (List.length (c :: r))) as [Hlong|Hshort]; [|exact Hshort].
    rewrite length_app, length_firstn. cbn [lit List.length]. lia.
  - intros title -> Hne Hlen. destruct title as [|c r]; [contradiction|].
    destruct (Nat.ltb_spec 55 (List.length (c :: r))); [lia | reflexivity].
  - intros title -> Hlen. destruct title as [|c r]; [cbn in Hlen; lia|].
    destruct (Nat.ltb_spec 55 (List.length (c :: r))); [reflexivity | lia].
Qed.

End OptionsFacts.

Section ExtractorFacts.

Import ContentExtractor.

(** X21. The content handed to a run is never longer than 50000 code
    units.  It is the start of the text Readability found when that text has
    more than 100 characters after trimming, and otherwise, also when
    Readability throws or finds nothing, the start of the inner text of the
    body, under the title of the document and the host name; the length
    reported is that of the whole text. *)
Theorem extractContent_caps_content (parsed : Readability) (page : Page) :
  let e := extractContent parsed page in
  let readable :=
    exists article, parsed = ReadabilityArticleOf article
                    /\ (100 < List.length (trim (textContent article)))%nat in
  (List.length (extractedContent e) <= MAX_CONTENT_LENGTH)%nat
  /\ (forall article, parsed = ReadabilityArticleOf article ->
      (100 < List.length (trim (textContent article)))%nat ->
      extractedContent e = firstn MAX_CONTENT_LENGTH (textContent article)
      /\ extractedLength e = List.length (textContent article))
  /\ (~ readable ->
      extractedContent e = firstn MAX_CONTENT_LENGTH (bodyInnerText page)
      /\ extractedLength e = List.length (bodyInnerText page)
      /\ extractedTitle e = documentTitle page
      /\ extractedSiteName e = hostname page).
Proof.
  intros e readable.
  assert (Hcases :
    (exists article, parsed = ReadabilityArticleOf article
                     /\ (100 < List.length (trim (textContent article)))%nat
                     /\ extractedContent e = firstn MAX_CONTENT_LENGTH (textContent article)
                     /\ extractedLength e = List.length (textContent article))
    \/ (~ readable /\ e = fallback page)).
  { unfold e, readable, extractContent.
    destruct parsed as [| |article];
      try (right; split; [intros (a & H & _); discriminate | reflexivity]).
    destruct (textContent article) as [|c text] eqn:Htext.
    - right. split; [|reflexivity].
      intros (a & [= <-] & H). rewrite Htext in H. cbn in H. lia.
    - destruct (Nat.ltb_spec 100 (List.length (trim (c :: text)))) as [Hlong|Hshort].
      + left. exists article. rewrite Htext. repeat split. exact Hlong.
      + right. split; [|reflexivity].
        intros (a & [= <-] & H). rewrite Htext in H. lia. }
  assert (Hcap : forall s : jsstring, (List.length (firstn MAX_CONTENT_LENGTH s) <= MAX_CONTENT_LENGTH)%nat).
  { intros s. rewrite length_firstn. lia. }
  destruct Hcases as [(article & -> & Hlong & Hc & Hl) | (Hnot & He)].
  - split; [rewrite Hc; apply Hcap|]. split.
    + intros a [= <-] _. split; assumption.
    + intros Hnot. exfalso. apply Hnot. exists article. split; [reflexivity | exact Hlong].
  - split; [rewrite He; apply Hcap|]. split.
    + intros a Hp Ha. exfalso. apply Hnot. exists a. split; assumption.
    + intros _. rewrite He. repeat split.
Qed.

End ExtractorFacts.

Lemma save_stores_accepted_key_only_witness :
  (trim (lit " AIza-new ") <> []
   /\ exists response,
        FetchResolves (mkResponse 200 [] [] EndOfStream) = FetchResolves response
        /\ 200 <= status response <= 299)
  /\ Storage.getApiKey
       (storageSaved
          (Options.saveKey Sample.parseEnvelope Sample.noOther
             (fun _ => FetchResolves (mkResponse 200 [] [] EndOfStream))
             (lit " AIza-new ") Scene.keyOnly))
     = Some (lit "AIza-new").
Proof.
  assert (H : trim (lit " AIza-new ") <> []
              /\ exists response,
                   FetchResolves (mkResponse 200 [] [] EndOfStream)
                   = FetchResolves response
                   /\ 200 <= status response <= 299).
  { split; [discriminate|]. eexists. split; [reflexivity|]. cbn. lia. }
  split; [exact H|].
  exact (proj1 (proj2 (proj2
           (proj1 (proj2
              (save_stores_accepted_key_only Sample.parseEnvelope Sample.noOther
                 (fun _ => FetchResolves (mkResponse 200 [] [] EndOfStream))
                 (lit " AIza-new ") Scene.keyOnly)) H)))).
Defined.

Lemma pageTitle_fits_witness :
  (55 < List.length
          (lit "Sixty characters of title, to see where the popup cuts it   "))%nat
  /\ Options.pageTitle
       (Some (lit "Sixty characters of title, to see where the popup cuts it   "))
     = lit "Sixty characters of title, to see where the popup cu...".
Proof.
  assert (H : (55 < List.length
                      (lit "Sixty characters of title, to see where the popup cuts it   "))%nat)
    by (cbn; lia).
  split; [exact H|].
  exact (proj1 (proj2 (proj2 (pageTitle_fits _))) _ eq_refl H).
Defined.

Lemma extractContent_caps_content_witness :
  ~ (exists article, ReadabilityThrows = ReadabilityArticleOf article
                     /\ (100 < List.length (trim (textContent article)))%nat)
  /\ extractedContent
       (ContentExtractor.extractContent ReadabilityThrows
          (mkPage (lit "A page") (lit "The text of the body.") (lit "example.org")))
     = lit "The text of the body.".
Proof.
  assert (H : ~ (exists article, ReadabilityThrows = ReadabilityArticleOf article
                     /\ (100 < List.length (trim (textContent article)))%nat)).
  { intros (a & Ha & _). discriminate. }
  split; [exact H|].
  exact (proj1 (proj2 (proj2
           (extractContent_caps_content ReadabilityThrows
              (mkPage (lit "A page") (lit "The text of the body.")
                 (lit "example.org")))) H)).
Defined.
